(** * useConversation: a shallow embedding of src/hooks/conversation.ts

    The hook is event driven: every handler (a user call, a websocket
    callback, a promise continuation, a React effect) runs to completion
    on one thread, and an [await] splits a function into continuations.
    The embedding keeps that shape.  A [World] holds the React state of
    the hook together with the browser objects the closures hold on to
    (websockets, media recorders, the arrays behind [audioQueue], the
    configuration objects that [Object.assign] mutates), every source
    closure is a function on worlds that takes the values it captured
    at render time as arguments, and [step] dispatches one event and
    then commits the render with its effects. *)

From Stdlib Require Import ZArith QArith Qround String List Bool Lia.
From stdpp Require Import base option list gmap strings.
Import ListNotations.

Local Open Scope Z_scope.
Local Open Scope string_scope.

(** ** JavaScript values and the object store *)

Definition loc := nat.

(** Numbers are integers (sample rates, chunk sizes, milliseconds) plus
    the two non-finite outcomes a division can produce. *)
Inductive JsVal :=
| VUndef
| VNull
| VBool (b : bool)
| VNum (n : Z)
| VNaN
| VInf (negative : bool)
| VStr (s : string)
| VObj (l : loc).

Abbreviation Obj := (gmap string JsVal).
Abbreviation Heap := (gmap loc Obj).

(** A location always denotes an object; one nobody wrote to reads as
    the empty object. *)
Definition deref (h : Heap) (l : loc) : Obj := default ∅ (h !! l).

(** [obj.key]: a missing property reads as [undefined]. *)
Definition get_field (o : Obj) (key : string) : JsVal := default VUndef (o !! key).

(** [Object.assign(target, source)] copies the own properties of
    [source] onto the object behind [target], in place, and returns
    [target] itself. *)
Definition Object_assign (h : Heap) (target : loc) (source : Obj) : Heap * loc :=
  (<[target := source ∪ deref h target]> h, target).

(** [target.key = v] *)
Definition set_field (h : Heap) (target : loc) (key : string) (v : JsVal) : Heap :=
  <[target := <[key := v]> (deref h target)]> h.

(** ** Configuration (../types/conversation) *)

Record AudioMetadata := {
  samplingRate : Z;
  audioEncoding : string
}.

Definition metadata_obj (m : AudioMetadata) : Obj :=
  <["samplingRate" := VNum (samplingRate m)]>
    (<["audioEncoding" := VStr (audioEncoding m)]> ∅).

Record VocodeConfig := {
  apiKey : string;
  baseUrl : option string;
  vocodeConversationId : option string
}.

Record AudioDeviceConfig := {
  inputDeviceId : option string;
  outputSamplingRate : option Z
}.

(** [ConversationConfig | SelfHostedConversationConfig].  A field that
    is [None] is a key the object does not have.  The transcriber and
    synthesizer configurations are objects of the store, because
    [getStartMessage] writes into them. *)
Record Config := {
  transcriberConfig : option loc;
  agentConfig : option JsVal;
  synthesizerConfig : option loc;
  vocodeConfig : option VocodeConfig;
  backendUrl : option string;
  chunkSize : option Z;
  downsampling : option Z;
  conversationId : option string;
  subscribeTranscript : option bool;
  timeSlice : option Z;
  audioDeviceConfig : AudioDeviceConfig
}.

(** [key in config] *)
Definition key_in (key : string) (c : Config) : bool :=
  if String.eqb key "transcriberConfig" then bool_decide (is_Some (transcriberConfig c))
  else if String.eqb key "agentConfig" then bool_decide (is_Some (agentConfig c))
  else if String.eqb key "synthesizerConfig" then bool_decide (is_Some (synthesizerConfig c))
  else if String.eqb key "vocodeConfig" then bool_decide (is_Some (vocodeConfig c))
  else if String.eqb key "backendUrl" then bool_decide (is_Some (backendUrl c))
  else if String.eqb key "chunkSize" then bool_decide (is_Some (chunkSize c))
  else if String.eqb key "downsampling" then bool_decide (is_Some (downsampling c))
  else if String.eqb key "conversationId" then bool_decide (is_Some (conversationId c))
  else if String.eqb key "subscribeTranscript" then bool_decide (is_Some (subscribeTranscript c))
  else if String.eqb key "timeSlice" then bool_decide (is_Some (timeSlice c))
  else String.eqb key "audioDeviceConfig".

(** The arguments of the hook and the two constants of
    react-device-detect. *)
Record Props := {
  config : Config;
  useRecorder : bool;
  isSafari : bool;
  isChrome : bool
}.

Definition VOCODE_API_URL : string := "api.vocode.dev".
Definition DEFAULT_CHUNK_SIZE : Z := 2048.

(** ** Messages (../types/vocode/websocket) *)

Record InputAudioConfig := {
  in_samplingRate : Z;
  in_audioEncoding : string;
  in_chunkSize : Z;
  in_downsampling : option Z
}.

(** The start message as the code builds it: the full-service variant
    holds references to the configuration objects. *)
Inductive StartMessage :=
| StartMsg (transcriber : loc) (agent : JsVal) (synthesizer : loc)
           (conversation : option string)
| AudioConfigStartMsg (inputAudioConfig : InputAudioConfig)
                      (outputAudioConfig : AudioMetadata)
                      (conversation : option string)
                      (subscribe : option bool).

(** What goes over the wire. *)
Inductive OutMsg :=
| websocket_start (transcriber : Obj) (agent : JsVal) (synthesizer : Obj)
                  (conversation : option string)
| websocket_audio_config_start (inputAudioConfig : InputAudioConfig)
                               (outputAudioConfig : AudioMetadata)
                               (conversation : option string)
                               (subscribe : option bool)
| websocket_audio (data : string)
| websocket_stop.

(** Modelled from the spec: [stringify] of ../utils is not under src/.
    The wire format is JSON, so serialising a start message reads the
    properties the referenced configuration objects have at that
    moment. *)
Definition stringify (h : Heap) (m : StartMessage) : OutMsg :=
  match m with
  | StartMsg t a s c => websocket_start (deref h t) a (deref h s) c
  | AudioConfigStartMsg i o c s => websocket_audio_config_start i o c s
  end.

(** Inbound frames after [JSON.parse], by their [type]. *)
Inductive InMsg :=
| in_audio (data : string)
| in_ready
| in_transcript (sender text : string)
| in_other.

Definition is_start_variant (m : OutMsg) : bool :=
  match m with
  | websocket_start _ _ _ _ | websocket_audio_config_start _ _ _ _ => true
  | _ => false
  end.

Definition is_audio (m : OutMsg) : bool :=
  match m with websocket_audio _ => true | _ => false end.

(** ** getBackendUrl *)

Inductive Error := MkError (message : string).

Definition or_string (a : option string) (b : string) : string :=
  match a with
  | Some s => if String.eqb s "" then b else s
  | None => b
  end.

Definition or_num (a : option Z) (b : Z) : Z :=
  match a with
  | Some n => if (n =? 0)%Z then b else n
  | None => b
  end.

Definition getBackendUrl (c : Config) : Error + string :=
  match backendUrl c with
  | Some url => inr url
  | None =>
      match vocodeConfig c with
      | Some v =>
          let base := or_string (baseUrl v) VOCODE_API_URL in
          inr ("wss://" ++ base ++ "/conversation?key=" ++ apiKey v)
      | None => inl (MkError "Invalid config")
      end
  end.

(** ** getStartMessage and getAudioConfigStartMessage *)

Definition is_deepgram (o : Obj) : bool :=
  match get_field o "type" with
  | VStr s => String.eqb s "transcriber_deepgram"
  | _ => false
  end.

(** The first [Object.assign] returns [config.transcriberConfig]
    itself, so the Safari assignment lands in the configuration object,
    and the second [Object.assign] of the object literal returns that
    same object again. *)
Definition getStartMessage (safari : bool) (t : loc) (a : JsVal) (s : loc)
    (v : VocodeConfig) (inputAudioMetadata outputAudioMetadata : AudioMetadata)
    (h : Heap) : Heap * StartMessage :=
  let '(h, transcriberConfig) := Object_assign h t (metadata_obj inputAudioMetadata) in
  let h :=
    if safari && is_deepgram (deref h transcriberConfig)
    then set_field h transcriberConfig "downsampling" (VNum 2)
    else h in
  let '(h, t') := Object_assign h t (metadata_obj inputAudioMetadata) in
  let '(h, s') := Object_assign h s (metadata_obj outputAudioMetadata) in
  (h, StartMsg t' a s' (vocodeConversationId v)).

Definition getAudioConfigStartMessage (inputAudioMetadata outputAudioMetadata : AudioMetadata)
    (chunk : option Z) (down : option Z) (conv : option string)
    (sub : option bool) : StartMessage :=
  AudioConfigStartMsg
    {| in_samplingRate := samplingRate inputAudioMetadata;
       in_audioEncoding := audioEncoding inputAudioMetadata;
       in_chunkSize := or_num chunk DEFAULT_CHUNK_SIZE;
       in_downsampling := down |}
    {| samplingRate := samplingRate outputAudioMetadata;
       audioEncoding := audioEncoding outputAudioMetadata |}
    conv sub.

(** Lines 395-420: pick the variant by probing the four keys. *)
Definition full_service_keys : list string :=
  ["transcriberConfig"; "agentConfig"; "synthesizerConfig"; "vocodeConfig"].

Definition make_start_message (p : Props) (inputAudioMetadata outputAudioMetadata : AudioMetadata)
    (h : Heap) : Heap * StartMessage :=
  let c := config p in
  if forallb (fun key => key_in key c) full_service_keys then
    match transcriberConfig c, agentConfig c, synthesizerConfig c, vocodeConfig c with
    | Some t, Some a, Some s, Some v =>
        getStartMessage (isSafari p) t a s v inputAudioMetadata outputAudioMetadata h
    | _, _, _, _ =>
        (* not reached: the four keys were just found *)
        (h, getAudioConfigStartMessage inputAudioMetadata outputAudioMetadata
              (chunkSize c) (downsampling c) (conversationId c) (subscribeTranscript c))
    end
  else
    (h, getAudioConfigStartMessage inputAudioMetadata outputAudioMetadata
          (chunkSize c) (downsampling c) (conversationId c) (subscribeTranscript c)).

(** ** Numbers

    A JavaScript Number is an IEEE 754 binary64 value (ECMAScript
    6.1.6.1): NaN, an infinity, or a finite value with its sign; the
    magnitude is kept as the rational it denotes, in lowest terms.
    [NFin true 0] is -0. *)
Inductive Number :=
| NNaN
| NInf (negative : bool)
| NFin (negative : bool) (magnitude : Q).

(** The integer nearest to [n / d], for [d > 0]; of two equally near
    the even one. *)
Definition nearest_even (n d : Z) : Z :=
  let q := n / d in
  match 2 * (n mod d) ?= d with
  | Lt => q
  | Gt => q + 1
  | Eq => if Z.even q then q else q + 1
  end.

(** [floor (log2 (n / d))], for [n > 0] and [d > 0]. *)
Definition log2_ratio (n d : Z) : Z :=
  let e := Z.log2 n - Z.log2 d in
  if (if (0 <=? e)%Z then (d * 2 ^ e <=? n)%Z else (d <=? n * 2 ^ (- e))%Z) then e else e - 1.

(** The Number value for a rational [x >= 0]: the double nearest to
    [x], the one with the even significand of two equally near, and
    infinity when that is 2^1024.  The doubles around [x] are the
    multiples of [2^e], where [e] is the exponent of the last place:
    52 places below the leading bit, and -1074 for subnormals. *)
Definition F64 (negative : bool) (x : Q) : Number :=
  let n := Qnum x in
  let d := Z.pos (Qden x) in
  if (n =? 0)%Z then NFin negative 0
  else
    let e := Z.max (log2_ratio n d - 52) (-1074) in
    if (0 <=? e)%Z then
      let v := nearest_even n (d * 2 ^ e) * 2 ^ e in
      if (2 ^ 1024 <=? v)%Z then NInf negative else NFin negative (inject_Z v)
    else
      NFin negative (Qred (nearest_even (n * 2 ^ (- e)) d # Z.to_pos (2 ^ (- e)))).

Definition is_zero (q : Q) : bool := (Qnum q =? 0)%Z.

(** [Number::multiply] and [Number::divide]. *)
Definition Nmul (a b : Number) : Number :=
  match a, b with
  | NNaN, _ | _, NNaN => NNaN
  | NInf s, NInf t => NInf (xorb s t)
  | NInf s, NFin t q | NFin t q, NInf s => if is_zero q then NNaN else NInf (xorb s t)
  | NFin s p, NFin t q => F64 (xorb s t) (p * q)
  end.

Definition Ndiv (a b : Number) : Number :=
  match a, b with
  | NNaN, _ | _, NNaN => NNaN
  | NInf _, NInf _ => NNaN
  | NInf s, NFin t _ => NInf (xorb s t)
  | NFin s _, NInf t => NFin (xorb s t) 0
  | NFin s p, NFin t q =>
      if is_zero q then (if is_zero p then NNaN else NInf (xorb s t))
      else F64 (xorb s t) (p / q)
  end.

(** The Number an integer of the model stands for. *)
Definition of_Z (n : Z) : Number := F64 (n <? 0)%Z (inject_Z (Z.abs n)).

(** *** StringToNumber (ECMAScript 7.1.4.1)

    Strings are UTF-8 here.  [skip_ws] drops leading white space and
    line terminators. *)
Definition ws1 (a : nat) : bool :=
  (a =? 9)%nat || (a =? 10)%nat || (a =? 11)%nat || (a =? 12)%nat || (a =? 13)%nat
  || (a =? 32)%nat.

(* U+1680, U+2000..U+200A, U+2028, U+2029, U+202F, U+205F, U+3000, U+FEFF *)
Definition ws3 (a b c : nat) : bool :=
  ((a =? 225)%nat && (b =? 154)%nat && (c =? 128)%nat)
  || ((a =? 226)%nat && (b =? 128)%nat &&
      (((128 <=? c)%nat && (c <=? 138)%nat) || (c =? 168)%nat || (c =? 169)%nat
       || (c =? 175)%nat))
  || ((a =? 226)%nat && (b =? 129)%nat && (c =? 159)%nat)
  || ((a =? 227)%nat && (b =? 128)%nat && (c =? 128)%nat)
  || ((a =? 239)%nat && (b =? 187)%nat && (c =? 191)%nat).

Fixpoint skip_ws (s : string) : string :=
  match s with
  | String a s1 =>
      if ws1 (Ascii.nat_of_ascii a) then skip_ws s1
      else
        match s1 with
        | String b s2 =>
            (* U+00A0 *)
            if (Ascii.nat_of_ascii a =? 194)%nat && (Ascii.nat_of_ascii b =? 160)%nat then skip_ws s2
            else
              match s2 with
              | String c s3 =>
                  if ws3 (Ascii.nat_of_ascii a) (Ascii.nat_of_ascii b) (Ascii.nat_of_ascii c)
                  then skip_ws s3 else s
              | EmptyString => s
              end
        | EmptyString => s
        end
  | EmptyString => s
  end.

Definition digit_of (base : Z) (a : Ascii.ascii) : option Z :=
  let n := Z.of_nat (Ascii.nat_of_ascii a) in
  let v := if (48 <=? n)%Z && (n <=? 57)%Z then n - 48
           else if (97 <=? n)%Z && (n <=? 102)%Z then n - 87
           else if (65 <=? n)%Z && (n <=? 70)%Z then n - 55
           else base in
  if (v <? base)%Z then Some v else None.

(** The digits at the head of [s] in [base], added to [acc]: the
    value, how many were read, and what follows. *)
Fixpoint digits (base : Z) (s : string) (acc : Z) (count : Z) : Z * Z * string :=
  match s with
  | String a s' =>
      match digit_of base a with
      | Some v => digits base s' (base * acc + v) (count + 1)
      | None => (acc, count, s)
      end
  | EmptyString => (acc, count, s)
  end.

Definition strip (pre s : string) : option string :=
  if String.prefix pre s
  then Some (String.substring (String.length pre) (String.length s - String.length pre) s)
  else None.

Definition strip_any (pres : list string) (s : string) : option string :=
  List.fold_right (fun pre r => match strip pre s with Some t => Some t | None => r end)
    None pres.

Definition integer_literal (base : Z) (s : string) : Number :=
  let '(v, count, rest) := digits base s 0 0 in
  if (0 <? count)%Z && String.eqb (skip_ws rest) EmptyString
  then F64 false (inject_Z v) else NNaN.

Definition decimal_literal (s : string) : Number :=
  let '(negative, s) :=
    match strip "-" s with
    | Some t => (true, t)
    | None => (false, match strip "+" s with Some t => t | None => s end)
    end in
  match strip "Infinity" s with
  | Some rest => if String.eqb (skip_ws rest) EmptyString then NInf negative else NNaN
  | None =>
      let '(i, ci, s) := digits 10 s 0 0 in
      let '(m, cf, s) :=
        match strip "." s with
        | Some t => digits 10 t i 0
        | None => (i, 0, s)
        end in
      let '(x, ok, s) :=
        match strip_any ["e"; "E"] s with
        | Some t =>
            let '(neg_x, t) :=
              match strip "-" t with
              | Some u => (true, u)
              | None => (false, match strip "+" t with Some u => u | None => t end)
              end in
            let '(x, cx, t) := digits 10 t 0 0 in
            (if neg_x then - x else x, (0 <? cx)%Z, t)
        | None => (0, true, s)
        end in
      if (0 <? ci + cf)%Z && ok && String.eqb (skip_ws s) EmptyString then
        let e := x - cf in
        F64 negative (if (0 <=? e)%Z then inject_Z (m * 10 ^ e) else m # Z.to_pos (10 ^ (- e)))
      else NNaN
  end.

Definition StringToNumber (s : string) : Number :=
  let s := skip_ws s in
  if String.eqb s EmptyString then NFin false 0
  else
    match strip_any ["0x"; "0X"] s, strip_any ["0o"; "0O"] s, strip_any ["0b"; "0B"] s with
    | Some t, _, _ => integer_literal 16 t
    | _, Some t, _ => integer_literal 8 t
    | _, _, Some t => integer_literal 2 t
    | None, None, None => decimal_literal s
    end.

(** [ToNumber] (ECMAScript 7.1.4).  The configuration objects are plain
    records without a [valueOf] or [toString] of their own, so an
    object converts to NaN. *)
Definition ToNumber (v : JsVal) : Number :=
  match v with
  | VUndef => NNaN
  | VNull => NFin false 0
  | VBool b => NFin false (if b then 1 else 0)
  | VNum n => of_Z n
  | VNaN => NNaN
  | VInf s => NInf s
  | VStr s => StringToNumber s
  | VObj _ => NNaN
  end.

(** [Math.round]: the nearest integer, ties towards +infinity.  The
    result is an integer of the model; -0 reads as 0. *)
Definition Math_round (x : Number) : JsVal :=
  match x with
  | NNaN => VNaN
  | NInf s => VInf s
  | NFin s q => VNum (Qfloor ((if s then - q else q) + (1 # 2)))
  end.

(** ** The capture time slice (lines 442-452) *)

(** [Math.round((1000 * chunkSize) / samplingRate)] on two properties
    read from an object, in the arithmetic of Numbers. *)
Definition round_ratio (chunk rate : JsVal) : JsVal :=
  Math_round (Ndiv (Nmul (of_Z 1000) (ToNumber chunk)) (ToNumber rate)).

Definition opt_num (o : option Z) : JsVal :=
  match o with Some n => VNum n | None => VUndef end.

Definition compute_timeSlice (h : Heap) (startMessage : StartMessage) (c : Config) : JsVal :=
  match startMessage with
  | StartMsg t _ _ _ =>
      round_ratio (get_field (deref h t) "chunkSize") (get_field (deref h t) "samplingRate")
  | AudioConfigStartMsg _ _ _ _ =>
      if key_in "timeSlice" c then opt_num (timeSlice c) else VNum 10
  end.

(** ** Transcripts (lines 334-353) *)

Record Transcript := {
  sender : string;
  text : string
}.

(** [Array.prototype.pop] and [push] on the array behind the state. *)
Definition pop {A} (l : list A) : option A * list A :=
  match rev l with
  | [] => (None, [])
  | x :: r => (Some x, rev r)
  end.

Definition push {A} (l : list A) (x : A) : list A := (l ++ [x])%list.

Definition update_transcripts (prev : list Transcript) (msg_sender msg_text : string)
    : list Transcript :=
  let '(last, prev) := pop prev in
  match last with
  | Some l =>
      if String.eqb (sender l) msg_sender
      then push prev {| sender := msg_sender; text := text l ++ " " ++ msg_text |}
      else push (push prev l) {| sender := msg_sender; text := msg_text |}
  | None => push prev {| sender := msg_sender; text := msg_text |}
  end.

(** ** Browser objects *)

Inductive ReadyState := CONNECTING | OPEN | CLOSING | CLOSED.

Inductive RecorderState := inactive | recording | paused.

(** A [dataavailable] listener is one [recordingDataListener] closure:
    the function object of one render, holding that render's
    [socket]. *)
Record Listener := {
  fn_id : nat;
  fn_socket : option nat
}.

Record MediaRecorder := {
  rec_state : RecorderState;
  listeners : list Listener;
  rec_timeSlice : JsVal
}.

Record AudioContext := {
  sampleRate : Z
}.

(** The payload of an inbound audio frame, [Buffer.from(data, "base64")];
    a chunk is identified by the text it was decoded from. *)
Definition Buffer := string.

(** ** React state of the hook (lines 44-55) *)

Inductive ConversationStatus := st_idle | st_connecting | st_connected | st_error.

Inductive CurrentSpeaker := sp_none | sp_user | sp_agent.

Record HookState := {
  audioContext : option AudioContext;
  audioAnalyser : bool;
  audioQueue : nat;               (* the array the state refers to *)
  currentSpeaker : CurrentSpeaker;
  processing : bool;
  recorder : option nat;
  socket : option nat;
  status : ConversationStatus;
  error : option Error;
  transcripts : list Transcript;
  active : bool
}.

(** ** Suspended continuations *)

Inductive StartPhase :=
| AwaitOpen      (* the 100 ms interval is polling readyState *)
| AwaitMic       (* getUserMedia is pending *)
| Sent           (* ran past socket.send(stringify(startMessage)) *)
| Failed.        (* the promise of start() rejected *)

(** One call of [startConversation] that got as far as [new WebSocket]:
    what its closure captured, its local [error] and where it is
    suspended.  Call number [k] owns socket number [k]. *)
Record StartTask := {
  t_recorder : option nat;
  t_socket : option nat;
  t_sampleRate : Z;
  t_error : option Error;
  t_phase : StartPhase
}.

Inductive PlayPhase := Fetching | Playing | Finished.

(** One chunk taken off the queue by the playback effect, with the
    [audioQueue] array and the audio context of the render whose effect
    took it. *)
Record Playback := {
  p_audio : Buffer;
  p_queue : nat;
  p_context : bool;
  p_phase : PlayPhase
}.

Definition Deps : Type := option nat * option nat * ConversationStatus * bool.

Record World := {
  hook : HookState;
  heap : Heap;
  suspended : bool;                       (* audioContext.state *)
  sockets : list ReadyState;
  recorders : list MediaRecorder;
  arrays : list (list Buffer);
  starts : list StartTask;
  playbacks : list Playback;
  listener_deps : option Deps;            (* dependencies of the last run *)
  renders : nat;
  outbound : list (nat * OutMsg);         (* frames handed to an open socket *)
  played : list Buffer;                   (* source.start(0), in order *)
  uncaught : list Error                   (* exceptions no handler caught *)
}.

(** *** Field updates *)

Definition set_audioContext v (s : HookState) : HookState :=
  {| audioContext := v; audioAnalyser := audioAnalyser s; audioQueue := audioQueue s;
     currentSpeaker := currentSpeaker s; processing := processing s; recorder := recorder s;
     socket := socket s; status := status s; error := error s;
     transcripts := transcripts s; active := active s |}.
Definition set_audioAnalyser v (s : HookState) : HookState :=
  {| audioContext := audioContext s; audioAnalyser := v; audioQueue := audioQueue s;
     currentSpeaker := currentSpeaker s; processing := processing s; recorder := recorder s;
     socket := socket s; status := status s; error := error s;
     transcripts := transcripts s; active := active s |}.
Definition set_audioQueue v (s : HookState) : HookState :=
  {| audioContext := audioContext s; audioAnalyser := audioAnalyser s; audioQueue := v;
     currentSpeaker := currentSpeaker s; processing := processing s; recorder := recorder s;
     socket := socket s; status := status s; error := error s;
     transcripts := transcripts s; active := active s |}.
Definition set_currentSpeaker v (s : HookState) : HookState :=
  {| audioContext := audioContext s; audioAnalyser := audioAnalyser s; audioQueue := audioQueue s;
     currentSpeaker := v; processing := processing s; recorder := recorder s;
     socket := socket s; status := status s; error := error s;
     transcripts := transcripts s; active := active s |}.
Definition set_processing v (s : HookState) : HookState :=
  {| audioContext := audioContext s; audioAnalyser := audioAnalyser s; audioQueue := audioQueue s;
     currentSpeaker := currentSpeaker s; processing := v; recorder := recorder s;
     socket := socket s; status := status s; error := error s;
     transcripts := transcripts s; active := active s |}.
Definition set_recorder v (s : HookState) : HookState :=
  {| audioContext := audioContext s; audioAnalyser := audioAnalyser s; audioQueue := audioQueue s;
     currentSpeaker := currentSpeaker s; processing := processing s; recorder := v;
     socket := socket s; status := status s; error := error s;
     transcripts := transcripts s; active := active s |}.
Definition set_socket v (s : HookState) : HookState :=
  {| audioContext := audioContext s; audioAnalyser := audioAnalyser s; audioQueue := audioQueue s;
     currentSpeaker := currentSpeaker s; processing := processing s; recorder := recorder s;
     socket := v; status := status s; error := error s;
     transcripts := transcripts s; active := active s |}.
Definition set_status v (s : HookState) : HookState :=
  {| audioContext := audioContext s; audioAnalyser := audioAnalyser s; audioQueue := audioQueue s;
     currentSpeaker := currentSpeaker s; processing := processing s; recorder := recorder s;
     socket := socket s; status := v; error := error s;
     transcripts := transcripts s; active := active s |}.
Definition set_error v (s : HookState) : HookState :=
  {| audioContext := audioContext s; audioAnalyser := audioAnalyser s; audioQueue := audioQueue s;
     currentSpeaker := currentSpeaker s; processing := processing s; recorder := recorder s;
     socket := socket s; status := status s; error := v;
     transcripts := transcripts s; active := active s |}.
Definition set_transcripts v (s : HookState) : HookState :=
  {| audioContext := audioContext s; audioAnalyser := audioAnalyser s; audioQueue := audioQueue s;
     currentSpeaker := currentSpeaker s; processing := processing s; recorder := recorder s;
     socket := socket s; status := status s; error := error s;
     transcripts := v; active := active s |}.
Definition set_active v (s : HookState) : HookState :=
  {| audioContext := audioContext s; audioAnalyser := audioAnalyser s; audioQueue := audioQueue s;
     currentSpeaker := currentSpeaker s; processing := processing s; recorder := recorder s;
     socket := socket s; status := status s; error := error s;
     transcripts := transcripts s; active := v |}.

Definition with_hook (f : HookState -> HookState) (w : World) : World :=
  {| hook := f (hook w); heap := heap w; suspended := suspended w; sockets := sockets w;
     recorders := recorders w; arrays := arrays w; starts := starts w;
     playbacks := playbacks w; listener_deps := listener_deps w; renders := renders w;
     outbound := outbound w; played := played w; uncaught := uncaught w |}.
Definition set_heap v (w : World) : World :=
  {| hook := hook w; heap := v; suspended := suspended w; sockets := sockets w;
     recorders := recorders w; arrays := arrays w; starts := starts w;
     playbacks := playbacks w; listener_deps := listener_deps w; renders := renders w;
     outbound := outbound w; played := played w; uncaught := uncaught w |}.
Definition set_suspended v (w : World) : World :=
  {| hook := hook w; heap := heap w; suspended := v; sockets := sockets w;
     recorders := recorders w; arrays := arrays w; starts := starts w;
     playbacks := playbacks w; listener_deps := listener_deps w; renders := renders w;
     outbound := outbound w; played := played w; uncaught := uncaught w |}.
Definition set_sockets v (w : World) : World :=
  {| hook := hook w; heap := heap w; suspended := suspended w; sockets := v;
     recorders := recorders w; arrays := arrays w; starts := starts w;
     playbacks := playbacks w; listener_deps := listener_deps w; renders := renders w;
     outbound := outbound w; played := played w; uncaught := uncaught w |}.
Definition set_recorders v (w : World) : World :=
  {| hook := hook w; heap := heap w; suspended := suspended w; sockets := sockets w;
     recorders := v; arrays := arrays w; starts := starts w;
     playbacks := playbacks w; listener_deps := listener_deps w; renders := renders w;
     outbound := outbound w; played := played w; uncaught := uncaught w |}.
Definition set_arrays v (w : World) : World :=
  {| hook := hook w; heap := heap w; suspended := suspended w; sockets := sockets w;
     recorders := recorders w; arrays := v; starts := starts w;
     playbacks := playbacks w; listener_deps := listener_deps w; renders := renders w;
     outbound := outbound w; played := played w; uncaught := uncaught w |}.
Definition set_starts v (w : World) : World :=
  {| hook := hook w; heap := heap w; suspended := suspended w; sockets := sockets w;
     recorders := recorders w; arrays := arrays w; starts := v;
     playbacks := playbacks w; listener_deps := listener_deps w; renders := renders w;
     outbound := outbound w; played := played w; uncaught := uncaught w |}.
Definition set_playbacks v (w : World) : World :=
  {| hook := hook w; heap := heap w; suspended := suspended w; sockets := sockets w;
     recorders := recorders w; arrays := arrays w; starts := starts w;
     playbacks := v; listener_deps := listener_deps w; renders := renders w;
     outbound := outbound w; played := played w; uncaught := uncaught w |}.
Definition set_listener_deps v (w : World) : World :=
  {| hook := hook w; heap := heap w; suspended := suspended w; sockets := sockets w;
     recorders := recorders w; arrays := arrays w; starts := starts w;
     playbacks := playbacks w; listener_deps := v; renders := renders w;
     outbound := outbound w; played := played w; uncaught := uncaught w |}.
Definition set_renders v (w : World) : World :=
  {| hook := hook w; heap := heap w; suspended := suspended w; sockets := sockets w;
     recorders := recorders w; arrays := arrays w; starts := starts w;
     playbacks := playbacks w; listener_deps := listener_deps w; renders := v;
     outbound := outbound w; played := played w; uncaught := uncaught w |}.
Definition set_outbound v (w : World) : World :=
  {| hook := hook w; heap := heap w; suspended := suspended w; sockets := sockets w;
     recorders := recorders w; arrays := arrays w; starts := starts w;
     playbacks := playbacks w; listener_deps := listener_deps w; renders := renders w;
     outbound := v; played := played w; uncaught := uncaught w |}.
Definition set_played v (w : World) : World :=
  {| hook := hook w; heap := heap w; suspended := suspended w; sockets := sockets w;
     recorders := recorders w; arrays := arrays w; starts := starts w;
     playbacks := playbacks w; listener_deps := listener_deps w; renders := renders w;
     outbound := outbound w; played := v; uncaught := uncaught w |}.
Definition set_uncaught v (w : World) : World :=
  {| hook := hook w; heap := heap w; suspended := suspended w; sockets := sockets w;
     recorders := recorders w; arrays := arrays w; starts := starts w;
     playbacks := playbacks w; listener_deps := listener_deps w; renders := renders w;
     outbound := outbound w; played := played w; uncaught := v |}.

(** ** Handlers: a state monad with exceptions

    A handler changes the world and either returns or throws; what it
    did before throwing stays done. *)

Definition M (A : Type) : Type := World -> World * (Error + A).

Definition ret {A} (a : A) : M A := fun w => (w, inr a).
Definition throw {A} (e : Error) : M A := fun w => (w, inl e).
Definition bind {A B} (m : M A) (f : A -> M B) : M B :=
  fun w => match m w with
           | (w', inr a) => f a w'
           | (w', inl e) => (w', inl e)
           end.
Definition modify (f : World -> World) : M unit := fun w => (f w, inr tt).
Definition gets {A} (f : World -> A) : M A := fun w => (w, inr (f w)).

Notation "'let!' x ':=' m 'in' k" := (bind m (fun x => k))
  (at level 10, x name, m at level 100, k at level 200).
Notation "m >> k" := (bind m (fun _ => k)) (at level 90, right associativity).

Definition InvalidStateError : Error := MkError "InvalidStateError".
Definition TypeError : Error := MkError "TypeError".

(** *** WebSocket and MediaRecorder methods

    [send] throws while the socket is connecting, hands the frame over
    while it is open and discards it once it is closing or closed. *)
Definition socket_send (k : nat) (m : OutMsg) : M unit := fun w =>
  match sockets w !! k with
  | Some CONNECTING => (w, inl InvalidStateError)
  | Some OPEN => (set_outbound (outbound w ++ [(k, m)])%list w, inr tt)
  | Some _ => (w, inr tt)
  | None => (w, inl TypeError)
  end.

Definition socket_close (k : nat) : M unit := fun w =>
  match sockets w !! k with
  | Some CONNECTING | Some OPEN => (set_sockets (<[k := CLOSING]> (sockets w)) w, inr tt)
  | Some _ => (w, inr tt)
  | None => (w, inl TypeError)
  end.

Definition set_rec_state (v : RecorderState) (r : MediaRecorder) : MediaRecorder :=
  {| rec_state := v; listeners := listeners r; rec_timeSlice := rec_timeSlice r |}.

(** [stop] on a recorder that is not running returns without doing
    anything; [resume] and [start] throw an InvalidStateError from a
    state they do not apply to. *)
Definition recorder_stop (r : nat) : M unit := fun w =>
  match recorders w !! r with
  | Some rc =>
      match rec_state rc with
      | inactive => (w, inr tt)
      | _ => (set_recorders (<[r := set_rec_state inactive rc]> (recorders w)) w, inr tt)
      end
  | None => (w, inl TypeError)
  end.

Definition recorder_resume (r : nat) : M unit := fun w =>
  match recorders w !! r with
  | Some rc =>
      match rec_state rc with
      | inactive => (w, inl InvalidStateError)
      | _ => (set_recorders (<[r := set_rec_state recording rc]> (recorders w)) w, inr tt)
      end
  | None => (w, inl TypeError)
  end.

Definition recorder_start (r : nat) (slice : JsVal) : M unit := fun w =>
  match recorders w !! r with
  | Some rc =>
      match rec_state rc with
      | inactive =>
          (set_recorders
             (<[r := {| rec_state := recording; listeners := listeners rc;
                        rec_timeSlice := slice |}]> (recorders w)) w, inr tt)
      | _ => (w, inl InvalidStateError)
      end
  | None => (w, inl TypeError)
  end.

Definition new_MediaRecorder : M nat := fun w =>
  (set_recorders
     (recorders w ++ [{| rec_state := inactive; listeners := []; rec_timeSlice := VUndef |}])%list w,
   inr (length (recorders w))).

Definition recorder_state_of (w : World) (r : nat) : option RecorderState :=
  rec_state <$> recorders w !! r.

(** *** State setters *)

Definition setStatus (v : ConversationStatus) : M unit := modify (with_hook (set_status v)).
Definition setError (v : option Error) : M unit := modify (with_hook (set_error v)).
Definition setCurrentSpeaker (v : CurrentSpeaker) : M unit :=
  modify (with_hook (set_currentSpeaker v)).
Definition setProcessing (v : bool) : M unit := modify (with_hook (set_processing v)).
Definition setSocket (v : option nat) : M unit := modify (with_hook (set_socket v)).
Definition setRecorder (v : option nat) : M unit := modify (with_hook (set_recorder v)).
Definition setActive (v : bool) : M unit := modify (with_hook (set_active v)).

(** The array the [audioQueue] state refers to. *)
Definition array_of (w : World) (q : nat) : list Buffer := default [] (arrays w !! q).
Definition queue (w : World) : list Buffer := array_of w (audioQueue (hook w)).

(** [setAudioQueue] with a new array: [[]] in [stopConversation],
    [[...prev, chunk]] in [onmessage], where [prev] is the array the
    state holds at that moment. *)
Definition setAudioQueue (f : list Buffer -> list Buffer) : M unit := fun w =>
  (with_hook (set_audioQueue (length (arrays w)))
     (set_arrays (arrays w ++ [f (queue w)])%list w), inr tt).

Definition setTranscripts (f : list Transcript -> list Transcript) : M unit :=
  modify (fun w => with_hook (set_transcripts (f (transcripts (hook w)))) w).

(** ** recordingDataListener (lines 66-76)

    [socket] is the state as the closure captured it; [base64Encoded]
    is what the promise of [blobToBase64] resolved to. *)
Definition recordingDataListener (socket : option nat) (base64Encoded : option string)
    : M unit :=
  match base64Encoded with
  | None => ret tt
  | Some data =>
      if String.eqb data "" then ret tt
      else
        match socket with
        | None => throw TypeError
        | Some k =>
            let! rs := gets (fun w => sockets w !! k) in
            match rs with
            | Some OPEN => socket_send k (websocket_audio data)
            | _ => ret tt
            end
        end
  end.

(** ** stopConversation (lines 132-148)

    [recorder] and [socket] are the state as the calling closure
    captured it. *)
Definition stopConversation (recorder socket : option nat) (error : option Error) : M unit :=
  setAudioQueue (fun _ => []) >>
  setCurrentSpeaker sp_none >>
  (match error with
   | Some e => setError (Some e) >> setStatus st_error
   | None => setStatus st_idle
   end) >>
  match recorder, socket with
  | Some r, Some k =>
      recorder_stop r >>
      socket_send k websocket_stop >>
      socket_close k
  | _, _ => ret tt
  end.

(** ** startConversation (lines 306-462) *)

Definition new_WebSocket (t : StartTask) : M nat := fun w =>
  (set_starts (starts w ++ [t])%list (set_sockets (sockets w ++ [CONNECTING])%list w),
   inr (length (sockets w))).

(** Up to the wait for the socket.  [s] is the state the closure
    captured.  [await getBackendUrl()] resumes in the same turn of the
    event loop. *)
Definition startConversation (p : Props) (s : HookState) : M unit :=
  match audioContext s, audioAnalyser s with
  | Some ctx, true =>
      setStatus st_connecting >>
      if negb (isSafari p) && negb (isChrome p) then
        stopConversation (recorder s) (socket s) (Some (MkError "Unsupported browser"))
      else
        (let! susp := gets suspended in
         if susp then modify (set_suspended false) else ret tt) >>
        match getBackendUrl (config p) with
        | inl e => throw e
        | inr backendUrl =>
            setError None >>
            let! k := new_WebSocket
                        {| t_recorder := recorder s; t_socket := socket s;
                           t_sampleRate := sampleRate ctx; t_error := None;
                           t_phase := AwaitOpen |} in
            setSocket (Some k)
        end
  | _, _ => ret tt
  end.

Definition set_phase (v : StartPhase) (t : StartTask) : StartTask :=
  {| t_recorder := t_recorder t; t_socket := t_socket t; t_sampleRate := t_sampleRate t;
     t_error := t_error t; t_phase := v |}.

Definition set_t_error (v : option Error) (t : StartTask) : StartTask :=
  {| t_recorder := t_recorder t; t_socket := t_socket t; t_sampleRate := t_sampleRate t;
     t_error := v; t_phase := t_phase t |}.

Definition setPhase (k : nat) (v : StartPhase) : M unit :=
  modify (fun w => set_starts (alter (set_phase v) k (starts w)) w).

(** From line 388 on: the start message, then the recorder.
    [audioStream] tells whether a microphone stream was obtained. *)
Definition send_start_and_record (p : Props) (k : nat) (t : StartTask)
    (inputAudioMetadata : AudioMetadata) (audioStream : bool) : M unit :=
  let outputAudioMetadata :=
    {| samplingRate := or_num (outputSamplingRate (audioDeviceConfig (config p)))
                              (t_sampleRate t);
       audioEncoding := "linear16" |} in
  let! h := gets heap in
  let '(h', startMessage) := make_start_message p inputAudioMetadata outputAudioMetadata h in
  modify (set_heap h') >>
  socket_send k (stringify h' startMessage) >>
  setPhase k Sent >>
  if negb audioStream then ret tt
  else
    let! recorderToUse :=
      match t_recorder t with
      | Some r =>
          let! st := gets (fun w => recorder_state_of w r) in
          (match st with
           | Some paused => recorder_resume r
           | _ => ret tt
           end) >> ret r
      | None =>
          let! r := new_MediaRecorder in
          setRecorder (Some r) >> ret r
      end in
    let timeSlice := compute_timeSlice h' startMessage (config p) in
    let! st := gets (fun w => recorder_state_of w recorderToUse) in
    match st with
    | Some recording => ret tt
    | _ => recorder_start recorderToUse timeSlice
    end.

(** The interval of line 362 fires: nothing happens until the socket
    is open; then the promise resolves and the function runs on to
    [getUserMedia], or to its end when no recorder is wanted. *)
Definition poll (p : Props) (k : nat) : M unit := fun w =>
  match starts w !! k, sockets w !! k with
  | Some t, Some OPEN =>
      match t_phase t with
      | AwaitOpen =>
          let inputAudioMetadata :=
            {| samplingRate := t_sampleRate t; audioEncoding := "linear16" |} in
          if useRecorder p then setPhase k AwaitMic w
          else send_start_and_record p k t inputAudioMetadata false w
      | _ => (w, inr tt)
      end
  | _, _ => (w, inr tt)
  end.

(** How [getUserMedia] settles: a stream whose track reports a sample
    rate or none, or a rejection. *)
Inductive MicResult :=
| MicGranted (micSampleRate : option Z)
| MicNotAllowed
| MicFailed (e : Error).

(** The rest of [getMicrophoneStream] and of [startConversation] after
    it.  On a rejection the catch block stops the conversation and the
    function returns [undefined], on which [getAudioTracks] throws. *)
Definition microphone (p : Props) (k : nat) (res : MicResult) : M unit := fun w =>
  match starts w !! k with
  | Some t =>
      match t_phase t with
      | AwaitMic =>
          match res with
          | MicGranted rate =>
              let inputAudioMetadata :=
                {| samplingRate := or_num rate (t_sampleRate t);
                   audioEncoding := "linear16" |} in
              send_start_and_record p k t inputAudioMetadata true w
          | MicNotAllowed =>
              (setPhase k Failed >>
               stopConversation (t_recorder t) (t_socket t)
                 (Some (MkError "Microphone access denied")) >>
               throw TypeError) w
          | MicFailed e =>
              (setPhase k Failed >>
               stopConversation (t_recorder t) (t_socket t) (Some e) >>
               throw TypeError) w
          end
      | _ => (w, inr tt)
      end
  | None => (w, inr tt)
  end.

(** ** Effects *)

#[global] Instance ConversationStatus_eq_dec : EqDecision ConversationStatus.
Proof. solve_decision. Defined.

Definition add_listener (l : Listener) (r : MediaRecorder) : MediaRecorder :=
  if existsb (fun l' => Nat.eqb (fn_id l') (fn_id l)) (listeners r) then r
  else {| rec_state := rec_state r; listeners := (listeners r ++ [l])%list;
          rec_timeSlice := rec_timeSlice r |}.

Definition remove_listener (fn : nat) (r : MediaRecorder) : MediaRecorder :=
  {| rec_state := rec_state r;
     listeners := List.filter (fun l' => negb (Nat.eqb (fn_id l') fn)) (listeners r);
     rec_timeSlice := rec_timeSlice r |}.

(** Lines 79-91.  The effect runs when one of its dependencies changed.
    [recordingDataListener] is a new function object in every render,
    here numbered by the render. *)
Definition listener_effect (w : World) : World :=
  let s := hook w in
  let d : Deps := (recorder s, socket s, status s, active s) in
  if decide (listener_deps w = Some d) then w
  else
    let w := set_listener_deps (Some d) w in
    match recorder s, socket s with
    | Some r, Some k =>
        match status s with
        | st_connected =>
            if active s then
              set_recorders
                (alter (add_listener {| fn_id := renders w; fn_socket := Some k |}) r
                   (recorders w)) w
            else
              set_recorders (alter (remove_listener (renders w)) r (recorders w)) w
        | _ => w
        end
    | _, _ => w
    end.

(** Lines 102-130.  The guard is false right after a run that passed
    it and stays false until a dependency changes, so the effect is run
    at every commit.  [shift] takes the chunk out of the array in
    place. *)
Definition playback_effect (w : World) : World :=
  let s := hook w in
  if negb (processing s) && (0 <? length (queue w))%nat && active s then
    let w := with_hook (set_processing true) w in
    match array_of w (audioQueue s) with
    | audio :: rest =>
        let w := set_arrays (<[audioQueue s := rest]> (arrays w)) w in
        set_playbacks
          (playbacks w ++
             [{| p_audio := audio; p_queue := audioQueue s;
                 p_context := bool_decide (is_Some (audioContext s)) && audioAnalyser s;
                 p_phase := Fetching |}])%list w
    | [] => w
    end
  else w.

Definition set_p_phase (v : PlayPhase) (b : Playback) : Playback :=
  {| p_audio := p_audio b; p_queue := p_queue b; p_context := p_context b; p_phase := v |}.

(** The callback of [decodeAudioData] (lines 106-113). *)
Definition decoded (i : nat) : M unit := fun w =>
  match playbacks w !! i with
  | Some b =>
      match p_phase b with
      | Fetching =>
          if p_context b then
            (setCurrentSpeaker sp_agent >>
             modify (fun w => set_played (played w ++ [p_audio b])%list w) >>
             modify (fun w => set_playbacks (<[i := set_p_phase Playing b]> (playbacks w)) w)) w
          else (w, inr tt)
      | _ => (w, inr tt)
      end
  | None => (w, inr tt)
  end.

(** [source.onended] (lines 114-119): the length it tests is that of
    the array its effect captured. *)
Definition ended (i : nat) : M unit := fun w =>
  match playbacks w !! i with
  | Some b =>
      match p_phase b with
      | Playing =>
          ((if (length (array_of w (p_queue b)) <=? 0)%nat
            then setCurrentSpeaker sp_user else ret tt) >>
           setProcessing false >>
           modify (fun w => set_playbacks (<[i := set_p_phase Finished b]> (playbacks w)) w)) w
      | _ => (w, inr tt)
      end
  | None => (w, inr tt)
  end.

(** ** socket.onmessage, onerror, onclose (lines 324-357) *)

Definition onmessage (m : InMsg) : M unit :=
  match m with
  | in_audio data => setAudioQueue (fun prev => prev ++ [data])%list
  | in_ready => setStatus st_connected
  | in_transcript msg_sender msg_text =>
      setTranscripts (fun prev => update_transcripts prev msg_sender msg_text)
  | in_other => ret tt
  end.

Definition onerror (k : nat) : M unit :=
  modify (fun w =>
    set_starts (alter (set_t_error (Some (MkError "See console for error details"))) k
                  (starts w)) w).

Definition onclose (k : nat) : M unit := fun w =>
  match starts w !! k with
  | Some t => stopConversation (t_recorder t) (t_socket t) (t_error t) w
  | None => (w, inr tt)
  end.

(** ** The event loop *)

Inductive Event :=
| EvMount (rate : Z) (is_suspended : bool)   (* the effect of lines 59-64 *)
| EvStart                                    (* start() of the latest render *)
| EvStop                                     (* stop() of the latest render *)
| EvToggleActive
| EvOpen (k : nat)                           (* socket k is connected *)
| EvSocketError (k : nat)
| EvClose (k : nat)
| EvMessage (k : nat) (m : InMsg)
| EvPoll (k : nat)                           (* the interval of call k fires *)
| EvMicrophone (k : nat) (res : MicResult)   (* getUserMedia of call k settles *)
| EvData (r : nat) (base64 : option string)  (* a captured blob, encoded *)
| EvDecoded (i : nat)
| EvEnded (i : nat).

Definition log_uncaught {A} (r : World * (Error + A)) : World :=
  match r with
  | (w, inl e) => set_uncaught (uncaught w ++ [e])%list w
  | (w, inr _) => w
  end.

(** Every listener of the recorder gets the event; each runs in its
    own promise. *)
Fixpoint fire (ls : list Listener) (base64 : option string) (w : World) : World :=
  match ls with
  | [] => w
  | l :: ls => fire ls base64 (log_uncaught (recordingDataListener (fn_socket l) base64 w))
  end.

Definition dispatch (p : Props) (e : Event) : M unit := fun w =>
  match e with
  | EvMount rate susp =>
      match audioContext (hook w) with
      | None =>
          (with_hook (set_audioAnalyser true)
             (with_hook (set_audioContext (Some {| sampleRate := rate |}))
                (set_suspended susp w)), inr tt)
      | Some _ => (w, inr tt)
      end
  | EvStart => startConversation p (hook w) w
  | EvStop => stopConversation (recorder (hook w)) (socket (hook w)) None w
  | EvToggleActive => setActive (negb (active (hook w))) w
  | EvOpen k =>
      match sockets w !! k with
      | Some CONNECTING => (set_sockets (<[k := OPEN]> (sockets w)) w, inr tt)
      | _ => (w, inr tt)
      end
  | EvSocketError k =>
      match sockets w !! k with
      | Some CLOSED | None => (w, inr tt)
      | Some _ => onerror k w
      end
  | EvClose k =>
      match sockets w !! k with
      | Some CLOSED | None => (w, inr tt)
      | Some _ => onclose k (set_sockets (<[k := CLOSED]> (sockets w)) w)
      end
  | EvMessage k m =>
      match sockets w !! k with
      | Some OPEN | Some CLOSING => onmessage m w
      | _ => (w, inr tt)
      end
  | EvPoll k => poll p k w
  | EvMicrophone k res => microphone p k res w
  | EvData r base64 =>
      match recorders w !! r with
      | Some rc => (fire (listeners rc) base64 w, inr tt)
      | None => (w, inr tt)
      end
  | EvDecoded i => decoded i w
  | EvEnded i => ended i w
  end.

(** A render and its effects. *)
Definition commit (w : World) : World :=
  playback_effect (listener_effect (set_renders (S (renders w)) w)).

Definition step (p : Props) (w : World) (e : Event) : World :=
  commit (log_uncaught (dispatch p e w)).

Definition run (p : Props) (w : World) (evs : list Event) : World :=
  fold_left (step p) evs w.

(** The hook before its first effect, over a store that holds the
    configuration objects. *)
Definition init (h : Heap) : World :=
  {| hook := {| audioContext := None; audioAnalyser := false; audioQueue := 0%nat;
                currentSpeaker := sp_none; processing := false; recorder := None;
                socket := None; status := st_idle; error := None; transcripts := [];
                active := true |};
     heap := h; suspended := false; sockets := []; recorders := []; arrays := [[]];
     starts := []; playbacks := []; listener_deps := None; renders := 0%nat;
     outbound := []; played := []; uncaught := [] |}.

Definition reachable (p : Props) (h : Heap) (w : World) : Prop :=
  exists evs, w = run p (init h) evs.

(** ** Specification-side definitions *)

(** The merge rule of the transcript as the specification words it:
    extend the last entry when the fragment has its sender, append
    otherwise. *)
Definition merge_fragment (entries : list Transcript) (fragment : Transcript)
    : list Transcript :=
  match last entries with
  | Some l =>
      if decide (sender l = sender fragment)
      then (removelast entries ++
              [{| sender := sender fragment;
                  text := text l ++ " " ++ text fragment |}])%list
      else (entries ++ [fragment])%list
  | None => [fragment]
  end.

Definition is_websocket_start (m : OutMsg) : bool :=
  match m with websocket_start _ _ _ _ => true | _ => false end.

Definition is_audio_config_start (m : OutMsg) : bool :=
  match m with websocket_audio_config_start _ _ _ _ => true | _ => false end.

(** The four fields of the full-service configuration. *)
Definition all_four (c : Config) : Prop :=
  is_Some (transcriberConfig c) /\ is_Some (agentConfig c) /\
  is_Some (synthesizerConfig c) /\ is_Some (vocodeConfig c).

(** The start message as it is serialised for [socket.send]. *)
Definition serialized_start (p : Props) (i o : AudioMetadata) (h : Heap) : OutMsg :=
  let r := make_start_message p i o h in stringify (fst r) (snd r).

(** ** Example configurations *)

Definition no_device : AudioDeviceConfig :=
  {| inputDeviceId := None; outputSamplingRate := None |}.

(** A self-hosted configuration: only the endpoint. *)
Definition self_hosted_config : Config :=
  {| transcriberConfig := None; agentConfig := None; synthesizerConfig := None;
     vocodeConfig := None; backendUrl := Some "wss://localhost:3000/conversation";
     chunkSize := None; downsampling := None; conversationId := None;
     subscribeTranscript := None; timeSlice := None; audioDeviceConfig := no_device |}.

(** A hosted configuration whose transcriber is object 0 and whose
    synthesizer is object 1 of [hosted_heap]. *)
Definition hosted_config : Config :=
  {| transcriberConfig := Some 0%nat; agentConfig := Some (VObj 2%nat);
     synthesizerConfig := Some 1%nat;
     vocodeConfig := Some {| apiKey := "key"; baseUrl := None;
                             vocodeConversationId := None |};
     backendUrl := None; chunkSize := None; downsampling := None;
     conversationId := None; subscribeTranscript := None; timeSlice := Some 50;
     audioDeviceConfig := no_device |}.

Definition hosted_heap : Heap :=
  <[0%nat := <["type" := VStr "transcriber_deepgram"]> (<["chunkSize" := VNum 2048]> ∅)]>
    (<[1%nat := <["type" := VStr "synthesizer_azure"]> ∅]> ∅).

Definition listen_only : Props :=
  {| config := self_hosted_config; useRecorder := false; isSafari := false; isChrome := true |}.

Definition hosted_on_safari : Props :=
  {| config := hosted_config; useRecorder := true; isSafari := true; isChrome := false |}.

Definition unsupported_browser : Props :=
  {| config := self_hosted_config; useRecorder := true; isSafari := false; isChrome := false |}.

Definition linear16 (rate : Z) : AudioMetadata :=
  {| samplingRate := rate; audioEncoding := "linear16" |}.

(** What holds of every world when the browser is neither Safari nor
    Chrome: no socket, no suspended call of start(), no recorder, and
    nothing sent or thrown. *)
Definition no_channel (w : World) : Prop :=
  sockets w = [] /\ starts w = [] /\ recorders w = [] /\ outbound w = [] /\
  uncaught w = [] /\ socket (hook w) = None /\ recorder (hook w) = None /\
  audioAnalyser (hook w) = bool_decide (is_Some (audioContext (hook w))).

(** ** The playback queue seen on its own

    The part of a world the playback effect and its callbacks read and
    write, and the same handlers on that part alone.  [view_step]
    is proved below to be what [step] does to the view. *)
Record PlaybackView := {
  v_arrays : list (list Buffer);
  v_queue : nat;
  v_processing : bool;
  v_active : bool;
  v_context : bool;
  v_speaker : CurrentSpeaker;
  v_playbacks : list Playback;
  v_played : list Buffer
}.

Definition view (w : World) : PlaybackView :=
  {| v_arrays := arrays w; v_queue := audioQueue (hook w);
     v_processing := processing (hook w); v_active := active (hook w);
     v_context := bool_decide (is_Some (audioContext (hook w))) && audioAnalyser (hook w);
     v_speaker := currentSpeaker (hook w); v_playbacks := playbacks w;
     v_played := played w |}.

Definition v_array_of (v : PlaybackView) (q : nat) : list Buffer :=
  default [] (v_arrays v !! q).

Definition v_current (v : PlaybackView) : list Buffer := v_array_of v (v_queue v).

Definition view_effect (v : PlaybackView) : PlaybackView :=
  if negb (v_processing v) && (0 <? length (v_current v))%nat && v_active v then
    match v_current v with
    | audio :: rest =>
        {| v_arrays := <[v_queue v := rest]> (v_arrays v); v_queue := v_queue v;
           v_processing := true; v_active := v_active v; v_context := v_context v;
           v_speaker := v_speaker v;
           v_playbacks := (v_playbacks v ++
                             [{| p_audio := audio; p_queue := v_queue v;
                                 p_context := v_context v; p_phase := Fetching |}])%list;
           v_played := v_played v |}
    | [] =>
        {| v_arrays := v_arrays v; v_queue := v_queue v; v_processing := true;
           v_active := v_active v; v_context := v_context v; v_speaker := v_speaker v;
           v_playbacks := v_playbacks v; v_played := v_played v |}
    end
  else v.

Definition view_dispatch (e : Event) (v : PlaybackView) : PlaybackView :=
  match e with
  | EvMessage _ (in_audio data) =>
      {| v_arrays := (v_arrays v ++ [v_current v ++ [data]])%list;
         v_queue := length (v_arrays v);
         v_processing := v_processing v; v_active := v_active v;
         v_context := v_context v; v_speaker := v_speaker v;
         v_playbacks := v_playbacks v; v_played := v_played v |}
  | EvToggleActive =>
      {| v_arrays := v_arrays v; v_queue := v_queue v; v_processing := v_processing v;
         v_active := negb (v_active v); v_context := v_context v;
         v_speaker := v_speaker v; v_playbacks := v_playbacks v;
         v_played := v_played v |}
  | EvDecoded i =>
      match v_playbacks v !! i with
      | Some b =>
          match p_phase b with
          | Fetching =>
              if p_context b then
                {| v_arrays := v_arrays v; v_queue := v_queue v;
                   v_processing := v_processing v; v_active := v_active v;
                   v_context := v_context v; v_speaker := sp_agent;
                   v_playbacks := <[i := set_p_phase Playing b]> (v_playbacks v);
                   v_played := (v_played v ++ [p_audio b])%list |}
              else v
          | _ => v
          end
      | None => v
      end
  | EvEnded i =>
      match v_playbacks v !! i with
      | Some b =>
          match p_phase b with
          | Playing =>
              {| v_arrays := v_arrays v; v_queue := v_queue v;
                 v_processing := false; v_active := v_active v;
                 v_context := v_context v;
                 v_speaker := if (length (v_array_of v (p_queue b)) <=? 0)%nat
                              then sp_user else v_speaker v;
                 v_playbacks := <[i := set_p_phase Finished b]> (v_playbacks v);
                 v_played := v_played v |}
          | _ => v
          end
      | None => v
      end
  | _ => v
  end.

Definition view_step (v : PlaybackView) (e : Event) : PlaybackView :=
  view_effect (view_dispatch e v).

(** The events of the playback queue while socket [k] delivers the
    audio. *)
Definition playback_event (k : nat) (e : Event) : Prop :=
  match e with
  | EvMessage k' (in_audio _) => k' = k
  | EvToggleActive | EvDecoded _ | EvEnded _ => True
  | _ => False
  end.

(** Chunks arriving on socket [k], and the decode and end callbacks of
    [n] successive playbacks from number [i] on. *)
Definition arrivals (k : nat) (chunks : list Buffer) : list Event :=
  map (fun d => EvMessage k (in_audio d)) chunks.

Fixpoint drain_events (i n : nat) : list Event :=
  match n with
  | O => []
  | S n => EvDecoded i :: EvEnded i :: drain_events (S i) n
  end.

(** A playback whose effect saw the audio context, in a given phase. *)
Definition in_flight (c : Buffer) (q : nat) (ph : PlayPhase) : Playback :=
  {| p_audio := c; p_queue := q; p_context := true; p_phase := ph |}.

(** A world with playback disabled and an open socket: the listen-only
    session after its handshake, toggled off. *)
Definition paused_world : World :=
  run listen_only (init ∅)
    [EvMount 48000 false; EvStart; EvOpen 0%nat; EvPoll 0%nat; EvToggleActive].

(** The shape the playbacks keep: finished ones, then at most one in
    flight, which is there exactly when [processing] is set; the log of
    played chunks follows the playbacks that have started. *)
Definition view_inv (v : PlaybackView) : Prop :=
  exists fin,
    Forall (fun b => p_phase b = Finished) fin /\
    ((v_processing v = false /\ v_playbacks v = fin /\ v_played v = p_audio <$> fin) \/
     (v_processing v = true /\
      exists b, v_playbacks v = (fin ++ [b])%list /\
        ((p_phase b = Fetching /\ v_played v = p_audio <$> fin) \/
         (p_phase b = Playing /\ v_played v = p_audio <$> (fin ++ [b])%list)))).

(** The chunks of the audio frames among some events, in order. *)
Definition arrived (evs : list Event) : list Buffer :=
  flat_map (fun e => match e with EvMessage _ (in_audio d) => [d] | _ => [] end) evs.
Definition unfinished (b : Playback) : bool :=
  match p_phase b with Finished => false | _ => true end.

Definition is_playing (b : Playback) : bool :=
  match p_phase b with Playing => true | _ => false end.
(** The chunks taken off the queue so far, followed by those still
    in it. *)
Definition backlog (v : PlaybackView) : list Buffer :=
  ((p_audio <$> v_playbacks v) ++ v_current v)%list.

(** A configuration with neither an endpoint nor a platform descriptor. *)
Definition invalid_config : Config :=
  {| transcriberConfig := None; agentConfig := None; synthesizerConfig := None;
     vocodeConfig := None; backendUrl := None; chunkSize := None; downsampling := None;
     conversationId := None; subscribeTranscript := None; timeSlice := None;
     audioDeviceConfig := no_device |}.

Definition invalid_on_chrome : Props :=
  {| config := invalid_config; useRecorder := true; isSafari := false; isChrome := true |}.

(** No two neighbouring entries have the same sender. *)
Fixpoint alternating (l : list Transcript) : Prop :=
  match l with
  | a :: (b :: _) as tl => sender a <> sender b /\ alternating tl
  | _ => True
  end.

(** The transcript read as one text. *)
Definition transcript_text (l : list Transcript) : string :=
  String.concat " " (text <$> l).

(** What the closures of the suspended calls of start() captured. *)
Definition closures (w : World) : list (option nat * option nat) :=
  (fun t => (t_recorder t, t_socket t)) <$> starts w.

(** ** The handshake seen on its own

    What the start handshake depends on: the sockets, where each call
    of start() is suspended, the frames sent and how many recorders
    exist; and the moves the handlers make on that part. *)
Record Proto := {
  pr_sockets : list ReadyState;
  pr_phases : list StartPhase;
  pr_out : list (nat * OutMsg);
  pr_recorders : nat
}.

Definition proto (w : World) : Proto :=
  {| pr_sockets := sockets w; pr_phases := t_phase <$> starts w;
     pr_out := outbound w; pr_recorders := length (recorders w) |}.

(** A socket only moves forward: connecting, open, closing, closed. *)
Definition rank (rs : ReadyState) : nat :=
  match rs with CONNECTING => 0 | OPEN => 1 | CLOSING => 2 | CLOSED => 3 end.

Inductive pstep : Proto -> Proto -> Prop :=
| ps_socket a k rs rs' :
    pr_sockets a !! k = Some rs -> (rank rs <= rank rs')%nat ->
    pstep a {| pr_sockets := <[k := rs']> (pr_sockets a); pr_phases := pr_phases a;
               pr_out := pr_out a; pr_recorders := pr_recorders a |}
| ps_send a k m :
    pr_sockets a !! k = Some OPEN -> is_start_variant m = false ->
    (0 < pr_recorders a)%nat ->
    pstep a {| pr_sockets := pr_sockets a; pr_phases := pr_phases a;
               pr_out := (pr_out a ++ [(k, m)])%list; pr_recorders := pr_recorders a |}
| ps_new a :
    pstep a {| pr_sockets := (pr_sockets a ++ [CONNECTING])%list;
               pr_phases := (pr_phases a ++ [AwaitOpen])%list;
               pr_out := pr_out a; pr_recorders := pr_recorders a |}
| ps_mic a k :
    pr_phases a !! k = Some AwaitOpen -> pr_sockets a !! k = Some OPEN ->
    pstep a {| pr_sockets := pr_sockets a; pr_phases := <[k := AwaitMic]> (pr_phases a);
               pr_out := pr_out a; pr_recorders := pr_recorders a |}
| ps_fail a k :
    pr_phases a !! k = Some AwaitMic ->
    pstep a {| pr_sockets := pr_sockets a; pr_phases := <[k := Failed]> (pr_phases a);
               pr_out := pr_out a; pr_recorders := pr_recorders a |}
| ps_start a k ph rs m :
    pr_phases a !! k = Some ph -> ph = AwaitOpen \/ ph = AwaitMic ->
    pr_sockets a !! k = Some rs -> rs <> CONNECTING -> is_start_variant m = true ->
    pstep a {| pr_sockets := pr_sockets a; pr_phases := <[k := Sent]> (pr_phases a);
               pr_out := match rs with
                         | OPEN => (pr_out a ++ [(k, m)])%list
                         | _ => pr_out a
                         end;
               pr_recorders := pr_recorders a |}
| ps_recorder a k :
    pr_phases a !! k = Some Sent ->
    pstep a {| pr_sockets := pr_sockets a; pr_phases := pr_phases a;
               pr_out := pr_out a; pr_recorders := S (pr_recorders a) |}.

(** The start-variant frames sent on socket [k]. *)
Definition starts_on (k : nat) (out : list (nat * OutMsg)) : list (nat * OutMsg) :=
  List.filter (fun f => Nat.eqb (fst f) k && is_start_variant (snd f)) out.

Definition first_is_start (out : list (nat * OutMsg)) : Prop :=
  match out with
  | [] => True
  | f :: _ => is_start_variant (snd f) = true
  end.

Definition proto_inv (a : Proto) : Prop :=
  length (pr_phases a) = length (pr_sockets a) /\
  (forall k, (length (starts_on k (pr_out a)) <=
              match pr_phases a !! k with Some Sent => 1 | _ => 0 end)%nat) /\
  (forall k m, (k, m) ∈ pr_out a ->
               exists rs, pr_sockets a !! k = Some rs /\ rs <> CONNECTING) /\
  ((0 < pr_recorders a)%nat -> exists k, pr_phases a !! k = Some Sent) /\
  (forall k, pr_phases a !! k = Some Sent ->
             (exists m, (k, m) ∈ pr_out a /\ is_start_variant m = true) \/
             (exists rs, pr_sockets a !! k = Some rs /\ (2 <= rank rs)%nat)) /\
  ((length (pr_sockets a) <= 1)%nat -> first_is_start (pr_out a)).

(** ** The listeners of a recorder

    The frames that one [dataavailable] event with the non-empty
    encoding [data] makes the listeners [ls] send, given the states of
    the sockets. *)
Definition audio_frames (socks : list ReadyState) (data : string) (ls : list Listener)
    : list (nat * OutMsg) :=
  omap (fun l =>
          match fn_socket l with
          | Some k =>
              match socks !! k with
              | Some OPEN => Some (k, websocket_audio data)
              | _ => None
              end
          | None => None
          end) ls.

(** Every registered listener is the function object of a render that
    has taken place. *)
Definition listeners_inv (w : World) : Prop :=
  Forall (Forall (fun l => (fn_id l <= renders w)%nat)) (listeners <$> recorders w).

Definition with_listener (l : Listener) (rc : MediaRecorder) : MediaRecorder :=
  {| rec_state := rec_state rc; listeners := (listeners rc ++ [l])%list;
     rec_timeSlice := rec_timeSlice rc |}.

Definition deps_of (s : HookState) : Deps := (recorder s, socket s, status s, active s).

(** ** The configuration objects after getStartMessage

    The property [key] of the object a metadata was assigned to, and of
    the transcriber object after the Safari assignment. *)
Definition assigned (m : AudioMetadata) (old : option JsVal) (key : string) : option JsVal :=
  if String.eqb key "samplingRate" then Some (VNum (samplingRate m))
  else if String.eqb key "audioEncoding" then Some (VStr (audioEncoding m))
  else old.

Definition downsampled (c : bool) (old : option JsVal) (key : string) : option JsVal :=
  if c && String.eqb key "downsampling" then Some (VNum 2) else old.

(* ===================================================================== *)
(** * Properties *)
(* ===================================================================== *)

Ltac monad :=
  unfold bind, ret, throw, modify, gets, setStatus, setError, setCurrentSpeaker,
    setProcessing, setSocket, setRecorder, setActive, setAudioQueue, setTranscripts.

(** ** Transcripts *)

Lemma pop_snoc {A} (l : list A) (x : A) : pop (l ++ [x])%list = (Some x, l).
Proof.
  unfold pop. rewrite rev_unit. simpl. now rewrite rev_involutive.
Qed.

Lemma update_transcripts_nil s t :
  update_transcripts [] s t = [{| sender := s; text := t |}].
Proof. reflexivity. Qed.

Lemma update_transcripts_snoc entries l s t :
  update_transcripts (entries ++ [l])%list s t =
  if decide (sender l = s)
  then (entries ++ [{| sender := s; text := text l ++ " " ++ t |}])%list
  else (entries ++ [l; {| sender := s; text := t |}])%list.
Proof.
  unfold update_transcripts. rewrite pop_snoc. unfold push.
  destruct (String.eqb_spec (sender l) s) as [E | E];
    destruct (decide (sender l = s)); try congruence.
  now rewrite <- app_assoc.
Qed.

Lemma update_transcripts_refines entries s t :
  update_transcripts entries s t = merge_fragment entries {| sender := s; text := t |}.
Proof.
  destruct entries as [| e entries] using rev_ind.
  - reflexivity.
  - rewrite update_transcripts_snoc. unfold merge_fragment.
    rewrite last_snoc, removelast_last. simpl.
    destruct (decide (sender e = s)); [reflexivity |].
    now rewrite <- app_assoc.
Qed.

(** C2. A fragment whose sender is that of the last entry replaces that
    entry's text by the old text, a space and the fragment's text; any
    other fragment (empty transcript or another sender) is appended as
    a new entry.  The handler computes the merge rule of the
    specification on every transcript, and the three fragments
    (user,hi), (user,there), (agent,hello) delivered to [onmessage]
    from the empty transcript leave exactly the two entries
    (user,"hi there"), (agent,"hello"). *)
Theorem C2_transcript_merge :
  (forall entries s t,
      update_transcripts entries s t =
      merge_fragment entries {| sender := s; text := t |}) /\
  (forall s t, update_transcripts [] s t = [{| sender := s; text := t |}]) /\
  (forall entries l s t,
      update_transcripts (entries ++ [l])%list s t =
      if decide (sender l = s)
      then (entries ++ [{| sender := s; text := text l ++ " " ++ t |}])%list
      else (entries ++ [l; {| sender := s; text := t |}])%list) /\
  (let w := fold_left (fun w m => fst (onmessage m w))
              [in_transcript "user" "hi"; in_transcript "user" "there";
               in_transcript "agent" "hello"] (init ∅) in
   transcripts (hook w) =
     [{| sender := "user"; text := "hi there" |};
      {| sender := "agent"; text := "hello" |}] /\
   length (transcripts (hook w)) = 2%nat).
Proof.
  split; [exact update_transcripts_refines |].
  split; [exact update_transcripts_nil |].
  split; [exact update_transcripts_snoc |].
  split; reflexivity.
Qed.

(** ** The start message *)

Lemma full_service_keys_spec c :
  forallb (fun key => key_in key c) full_service_keys = true <-> all_four c.
Proof.
  unfold full_service_keys, all_four, key_in. cbn.
  rewrite !andb_true_iff, !bool_decide_eq_true. tauto.
Qed.

Lemma make_start_message_full p i o h t a s v :
  transcriberConfig (config p) = Some t ->
  agentConfig (config p) = Some a ->
  synthesizerConfig (config p) = Some s ->
  vocodeConfig (config p) = Some v ->
  make_start_message p i o h = getStartMessage (isSafari p) t a s v i o h.
Proof.
  intros Ht Ha Hs Hv. unfold make_start_message.
  assert (forallb (fun key => key_in key (config p)) full_service_keys = true) as ->.
  { apply full_service_keys_spec. unfold all_four. rewrite Ht, Ha, Hs, Hv. eauto. }
  now rewrite Ht, Ha, Hs, Hv.
Qed.

Lemma make_start_message_self_hosted p i o h :
  ~ all_four (config p) ->
  make_start_message p i o h =
  (h, getAudioConfigStartMessage i o (chunkSize (config p)) (downsampling (config p))
        (conversationId (config p)) (subscribeTranscript (config p))).
Proof.
  intros Hn. unfold make_start_message.
  destruct (forallb _ _) eqn:E; [| reflexivity].
  apply full_service_keys_spec in E. contradiction.
Qed.

Lemma all_four_dec c : {all_four c} + {~ all_four c}.
Proof.
  destruct (forallb (fun key => key_in key c) full_service_keys) eqn:E.
  - left. now apply full_service_keys_spec.
  - right. intros H. apply full_service_keys_spec in H. congruence.
Qed.

(** C3. The serialised start message is [websocket_start] exactly when
    the transcriber, agent, synthesizer and vocode configurations are
    all present, and it is [websocket_audio_config_start] in every
    other case. *)
Theorem C3_variant_selection (p : Props) (i o : AudioMetadata) (h : Heap) :
  (is_websocket_start (serialized_start p i o h) = true <-> all_four (config p)) /\
  (is_audio_config_start (serialized_start p i o h) = true <-> ~ all_four (config p)).
Proof.
  unfold serialized_start.
  destruct (all_four_dec (config p)) as [Hall | Hn].
  - destruct Hall as ([t Ht] & [a Ha] & [s Hs] & [v Hv]).
    rewrite (make_start_message_full p i o h t a s v Ht Ha Hs Hv).
    assert (all_four (config p)) as Hall.
    { unfold all_four. rewrite Ht, Ha, Hs, Hv. eauto. }
    unfold getStartMessage, Object_assign. simpl.
    split; split; intros; try done.
  - rewrite (make_start_message_self_hosted p i o h Hn). simpl.
    split; split; intros; try done.
Qed.

Lemma deref_insert h l (ob : Obj) : deref (<[l := ob]> h) l = ob.
Proof. unfold deref. now rewrite lookup_insert_eq. Qed.

Lemma deref_insert_ne h l l' (ob : Obj) : l <> l' -> deref (<[l := ob]> h) l' = deref h l'.
Proof. intros. unfold deref. now rewrite lookup_insert_ne. Qed.

Lemma metadata_obj_other m key :
  key <> "samplingRate" -> key <> "audioEncoding" -> metadata_obj m !! key = None.
Proof.
  intros H1 H2. unfold metadata_obj.
  rewrite !lookup_insert_ne by congruence. apply lookup_empty.
Qed.

Lemma assign_other m (ob : Obj) key :
  key <> "samplingRate" -> key <> "audioEncoding" ->
  (metadata_obj m ∪ ob) !! key = ob !! key.
Proof.
  intros H1 H2. apply lookup_union_r. now apply metadata_obj_other.
Qed.

Lemma assign_samplingRate m (ob : Obj) :
  (metadata_obj m ∪ ob) !! "samplingRate" = Some (VNum (samplingRate m)).
Proof.
  apply lookup_union_Some_l. unfold metadata_obj. apply lookup_insert_eq.
Qed.

Lemma is_deepgram_assign m (ob : Obj) :
  is_deepgram (metadata_obj m ∪ ob) = is_deepgram ob.
Proof.
  unfold is_deepgram, get_field. now rewrite assign_other.
Qed.

(** The transcriber object once [getStartMessage] has returned: the
    message refers to the configuration objects themselves, and a
    property other than the two of the metadata was written at most by
    the Safari assignment. *)
Lemma getStartMessage_transcriber safari t a s v i o h key :
  key <> "samplingRate" -> key <> "audioEncoding" ->
  let r := getStartMessage safari t a s v i o h in
  snd r = StartMsg t a s (vocodeConversationId v) /\
  deref (fst r) t !! key =
    if safari && is_deepgram (deref h t) && String.eqb key "downsampling"
    then Some (VNum 2) else deref h t !! key.
Proof.
  intros K1 K2. unfold getStartMessage, Object_assign, set_field. simpl.
  rewrite deref_insert, is_deepgram_assign.
  split.
  { destruct (safari && is_deepgram (deref h t)); reflexivity. }
  set (h2 := if safari && is_deepgram (deref h t) then _ else _).
  assert (deref h2 t !! key =
          if safari && is_deepgram (deref h t) && String.eqb key "downsampling"
          then Some (VNum 2) else deref h t !! key) as E.
  { subst h2. destruct (safari && is_deepgram (deref h t)); simpl.
    - rewrite !deref_insert.
      destruct (String.eqb_spec key "downsampling") as [-> | Hk].
      + apply lookup_insert_eq.
      + rewrite lookup_insert_ne by congruence. now apply assign_other.
    - rewrite deref_insert. now apply assign_other. }
  destruct (decide (s = t)) as [-> | Hst].
  - rewrite !deref_insert, !assign_other by assumption. exact E.
  - rewrite deref_insert_ne, deref_insert, assign_other by assumption. exact E.
Qed.

(** C6. On Safari with a transcriber of type [transcriber_deepgram]
    the transcriber configuration of the serialised [websocket_start]
    has [downsampling] equal to 2; with any other probe or transcriber
    type it has the value the configuration object had, or none if it
    had none. *)
Theorem C6_safari_downsampling (p : Props) (i o : AudioMetadata) (h : Heap)
    (t : loc) (a : JsVal) (s : loc) (v : VocodeConfig) :
  transcriberConfig (config p) = Some t ->
  agentConfig (config p) = Some a ->
  synthesizerConfig (config p) = Some s ->
  vocodeConfig (config p) = Some v ->
  exists tobj sobj,
    serialized_start p i o h = websocket_start tobj a sobj (vocodeConversationId v) /\
    tobj !! "downsampling" =
      if isSafari p && is_deepgram (deref h t)
      then Some (VNum 2) else deref h t !! "downsampling".
Proof.
  intros Ht Ha Hs Hv. unfold serialized_start.
  rewrite (make_start_message_full p i o h t a s v Ht Ha Hs Hv).
  destruct (getStartMessage_transcriber (isSafari p) t a s v i o h "downsampling")
    as [Hm Hd]; [discriminate | discriminate |].
  destruct (getStartMessage _ _ _ _ _ _ _ _) as [h' m]. simpl in Hm, Hd. subst m.
  simpl. eexists _, _. split; [reflexivity |].
  rewrite Hd. now rewrite andb_true_r.
Qed.

(** ** The time slice *)

Lemma C6_witness :
  exists tobj sobj,
    serialized_start hosted_on_safari (linear16 48000) (linear16 48000) hosted_heap =
      websocket_start tobj (VObj 2%nat) sobj None /\
    tobj !! "downsampling" = Some (VNum 2).
Proof.
  apply (C6_safari_downsampling hosted_on_safari (linear16 48000) (linear16 48000)
           hosted_heap 0%nat (VObj 2%nat) 1%nat
           {| apiKey := "key"; baseUrl := None; vocodeConversationId := None |});
    reflexivity.
Defined.

(** ** Numbers *)

Lemma nearest_even_spec n d :
  0 < d -> - d <= 2 * (nearest_even n d * d - n) <= d.
Proof.
  intros Hd. unfold nearest_even.
  pose proof (Z.div_mod n d ltac:(lia)) as E.
  pose proof (Z.mod_pos_bound n d Hd) as B.
  destruct (Z.compare_spec (2 * (n mod d)) d); [destruct (Z.even (n / d)) | |]; nia.
Qed.

Lemma nearest_even_exact k d : 0 < d -> nearest_even (k * d) d = k.
Proof.
  intros Hd. unfold nearest_even.
  rewrite Z.mod_mul, Z.div_mul by lia.
  destruct (Z.compare_spec (2 * 0) d); lia.
Qed.

Lemma nearest_even_1 k : nearest_even k 1 = k.
Proof. pose proof (nearest_even_exact k 1 ltac:(lia)) as H. now rewrite Z.mul_1_r in H. Qed.

Lemma log2_ratio_spec n d :
  0 < n -> 0 < d ->
  let e := log2_ratio n d in
  (0 <= e -> d * 2 ^ e <= n < 2 * (d * 2 ^ e)) /\
  (e < 0 -> d <= n * 2 ^ (- e) < 2 * d).
Proof.
  intros Hn Hd. cbv zeta. unfold log2_ratio.
  pose proof (Z.log2_spec n Hn) as [Ln Un].
  pose proof (Z.log2_spec d Hd) as [Ld Ud].
  pose proof (Z.log2_nonneg n) as Nn. pose proof (Z.log2_nonneg d) as Nd.
  rewrite Z.pow_succ_r in Un, Ud by assumption.
  set (a := Z.log2 n) in *. set (b := Z.log2 d) in *.
  assert (forall x, 0 <= x -> 2 ^ (x + 1) = 2 * 2 ^ x) as Hs
    by (intros x Hx; rewrite Z.pow_add_r by lia; lia).
  assert (forall x, 0 <= x -> 0 < 2 ^ x) as Hp by (intros; apply Z.pow_pos_nonneg; lia).
  destruct (Z.leb_spec 0 (a - b)) as [He | He].
  - assert (2 ^ a = 2 ^ b * 2 ^ (a - b)) as Hab
      by (rewrite <- Z.pow_add_r by lia; f_equal; lia).
    pose proof (Hp (a - b) He) as Pe. pose proof (Hp b Nd) as Pb.
    destruct (Z.leb_spec (d * 2 ^ (a - b)) n) as [Ht | Ht].
    + split; [intros _ | lia]. nia.
    + destruct (Z.eq_dec (a - b) 0) as [E0 | E0].
      * split; [lia | intros _].
        replace (- (a - b - 1)) with 1 by lia. rewrite E0 in *. simpl in *. nia.
      * split; [intros _ | lia].
        assert (2 ^ (a - b) = 2 * 2 ^ (a - b - 1)) as Hh
          by (rewrite <- (Hs (a - b - 1)) by lia; f_equal; lia).
        pose proof (Hp (a - b - 1) ltac:(lia)) as Ph. nia.
  - assert (2 ^ b = 2 ^ a * 2 ^ (- (a - b))) as Hab
      by (rewrite <- Z.pow_add_r by lia; f_equal; lia).
    pose proof (Hp (- (a - b)) ltac:(lia)) as Pe. pose proof (Hp a Nn) as Pa.
    destruct (Z.leb_spec d (n * 2 ^ (- (a - b)))) as [Ht | Ht].
    + split; [lia | intros _]. nia.
    + split; [lia | intros _].
      replace (- (a - b - 1)) with (- (a - b) + 1) by lia.
      rewrite Hs by lia. nia.
Qed.

Lemma Qred_inject_Z a : Qred (inject_Z a) = inject_Z a.
Proof.
  unfold Qred, inject_Z.
  pose proof (Z.ggcd_gcd a 1) as G. pose proof (Z.ggcd_correct_divisors a 1) as D.
  destruct (Z.ggcd a 1) as [g [aa bb]]. simpl in *.
  rewrite Z.gcd_1_r in G. subst g. destruct D as [Da Db].
  rewrite Z.mul_1_l in Da, Db. rewrite <- Da, <- Db. reflexivity.
Qed.

(** An integer below 2^53 is a double. *)
Lemma F64_int s a : 0 <= a < 2 ^ 53 -> F64 s (inject_Z a) = NFin s (inject_Z a).
Proof.
  intros [Ha Hb]. unfold F64. cbn [Qnum Qden inject_Z].
  destruct (Z.eqb_spec a 0) as [-> | Hne]; [reflexivity |].
  assert (0 < a) as Hpos by lia.
  destruct (log2_ratio_spec a 1 Hpos ltac:(lia)) as [S1 S2].
  set (el := log2_ratio a 1) in *.
  assert (forall x, 0 <= x -> 0 < 2 ^ x) as Hp by (intros; apply Z.pow_pos_nonneg; lia).
  assert (0 <= el) as Hel.
  { destruct (Z.lt_ge_cases el 0) as [Hneg | ?]; [| assumption].
    specialize (S2 Hneg).
    assert (2 ^ 1 <= 2 ^ (- el)) by (apply Z.pow_le_mono_r; lia). nia. }
  specialize (S1 Hel).
  assert (el <= 52) as Hle.
  { destruct (Z.le_gt_cases el 52) as [? | Hgt]; [assumption |].
    assert (2 ^ 53 <= 2 ^ el) by (apply Z.pow_le_mono_r; lia). lia. }
  rewrite Z.max_l by lia.
  destruct (Z.leb_spec 0 (el - 52)) as [H0 | H0].
  - assert (el = 52) as -> by lia. simpl (52 - 52). rewrite Z.pow_0_r, !Z.mul_1_r.
    rewrite nearest_even_1.
    destruct (Z.leb_spec (2 ^ 1024) a) as [Hov | _]; [| reflexivity].
    assert (2 ^ 53 <= 2 ^ 1024) by (apply Z.pow_le_mono_r; lia). lia.
  - rewrite nearest_even_1. f_equal.
    rewrite <- (Qred_inject_Z a). apply Qred_complete.
    pose proof (Hp (- (el - 52)) ltac:(lia)) as Pp.
    unfold Qeq, inject_Z. cbn [Qnum Qden]. rewrite Z2Pos.id by assumption. lia.
Qed.

(** The heart of the matter, on integers: rounding [a / r] to the
    multiples of [1 / P], then to the nearest integer, gives the
    integer nearest to [a / r], as long as [r < P]. *)
Lemma double_rounding a r P2 m n :
  0 < r -> r < 2 * P2 ->
  - r <= 2 * (m * r - a * (2 * P2)) <= r ->
  (2 * n - 1) * r <= 2 * a < (2 * n + 1) * r ->
  2 * (2 * P2) * n <= 2 * m + 2 * P2 < 2 * (2 * P2) * (n + 1).
Proof.
  intros Hr HP [Hm1 Hm2] [Hn1 Hn2].
  assert (2 * a <= (2 * n + 1) * r - 1) as Hn2' by lia.
  split.
  - assert (0 <= r * (2 * m - 2 * (2 * n - 1) * P2 + 1)) as H by nia.
    assert (0 <= 2 * m - 2 * (2 * n - 1) * P2 + 1) as H' by nia.
    lia.
  - assert (r * (2 * m - (2 * n + 1) * (2 * P2)) < 0) as H by nia.
    assert (2 * m - (2 * n + 1) * (2 * P2) < 0) as H' by nia.
    lia.
Qed.

Lemma of_Z_small a : 0 <= a < 2 ^ 53 -> of_Z a = NFin false (inject_Z a).
Proof.
  intros Ha. unfold of_Z.
  rewrite (proj2 (Z.ltb_ge a 0)) by lia. rewrite Z.abs_eq by lia. now apply F64_int.
Qed.

(** In the range of chunk sizes and sampling rates that occur,
    [Math.round((1000 * c) / r)] in doubles is the integer nearest to
    the exact quotient, ties upwards. *)
Lemma round_ratio_nearest c r :
  0 <= c -> 1000 * c < 2 ^ 52 -> 0 < r < 2 ^ 53 ->
  round_ratio (VNum c) (VNum r) = VNum ((2000 * c + r) / (2 * r)).
Proof.
  intros Hc Hc52 [Hr Hr53].
  assert (2 ^ 52 < 2 ^ 53) as H5253 by (apply Z.pow_lt_mono_r; lia).
  unfold round_ratio, ToNumber.
  rewrite (of_Z_small 1000) by (split; [lia | reflexivity]).
  rewrite (of_Z_small c), (of_Z_small r) by lia.
  cbn [Nmul xorb].
  assert (inject_Z 1000 * inject_Z c = inject_Z (1000 * c))%Q as -> by reflexivity.
  rewrite F64_int by lia. cbn [Ndiv xorb]. unfold is_zero. cbn [Qnum inject_Z].
  destruct (Z.eqb_spec r 0) as [? | _]; [lia |].
  set (a := 1000 * c) in *.
  destruct r as [| p |]; try lia.
  assert (inject_Z a / inject_Z (Z.pos p) = (a * 1) # p)%Q as -> by reflexivity.
  rewrite Z.mul_1_r.
  set (n := (2000 * c + Z.pos p) / (2 * Z.pos p)).
  assert ((2 * n - 1) * Z.pos p <= 2 * a < (2 * n + 1) * Z.pos p) as Hn.
  { pose proof (Z.div_mod (2000 * c + Z.pos p) (2 * Z.pos p) ltac:(lia)) as E.
    pose proof (Z.mod_pos_bound (2000 * c + Z.pos p) (2 * Z.pos p) ltac:(lia)) as B.
    fold n in E. subst a. lia. }
  unfold F64. cbn [Qnum Qden].
  destruct (Z.eqb_spec a 0) as [Ha0 | Ha0].
  { cbn [Math_round]. f_equal. assert (n = 0) as -> by nia. reflexivity. }
  assert (0 < a) as Ha by lia.
  destruct (log2_ratio_spec a (Z.pos p) Ha Hr) as [S1 S2].
  set (el := log2_ratio a (Z.pos p)) in *.
  assert (forall x, 0 <= x -> 0 < 2 ^ x) as Hp by (intros; apply Z.pow_pos_nonneg; lia).
  assert (el <= 51) as Hhi.
  { destruct (Z.le_gt_cases el 51) as [? | Hgt]; [assumption |].
    specialize (S1 ltac:(lia)).
    assert (2 ^ 52 <= 2 ^ el) by (apply Z.pow_le_mono_r; lia). nia. }
  assert (-53 <= el) as Hlo.
  { destruct (Z.le_gt_cases (-53) el) as [? | Hlt]; [assumption |].
    specialize (S2 ltac:(lia)).
    assert (2 ^ 54 <= 2 ^ (- el)) by (apply Z.pow_le_mono_r; lia).
    assert (2 ^ 54 = 2 * 2 ^ 53) by reflexivity. nia. }
  rewrite Z.max_l by lia.
  destruct (Z.leb_spec 0 (el - 52)) as [? | _]; [lia |].
  replace (- (el - 52)) with (52 - el) by lia.
  assert (2 ^ (52 - el) = 2 * 2 ^ (51 - el)) as HP.
  { replace (52 - el) with (Z.succ (51 - el)) by lia. apply Z.pow_succ_r. lia. }
  pose proof (Hp (51 - el) ltac:(lia)) as HP2.
  set (P2 := 2 ^ (51 - el)) in *.
  assert (Z.pos p < 2 * P2) as HrP.
  { destruct (Z.lt_ge_cases el 0) as [Hneg | Hpos].
    - specialize (S2 Hneg).
      assert (2 ^ 52 * 2 ^ (- el) = 2 * P2) as E
        by (rewrite <- HP, <- Z.pow_add_r by lia; f_equal; lia).
      pose proof (Hp (- el) ltac:(lia)). nia.
    - specialize (S1 Hpos).
      assert (2 * P2 * 2 ^ el = 2 ^ 52) as E
        by (rewrite <- HP, <- Z.pow_add_r by lia; f_equal; lia).
      pose proof (Hp el Hpos). nia. }
  rewrite HP.
  pose proof (nearest_even_spec (a * (2 * P2)) (Z.pos p) Hr) as Hm.
  set (m := nearest_even (a * (2 * P2)) (Z.pos p)) in *.
  destruct (double_rounding a (Z.pos p) P2 m n Hr HrP Hm Hn) as [G1 G2].
  cbn [Math_round]. f_equal.
  rewrite (Qfloor_comp _ ((m # Z.to_pos (2 * P2)) + (1 # 2))%Q)
    by (now rewrite Qred_correct).
  unfold Qplus, Qfloor. cbn [Qnum Qden].
  rewrite Pos2Z.inj_mul, Z2Pos.id by lia.
  symmetry. apply (Z.div_unique _ _ _ (m * 2 + 1 * (2 * P2) - 2 * P2 * 2 * n)); lia.
Qed.

(** Outside that range the arithmetic of doubles decides: a
    quotient that is not the nearest integer, an infinite or an
    undefined operand, a division by zero, a chunk size given as a
    string. *)
Lemma round_ratio_in_doubles :
  round_ratio (VNum (2 ^ 53 - 1)) (VNum 3) = VNum 3002399751580330496 /\
  2000 * (2 ^ 53 - 1) < (2 * 3002399751580330496 - 1) * 3 /\
  round_ratio (VInf false) (VNum 3) = VInf false /\
  round_ratio (VNum 1) (VNum 0) = VInf false /\
  round_ratio (VNum 0) (VNum 0) = VNaN /\
  round_ratio VUndef (VNum 44100) = VNaN /\
  round_ratio (VStr "2048") (VNum 44100) = VNum 46.
Proof. repeat split; vm_compute; reflexivity. Qed.

Lemma compute_timeSlice_full h t a s c cfg :
  compute_timeSlice h (StartMsg t a s c) cfg =
  round_ratio (get_field (deref h t) "chunkSize") (get_field (deref h t) "samplingRate").
Proof. reflexivity. Qed.

(** C7. With the full-service start message the time slice is
    [Math.round((1000 * chunkSize) / samplingRate)] of the chunk size
    and sampling rate that message carries, whatever [timeSlice] the
    configuration has; otherwise it is the configuration's [timeSlice]
    when it has one, and 10 when it has none.  The quotient is taken in
    doubles: for a chunk size from 0 on with 1000 times it below 2^52
    and a rate from 1 to below 2^53 the result is the integer nearest
    to the exact quotient, ties upwards.  When the transcriber and
    synthesizer are separate objects the rate is the sampling rate of
    the input audio metadata and the chunk size is the configured
    one. *)
Theorem C7_time_slice (p : Props) (i o : AudioMetadata) (h : Heap) :
  let r := make_start_message p i o h in
  (compute_timeSlice (fst r) (snd r) (config p) =
     match serialized_start p i o h with
     | websocket_start tobj _ _ _ =>
         round_ratio (get_field tobj "chunkSize") (get_field tobj "samplingRate")
     | _ =>
         match timeSlice (config p) with
         | Some n => VNum n
         | None => VNum 10
         end
     end) /\
  (forall c rate, 0 <= c -> 1000 * c < 2 ^ 52 -> 0 < rate < 2 ^ 53 ->
     exists n, round_ratio (VNum c) (VNum rate) = VNum n /\
               (2 * n - 1) * rate <= 2000 * c < (2 * n + 1) * rate) /\
  (forall t s, all_four (config p) ->
     transcriberConfig (config p) = Some t ->
     synthesizerConfig (config p) = Some s -> t <> s ->
     exists tobj a sobj c,
       serialized_start p i o h = websocket_start tobj a sobj c /\
       get_field tobj "samplingRate" = VNum (samplingRate i) /\
       get_field tobj "chunkSize" = get_field (deref h t) "chunkSize").
Proof.
  split; [| split].
  - unfold serialized_start.
    destruct (all_four_dec (config p)) as [([t Ht] & [a Ha] & [s Hs] & [v Hv]) | Hn].
    + rewrite (make_start_message_full p i o h t a s v Ht Ha Hs Hv).
      unfold getStartMessage, Object_assign. simpl. reflexivity.
    + rewrite (make_start_message_self_hosted p i o h Hn). simpl.
      unfold key_in. cbn. destruct (timeSlice (config p)); reflexivity.
  - intros c rate Hc Hc52 Hr.
    exists ((2000 * c + rate) / (2 * rate)).
    split; [now apply round_ratio_nearest |].
    pose proof (Z.div_mod (2000 * c + rate) (2 * rate) ltac:(lia)) as E.
    pose proof (Z.mod_pos_bound (2000 * c + rate) (2 * rate) ltac:(lia)) as B.
    lia.
  - intros t s ([t' Ht'] & [a Ha] & [s' Hs'] & [v Hv]) Ht Hs Hts.
    unfold serialized_start.
    rewrite (make_start_message_full p i o h t a s v Ht Ha Hs Hv).
    destruct (getStartMessage_transcriber (isSafari p) t a s v i o h "chunkSize")
      as [Hm Hc]; [discriminate | discriminate |].
    rewrite andb_false_r in Hc.
    assert (deref (fst (getStartMessage (isSafari p) t a s v i o h)) t !! "samplingRate"
            = Some (VNum (samplingRate i))) as Hrate.
    { unfold getStartMessage, Object_assign. simpl.
      rewrite deref_insert_ne, deref_insert by congruence.
      apply assign_samplingRate. }
    destruct (getStartMessage _ _ _ _ _ _ _ _) as [h' m]. simpl in Hm, Hc, Hrate. subst m.
    simpl. eexists _, _, _, _. split; [reflexivity |].
    unfold get_field. now rewrite Hrate, Hc.
Qed.

Lemma C7_witness :
  (exists n, round_ratio (VNum 2048) (VNum 44100) = VNum n /\
             (2 * n - 1) * 44100 <= 2000 * 2048 < (2 * n + 1) * 44100) /\
  (exists tobj a sobj c,
     serialized_start hosted_on_safari (linear16 44100) (linear16 48000) hosted_heap =
       websocket_start tobj a sobj c /\
     get_field tobj "samplingRate" = VNum 44100 /\
     get_field tobj "chunkSize" = VNum 2048).
Proof.
  pose proof (C7_time_slice hosted_on_safari (linear16 44100) (linear16 48000) hosted_heap)
    as (_ & Hround & Hrate).
  split.
  - apply (Hround 2048 44100); [lia | reflexivity | split; [lia | reflexivity]].
  - apply (Hrate 0%nat 1%nat).
    + unfold all_four. simpl. eauto.
    + reflexivity.
    + reflexivity.
    + lia.
Defined.

(** ** Frames of the effects *)

Lemma listener_effect_frame w :
  let w' := listener_effect w in
  hook w' = hook w /\ heap w' = heap w /\ suspended w' = suspended w /\
  sockets w' = sockets w /\ arrays w' = arrays w /\ starts w' = starts w /\
  playbacks w' = playbacks w /\ renders w' = renders w /\ outbound w' = outbound w /\
  played w' = played w /\ uncaught w' = uncaught w.
Proof.
  unfold listener_effect.
  destruct (decide _); [done |].
  destruct (recorder (hook w)), (socket (hook w)); try done.
  destruct (status (hook w)); try done.
  destruct (active (hook w)); done.
Qed.

Lemma playback_effect_frame w :
  let w' := playback_effect w in
  audioContext (hook w') = audioContext (hook w) /\
  audioAnalyser (hook w') = audioAnalyser (hook w) /\
  audioQueue (hook w') = audioQueue (hook w) /\
  currentSpeaker (hook w') = currentSpeaker (hook w) /\
  recorder (hook w') = recorder (hook w) /\ socket (hook w') = socket (hook w) /\
  status (hook w') = status (hook w) /\ error (hook w') = error (hook w) /\
  transcripts (hook w') = transcripts (hook w) /\ active (hook w') = active (hook w) /\
  heap w' = heap w /\ suspended w' = suspended w /\ sockets w' = sockets w /\
  recorders w' = recorders w /\ starts w' = starts w /\
  listener_deps w' = listener_deps w /\ renders w' = renders w /\
  outbound w' = outbound w /\ played w' = played w /\ uncaught w' = uncaught w.
Proof.
  unfold playback_effect.
  destruct (_ && _ && _); [| done].
  unfold array_of. simpl. destruct (default [] _); done.
Qed.

Lemma listener_effect_recorders_length w :
  length (recorders (listener_effect w)) = length (recorders w).
Proof.
  unfold listener_effect.
  destruct (decide _); [done |].
  destruct (recorder (hook w)), (socket (hook w)); try done.
  destruct (status (hook w)); try done.
  destruct (active (hook w)); simpl; now rewrite length_alter.
Qed.

(** What a commit leaves alone. *)
Lemma commit_frame w :
  let w' := commit w in
  audioContext (hook w') = audioContext (hook w) /\
  audioAnalyser (hook w') = audioAnalyser (hook w) /\
  recorder (hook w') = recorder (hook w) /\ socket (hook w') = socket (hook w) /\
  status (hook w') = status (hook w) /\ error (hook w') = error (hook w) /\
  transcripts (hook w') = transcripts (hook w) /\ active (hook w') = active (hook w) /\
  heap w' = heap w /\ suspended w' = suspended w /\ sockets w' = sockets w /\
  starts w' = starts w /\ outbound w' = outbound w /\ played w' = played w /\
  uncaught w' = uncaught w /\ length (recorders w') = length (recorders w).
Proof.
  unfold commit.
  pose proof (playback_effect_frame (listener_effect (set_renders (S (renders w)) w))) as P.
  pose proof (listener_effect_frame (set_renders (S (renders w)) w)) as L.
  pose proof (listener_effect_recorders_length (set_renders (S (renders w)) w)) as R.
  simpl in *.
  destruct P as (P1 & P2 & P3 & P4 & P5 & P6 & P7 & P8 & P9 & P10 & P11 & P12 & P13 & P14
                 & P15 & P16 & P17 & P18 & P19 & P20).
  destruct L as (L1 & L2 & L3 & L4 & L5 & L6 & L7 & L8 & L9 & L10 & L11).
  rewrite P1, P2, P5, P6, P7, P8, P9, P10, P11, P12, P13, P14, P15, P18, P19, P20.
  rewrite L1, L2, L3, L4, L6, L9, L10, L11, R.
  repeat split; reflexivity.
Qed.

(** ** stop() *)

Lemma stopConversation_early rec sock err w :
  rec = None \/ sock = None ->
  stopConversation rec sock err w =
  (with_hook (set_status (match err with Some _ => st_error | None => st_idle end))
     (with_hook (match err with Some _ => set_error err | None => id end)
        (with_hook (set_currentSpeaker sp_none)
           (with_hook (set_audioQueue (length (arrays w)))
              (set_arrays (arrays w ++ [[]])%list w)))), inr tt).
Proof.
  intros H. unfold stopConversation. monad.
  destruct err; simpl; destruct H as [-> | ->]; try destruct rec; reflexivity.
Qed.

(** C8. stop() on a session that is idle, has no error and has neither
    a recorder nor a socket returns normally; the status is idle and the
    error unset afterwards, nothing is sent, no socket or recorder is
    touched, and the render that follows changes none of this. *)
Theorem C8_stop_when_idle (p : Props) (w : World) :
  status (hook w) = st_idle -> error (hook w) = None ->
  recorder (hook w) = None -> socket (hook w) = None ->
  exists w',
    dispatch p EvStop w = (w', inr tt) /\
    status (hook w') = st_idle /\ error (hook w') = None /\
    outbound w' = outbound w /\ sockets w' = sockets w /\
    recorders w' = recorders w /\ uncaught w' = uncaught w /\
    status (hook (step p w EvStop)) = st_idle /\
    error (hook (step p w EvStop)) = None /\
    outbound (step p w EvStop) = outbound w /\
    uncaught (step p w EvStop) = uncaught w.
Proof.
  intros Hs He Hr Hk. unfold step. simpl. rewrite Hr, Hk.
  rewrite stopConversation_early by now left.
  eexists. split; [reflexivity |]. simpl.
  repeat (split; [first [reflexivity | assumption] |]).
  match goal with |- context [commit ?x] => pose proof (commit_frame x) as F end.
  simpl in F. destruct F as (_ & _ & _ & _ & F5 & F6 & _ & _ & _ & _ & _ & _ & F13 & _ & F15 & _).
  rewrite F5, F6, F13, F15. simpl. auto.
Qed.

Lemma C8_witness :
  exists w',
    dispatch listen_only EvStop (init ∅) = (w', inr tt) /\
    status (hook w') = st_idle /\ error (hook w') = None /\
    outbound w' = [] /\ sockets w' = [] /\
    recorders w' = [] /\ uncaught w' = [] /\
    status (hook (step listen_only (init ∅) EvStop)) = st_idle /\
    error (hook (step listen_only (init ∅) EvStop)) = None /\
    outbound (step listen_only (init ∅) EvStop) = [] /\
    uncaught (step listen_only (init ∅) EvStop) = [].
Proof.
  apply (C8_stop_when_idle listen_only (init ∅)); reflexivity.
Defined.

(** ** recordingDataListener *)

(** C10. When the encoded blob is null, or the socket the listener
    holds is in a state other than OPEN when the promise resolves, the
    listener returns normally and leaves the world as it was: nothing
    is sent, no error is set, nothing is thrown.  The same holds for a
    [dataavailable] event delivered to any number of such listeners. *)
Theorem C10_chunk_dropped (w : World) (socket : option nat) (base64 : option string) :
  base64 = None \/
  (exists k rs, socket = Some k /\ sockets w !! k = Some rs /\ rs <> OPEN) ->
  recordingDataListener socket base64 w = (w, inr tt) /\
  (forall ls,
      Forall (fun l => fn_socket l = socket) ls -> fire ls base64 w = w).
Proof.
  intros H.
  assert (recordingDataListener socket base64 w = (w, inr tt)) as E.
  { unfold recordingDataListener. destruct H as [-> | (k & rs & -> & Hk & Hrs)].
    - reflexivity.
    - destruct base64 as [data |]; [| reflexivity].
      destruct (String.eqb data ""); [reflexivity |].
      monad. rewrite Hk. destruct rs; try reflexivity. congruence. }
  split; [exact E |].
  induction ls as [| l ls IH]; intros Hls; [reflexivity |].
  apply Forall_cons in Hls as [Hl Hls']. simpl.
  rewrite Hl, E. simpl. now apply IH.
Qed.

Lemma C10_witness :
  let w := run listen_only (init ∅) [EvMount 48000 false; EvStart] in
  recordingDataListener (Some 0%nat) (Some "UklGRg==") w = (w, inr tt) /\
  (forall ls,
      Forall (fun l => fn_socket l = Some 0%nat) ls -> fire ls (Some "UklGRg==") w = w).
Proof.
  apply (C10_chunk_dropped _ (Some 0%nat) (Some "UklGRg==")).
  right. exists 0%nat, CONNECTING.
  split; [reflexivity |]. split; [reflexivity | discriminate].
Defined.

(** ** start() on an unsupported browser *)

Section Unsupported.
Variable p : Props.
Hypothesis not_safari : isSafari p = false.
Hypothesis not_chrome : isChrome p = false.

Lemma startConversation_unsupported (s : HookState) (ctx : AudioContext) (w : World) :
  audioContext s = Some ctx -> audioAnalyser s = true ->
  recorder s = None \/ socket s = None ->
  startConversation p s w =
  stopConversation (recorder s) (socket s) (Some (MkError "Unsupported browser"))
    (with_hook (set_status st_connecting) w).
Proof.
  intros Hc Ha Hn. unfold startConversation.
  rewrite Hc, Ha, not_safari, not_chrome. reflexivity.
Qed.

Lemma no_channel_commit w : no_channel w -> no_channel (commit w).
Proof.
  unfold no_channel. intros (H1 & H2 & H3 & H4 & H5 & H6 & H7 & H8).
  pose proof (commit_frame w) as F. simpl in F.
  destruct F as (F1 & F2 & F3 & F4 & F5 & F6 & F7 & F8 & F9 & F10 & F11 & F12 & F13
                 & F14 & F15 & F16).
  rewrite F1, F2, F3, F4, F11, F12, F13, F15.
  rewrite H3 in F16. apply length_zero_iff_nil in F16.
  repeat split; assumption.
Qed.

Lemma no_channel_dispatch w e :
  no_channel w -> no_channel (log_uncaught (dispatch p e w)).
Proof.
  unfold no_channel. intros (H1 & H2 & H3 & H4 & H5 & H6 & H7 & H8).
  destruct e; simpl.
  - (* mount *)
    destruct (audioContext (hook w)) eqn:E; simpl; rewrite ?E; repeat split; try assumption.
  - (* start *)
    destruct (audioContext (hook w)) as [ctx |] eqn:E;
      [destruct (audioAnalyser (hook w)) eqn:Ea |].
    + rewrite (startConversation_unsupported (hook w) ctx w E Ea) by now left.
      rewrite stopConversation_early by now left.
      simpl. rewrite E. repeat split; assumption.
    + unfold startConversation. rewrite E, Ea. simpl. rewrite E.
      repeat split; congruence.
    + unfold startConversation. rewrite E. simpl. rewrite E. repeat split; assumption.
  - (* stop *)
    rewrite stopConversation_early by now left.
    simpl. repeat split; assumption.
  - (* toggle *)
    monad. simpl. repeat split; assumption.
  - rewrite H1. simpl. repeat split; assumption.
  - rewrite H1. simpl. repeat split; assumption.
  - rewrite H1. simpl. repeat split; assumption.
  - rewrite H1. simpl. repeat split; assumption.
  - unfold poll. rewrite H2. simpl. repeat split; assumption.
  - unfold microphone. rewrite H2. simpl. repeat split; assumption.
  - rewrite H3. simpl. repeat split; assumption.
  - (* decoded *)
    unfold decoded. destruct (playbacks w !! i) as [b |]; [| simpl; repeat split; assumption].
    destruct (p_phase b); try (simpl; repeat split; assumption).
    destruct (p_context b); simpl; repeat split; assumption.
  - (* ended *)
    unfold ended. destruct (playbacks w !! i) as [b |]; [| simpl; repeat split; assumption].
    destruct (p_phase b); try (simpl; repeat split; assumption).
    monad. destruct (_ <=? _)%nat; simpl; repeat split; assumption.
Qed.

Lemma no_channel_step w e : no_channel w -> no_channel (step p w e).
Proof. intros H. unfold step. now apply no_channel_commit, no_channel_dispatch. Qed.

Lemma no_channel_run evs w : no_channel w -> no_channel (run p w evs).
Proof.
  revert w. induction evs as [| e evs IH]; intros w H; [exact H |].
  simpl. apply IH. now apply no_channel_step.
Qed.

Lemma no_channel_reachable h w : reachable p h w -> no_channel w.
Proof.
  intros [evs ->]. apply no_channel_run. unfold no_channel. simpl. repeat split.
Qed.
End Unsupported.

(** C9, amended.  On a browser that is neither Safari nor Chrome, in
    any world the hook can reach, start() called once the audio context
    exists returns normally, leaves the status [error] with the error
    "Unsupported browser", and there is still no socket, no suspended
    call and nothing sent or thrown, also after the render that
    follows. *)
Theorem C9_unsupported_browser (p : Props) (h : Heap) (w : World) :
  isSafari p = false -> isChrome p = false ->
  reachable p h w -> is_Some (audioContext (hook w)) ->
  exists w',
    dispatch p EvStart w = (w', inr tt) /\
    status (hook w') = st_error /\
    error (hook w') = Some (MkError "Unsupported browser") /\
    sockets w' = [] /\ starts w' = [] /\ outbound w' = [] /\
    status (hook (step p w EvStart)) = st_error /\
    error (hook (step p w EvStart)) = Some (MkError "Unsupported browser") /\
    sockets (step p w EvStart) = [] /\ outbound (step p w EvStart) = [] /\
    uncaught (step p w EvStart) = [].
Proof.
  intros Hs Hc Hr [ctx Hctx].
  pose proof (no_channel_reachable p Hs Hc h w Hr) as Hn.
  pose proof (no_channel_step p Hs Hc w EvStart Hn) as Hn'.
  destruct Hn as (H1 & H2 & H3 & H4 & H5 & H6 & H7 & H8).
  destruct Hn' as (S1 & S2 & S3 & S4 & S5 & S6 & S7 & S8).
  assert (audioAnalyser (hook w) = true) as Ha.
  { rewrite H8, Hctx. apply bool_decide_eq_true. eauto. }
  unfold step in *. simpl in *.
  rewrite (startConversation_unsupported p Hs Hc (hook w) ctx w Hctx Ha) in * by now left.
  rewrite stopConversation_early in * by now left.
  eexists. split; [reflexivity |]. simpl.
  repeat (split; [first [reflexivity | assumption] |]).
  match goal with |- context [commit ?x] => pose proof (commit_frame x) as F end.
  simpl in F. destruct F as (_ & _ & _ & _ & F5 & F6 & _).
  rewrite F5, F6. simpl in *. repeat split; assumption.
Qed.

Lemma C9_witness :
  let w := run unsupported_browser (init ∅) [EvMount 48000 false] in
  exists w',
    dispatch unsupported_browser EvStart w = (w', inr tt) /\
    status (hook w') = st_error /\
    error (hook w') = Some (MkError "Unsupported browser") /\
    sockets w' = [] /\ starts w' = [] /\ outbound w' = [] /\
    status (hook (step unsupported_browser w EvStart)) = st_error /\
    error (hook (step unsupported_browser w EvStart)) = Some (MkError "Unsupported browser") /\
    sockets (step unsupported_browser w EvStart) = [] /\
    outbound (step unsupported_browser w EvStart) = [] /\
    uncaught (step unsupported_browser w EvStart) = [].
Proof.
  apply (C9_unsupported_browser unsupported_browser ∅).
  - reflexivity.
  - reflexivity.
  - exists [EvMount 48000 false]. reflexivity.
  - simpl. eauto.
Defined.

(** C9 as stated fails: start() called before the mount effect has
    created the audio context returns at the guard of line 307, and the
    session is still idle with no error although the browser is
    unsupported. *)
Lemma C9_counterexample :
  isSafari unsupported_browser = false /\ isChrome unsupported_browser = false /\
  (let w := step unsupported_browser (init ∅) EvStart in
   status (hook w) = st_idle /\ error (hook w) = None /\ status (hook w) <> st_error).
Proof. repeat split; discriminate. Qed.

Ltac handlers :=
  repeat (progress (
    unfold dispatch, startConversation, stopConversation, poll, microphone,
      send_start_and_record, onmessage, onerror, onclose, decoded, ended,
      recordingDataListener, socket_send, socket_close, recorder_stop, recorder_resume,
      recorder_start, new_MediaRecorder, new_WebSocket, setPhase, recorder_state_of,
      log_uncaught in *));
  monad.

Ltac innermost x :=
  lazymatch x with
  | context [match _ with _ => _ end] => fail
  | _ => idtac
  end.

Ltac crunch :=
  repeat (simpl in *;
          match goal with
          | |- context [match ?x with _ => _ end] => innermost x; destruct x eqn:?
          end);
  simpl in *.

(** ** What the handlers leave alone *)

Lemma fire_frame ls b : forall w,
  let w' := fire ls b w in
  hook w' = hook w /\ heap w' = heap w /\ sockets w' = sockets w /\
  recorders w' = recorders w /\ arrays w' = arrays w /\ starts w' = starts w /\
  playbacks w' = playbacks w /\ played w' = played w.
Proof.
  induction ls as [| l ls IH]; intros w; [simpl; repeat split |].
  simpl. destruct (IH (log_uncaught (recordingDataListener (fn_socket l) b w)))
    as (I1 & I2 & I3 & I4 & I5 & I6 & I7 & I8).
  rewrite I1, I2, I3, I4, I5, I6, I7, I8.
  handlers. crunch; repeat split.
Qed.

(** Only the two playback callbacks touch the playbacks, the
    [processing] flag and the log of played chunks, and only
    [toggleActive] touches [active]. *)
Lemma dispatch_playback_frame p e w :
  (forall i, e <> EvDecoded i) -> (forall i, e <> EvEnded i) ->
  let w' := log_uncaught (dispatch p e w) in
  playbacks w' = playbacks w /\ played w' = played w /\
  processing (hook w') = processing (hook w).
Proof.
  intros Hd He. destruct e; try (now elim (Hd i)); try (now elim (He i));
    try (handlers; crunch; repeat split; fail).
  simpl. destruct (recorders w !! r); simpl; [| repeat split].
  pose proof (fire_frame (listeners m) base64 w) as F. simpl in F.
  destruct F as (F1 & _ & _ & _ & _ & _ & F7 & F8). now rewrite F1, F7, F8.
Qed.

Lemma dispatch_active p e w :
  e <> EvToggleActive ->
  active (hook (log_uncaught (dispatch p e w))) = active (hook w).
Proof.
  intros He. destruct e; try congruence; try (handlers; crunch; reflexivity).
  simpl. destruct (recorders w !! r); simpl; [| reflexivity].
  pose proof (fire_frame (listeners m) base64 w) as F. simpl in F.
  destruct F as (F1 & _). now rewrite F1.
Qed.

(** ** The playback queue *)

Lemma view_listener_effect w : view (listener_effect w) = view w.
Proof.
  pose proof (listener_effect_frame w) as F. simpl in F.
  destruct F as (F1 & _ & _ & _ & F5 & _ & F7 & _ & _ & F10 & _).
  unfold view. now rewrite F1, F5, F7, F10.
Qed.

Lemma view_playback_effect w : view (playback_effect w) = view_effect (view w).
Proof.
  unfold playback_effect, view_effect, queue, array_of, v_current, v_array_of. simpl.
  destruct (negb (processing (hook w)) && _ && active (hook w)); [| reflexivity].
  simpl. destruct (default [] (arrays w !! audioQueue (hook w))); reflexivity.
Qed.

Lemma view_commit w : view (commit w) = view_effect (view w).
Proof.
  unfold commit. now rewrite view_playback_effect, view_listener_effect.
Qed.

Lemma view_dispatch_ok p k e w :
  sockets w !! k = Some OPEN -> playback_event k e ->
  view (log_uncaught (dispatch p e w)) = view_dispatch e (view w) /\
  sockets (log_uncaught (dispatch p e w)) = sockets w.
Proof.
  intros Hk He. destruct e; try contradiction; simpl.
  - split; reflexivity.
  - destruct m; try contradiction. simpl in He. subst k0. rewrite Hk. simpl.
    split; reflexivity.
  - unfold decoded. destruct (playbacks w !! i) as [b |]; [| split; reflexivity].
    destruct (p_phase b); try (split; reflexivity).
    destruct (p_context b); split; reflexivity.
  - unfold ended. destruct (playbacks w !! i) as [b |]; [| split; reflexivity].
    destruct (p_phase b); try (split; reflexivity).
    monad. unfold view, v_array_of, array_of. simpl.
    destruct (_ <=? _)%nat; split; reflexivity.
Qed.

Lemma view_step_ok p k e w :
  sockets w !! k = Some OPEN -> playback_event k e ->
  view (step p w e) = view_step (view w) e /\ sockets (step p w e) = sockets w.
Proof.
  intros Hk He. destruct (view_dispatch_ok p k e w Hk He) as [Hv Hs].
  unfold step, view_step. rewrite view_commit, Hv. split; [reflexivity |].
  pose proof (commit_frame (log_uncaught (dispatch p e w))) as F. simpl in F.
  destruct F as (_ & _ & _ & _ & _ & _ & _ & _ & _ & _ & F11 & _).
  now rewrite F11.
Qed.

Lemma view_run p k evs : forall w,
  sockets w !! k = Some OPEN -> Forall (playback_event k) evs ->
  view (run p w evs) = fold_left view_step evs (view w) /\
  sockets (run p w evs) = sockets w.
Proof.
  induction evs as [| e evs IH]; intros w Hk Hevs; [split; reflexivity |].
  apply Forall_cons in Hevs as [He Hevs].
  destruct (view_step_ok p k e w Hk He) as [Hv Hs].
  simpl. destruct (IH (step p w e)) as [IH1 IH2]; [now rewrite Hs | assumption |].
  rewrite IH1, IH2, Hv, Hs. split; reflexivity.
Qed.

Lemma playback_event_arrivals k chunks : Forall (playback_event k) (arrivals k chunks).
Proof. induction chunks; constructor; simpl; auto. Qed.

Lemma playback_event_drain k i n : Forall (playback_event k) (drain_events i n).
Proof. revert i. induction n; intros i; simpl; repeat constructor; auto. Qed.

(** While playback is disabled a chunk that arrives is appended to the
    queue and the effect takes nothing out. *)
Lemma view_arrivals k chunks : forall v,
  v_active v = false ->
  let v' := fold_left view_step (arrivals k chunks) v in
  v_current v' = (v_current v ++ chunks)%list /\ v_playbacks v' = v_playbacks v /\
  v_played v' = v_played v /\ v_active v' = false /\
  v_processing v' = v_processing v /\ v_context v' = v_context v.
Proof.
  induction chunks as [| d chunks IH]; intros v Ha.
  - simpl. rewrite app_nil_r. repeat split; assumption.
  - simpl. set (v1 := view_step v (EvMessage k (in_audio d))).
    assert (v1 = view_dispatch (EvMessage k (in_audio d)) v) as E.
    { subst v1. unfold view_step, view_effect. simpl. rewrite Ha.
      now rewrite andb_false_r. }
    assert (v_current v1 = (v_current v ++ [d])%list) as Hc.
    { rewrite E. unfold v_current, v_array_of. simpl.
      now rewrite list_lookup_middle. }
    destruct (IH v1) as (I1 & I2 & I3 & I4 & I5 & I6).
    { rewrite E. exact Ha. }
    rewrite I1, I2, I3, I4, I5, I6, Hc, E. simpl.
    rewrite <- app_assoc. repeat split.
Qed.

Lemma view_step_decoded arrs q act ctx sp pbs c q' pl :
  view_step {| v_arrays := arrs; v_queue := q; v_processing := true; v_active := act;
               v_context := ctx; v_speaker := sp;
               v_playbacks := (pbs ++ [in_flight c q' Fetching])%list; v_played := pl |}
            (EvDecoded (length pbs)) =
  {| v_arrays := arrs; v_queue := q; v_processing := true; v_active := act;
     v_context := ctx; v_speaker := sp_agent;
     v_playbacks := (pbs ++ [in_flight c q' Playing])%list; v_played := (pl ++ [c])%list |}.
Proof.
  unfold view_step, view_dispatch. simpl.
  rewrite list_lookup_middle by reflexivity. simpl.
  rewrite insert_app_r_alt, Nat.sub_diag by lia. reflexivity.
Qed.

Lemma view_dispatch_ended arrs q act ctx sp pbs c q' pl :
  view_dispatch (EvEnded (length pbs))
    {| v_arrays := arrs; v_queue := q; v_processing := true; v_active := act;
       v_context := ctx; v_speaker := sp;
       v_playbacks := (pbs ++ [in_flight c q' Playing])%list; v_played := pl |} =
  {| v_arrays := arrs; v_queue := q; v_processing := false; v_active := act;
     v_context := ctx;
     v_speaker := if (length (default [] (arrs !! q')) <=? 0)%nat then sp_user else sp;
     v_playbacks := (pbs ++ [in_flight c q' Finished])%list; v_played := pl |}.
Proof.
  unfold view_dispatch. simpl.
  rewrite list_lookup_middle by reflexivity. simpl.
  rewrite insert_app_r_alt, Nat.sub_diag by lia. reflexivity.
Qed.

Lemma view_step_ended_last arrs q act ctx sp pbs c pl :
  arrs !! q = Some [] ->
  view_step
    {| v_arrays := arrs; v_queue := q; v_processing := true; v_active := act;
       v_context := ctx; v_speaker := sp;
       v_playbacks := (pbs ++ [in_flight c q Playing])%list; v_played := pl |}
    (EvEnded (length pbs)) =
  {| v_arrays := arrs; v_queue := q; v_processing := false; v_active := act;
     v_context := ctx; v_speaker := sp_user;
     v_playbacks := (pbs ++ [in_flight c q Finished])%list; v_played := pl |}.
Proof.
  intros Hq. unfold view_step. rewrite view_dispatch_ended, Hq. simpl.
  unfold view_effect, v_current, v_array_of. simpl. rewrite Hq. reflexivity.
Qed.

Lemma view_step_ended_next arrs q sp pbs c pl c' rest :
  arrs !! q = Some (c' :: rest) ->
  view_step
    {| v_arrays := arrs; v_queue := q; v_processing := true; v_active := true;
       v_context := true; v_speaker := sp;
       v_playbacks := (pbs ++ [in_flight c q Playing])%list; v_played := pl |}
    (EvEnded (length pbs)) =
  {| v_arrays := <[q := rest]> arrs; v_queue := q; v_processing := true; v_active := true;
     v_context := true; v_speaker := sp;
     v_playbacks := ((pbs ++ [in_flight c q Finished]) ++ [in_flight c' q Fetching])%list;
     v_played := pl |}.
Proof.
  intros Hq. unfold view_step. rewrite view_dispatch_ended, Hq. simpl.
  unfold view_effect, v_current, v_array_of. simpl. rewrite Hq. reflexivity.
Qed.

Lemma fold_drain_events i n v :
  fold_left view_step (drain_events i (S n)) v =
  fold_left view_step (drain_events (S i) n)
    (view_step (view_step v (EvDecoded i)) (EvEnded i)).
Proof. reflexivity. Qed.

(** With playback enabled and nothing arriving, the chunk in flight
    and then the chunks of the queue are played one after the other in
    queue order. *)
Lemma view_drain rest : forall arrs q sp pbs c pl n v',
  arrs !! q = Some rest -> n = length pbs ->
  v' = fold_left view_step (drain_events n (S (length rest)))
         {| v_arrays := arrs; v_queue := q; v_processing := true; v_active := true;
            v_context := true; v_speaker := sp;
            v_playbacks := (pbs ++ [in_flight c q Fetching])%list;
            v_played := pl |} ->
  v_played v' = (pl ++ c :: rest)%list /\ v_current v' = [] /\
  v_processing v' = false /\ v_active v' = true /\ v_speaker v' = sp_user /\
  length (v_playbacks v') = (n + S (length rest))%nat.
Proof.
  induction rest as [| c' rest IH]; intros arrs q sp pbs c pl n v' Hq -> ->.
  - rewrite fold_drain_events, view_step_decoded, view_step_ended_last by assumption.
    unfold v_current, v_array_of. simpl. rewrite Hq, length_app. simpl.
    repeat split; lia.
  - rewrite fold_drain_events, view_step_decoded, (view_step_ended_next _ _ _ _ _ _ c' rest)
      by assumption.
    change (length (c' :: rest)) with (S (length rest)).
    pose proof (lookup_lt_Some _ _ _ Hq) as Hlt.
    assert (S (length pbs) = length (pbs ++ [in_flight c q Finished])%list) as Hn
      by (rewrite length_app; simpl; lia).
    destruct (IH (<[q := rest]> arrs) q sp_agent
                (pbs ++ [in_flight c q Finished])%list c' (pl ++ [c])%list
                (S (length pbs)) _ (list_lookup_insert_eq _ _ _ Hlt) Hn eq_refl)
      as (I1 & I2 & I3 & I4 & I5 & I6).
    rewrite I1, I2, I3, I4, I5, I6. rewrite <- app_assoc.
    repeat split. simpl. lia.
Qed.

Lemma view_step_toggle_on arrs q ctx sp pbs pl c rest :
  arrs !! q = Some (c :: rest) ->
  view_step {| v_arrays := arrs; v_queue := q; v_processing := false; v_active := false;
               v_context := ctx; v_speaker := sp; v_playbacks := pbs; v_played := pl |}
            EvToggleActive =
  {| v_arrays := <[q := rest]> arrs; v_queue := q; v_processing := true; v_active := true;
     v_context := ctx; v_speaker := sp;
     v_playbacks := (pbs ++ [{| p_audio := c; p_queue := q; p_context := ctx;
                                p_phase := Fetching |}])%list;
     v_played := pl |}.
Proof.
  intros Hq. unfold view_step, view_effect, v_current, v_array_of. simpl.
  rewrite Hq. reflexivity.
Qed.

Lemma view_step_toggle_empty arrs q ctx sp pbs pl :
  default [] (arrs !! q) = [] ->
  view_step {| v_arrays := arrs; v_queue := q; v_processing := false; v_active := false;
               v_context := ctx; v_speaker := sp; v_playbacks := pbs; v_played := pl |}
            EvToggleActive =
  {| v_arrays := arrs; v_queue := q; v_processing := false; v_active := true;
     v_context := ctx; v_speaker := sp; v_playbacks := pbs; v_played := pl |}.
Proof.
  intros Hq. unfold view_step, view_effect, v_current, v_array_of. simpl.
  rewrite Hq. reflexivity.
Qed.

Lemma default_nil_cons {A} (o : option (list A)) x l :
  default [] o = x :: l -> o = Some (x :: l).
Proof. destruct o; simpl; congruence. Qed.

(** X1. Playback disabled, nothing in flight: chunks that arrive on an
    open socket are appended to the queue and none is taken out; when
    playback is enabled again and each decode and end callback fires in
    turn, exactly the chunks of the backlog are played, oldest first,
    and the queue is empty afterwards. *)
Theorem X1_backlog_survives_pause (p : Props) (w : World) (k : nat) (chunks : list Buffer) :
  sockets w !! k = Some OPEN ->
  active (hook w) = false -> processing (hook w) = false ->
  is_Some (audioContext (hook w)) -> audioAnalyser (hook w) = true ->
  let w1 := run p w (arrivals k chunks) in
  let w2 := run p w1 (EvToggleActive ::
                        drain_events (length (playbacks w)) (length (queue w ++ chunks))) in
  queue w1 = (queue w ++ chunks)%list /\ playbacks w1 = playbacks w /\
  played w1 = played w /\ played w2 = (played w ++ queue w ++ chunks)%list /\
  queue w2 = [] /\ processing (hook w2) = false /\ active (hook w2) = true.
Proof.
  intros Hk Ha Hp [ctx Hctx] Han w1 w2.
  destruct (view_run p k (arrivals k chunks) w Hk (playback_event_arrivals k chunks))
    as [Hv1 Hs1].
  fold w1 in Hv1, Hs1.
  destruct (view_arrivals k chunks (view w) Ha) as (A1 & A2 & A3 & A4 & A5 & A6).
  rewrite <- Hv1 in A1, A2, A3, A4, A5, A6.
  assert (Forall (playback_event k)
            (EvToggleActive ::
               drain_events (length (playbacks w)) (length (queue w ++ chunks)))) as Hev.
  { constructor; [exact I | apply playback_event_drain]. }
  destruct (view_run p k _ w1 ltac:(now rewrite Hs1) Hev) as [Hv2 _].
  fold w2 in Hv2.
  change (queue w1) with (v_current (view w1)).
  change (playbacks w1) with (v_playbacks (view w1)).
  change (played w1) with (v_played (view w1)).
  change (queue w2) with (v_current (view w2)).
  change (played w2) with (v_played (view w2)).
  change (processing (hook w2)) with (v_processing (view w2)).
  change (active (hook w2)) with (v_active (view w2)).
  change (v_current (view w)) with (queue w) in A1.
  change (v_playbacks (view w)) with (playbacks w) in A2.
  change (v_played (view w)) with (played w) in A3.
  change (v_processing (view w)) with (processing (hook w)) in A5.
  assert (v_context (view w) = true) as Hc.
  { simpl. rewrite Hctx, Han. rewrite bool_decide_eq_true_2 by eauto. reflexivity. }
  rewrite Hc in A6. rewrite Hp in A5.
  split; [exact A1 |]. split; [exact A2 |]. split; [exact A3 |].
  rewrite Hv2. clear Hv2 Hv1 Hev.
  destruct (view w1) as [arrs q pr act cx sp pbs pl]. simpl in A1, A2, A3, A4, A5, A6.
  subst pr act cx pbs pl. unfold v_current, v_array_of in A1. simpl in A1.
  destruct (queue w ++ chunks)%list as [| c rest] eqn:EQ.
  - simpl. rewrite view_step_toggle_empty by assumption.
    unfold v_current, v_array_of. simpl. rewrite A1, app_nil_r. repeat split.
  - apply default_nil_cons in A1.
    cbn [fold_left]. rewrite (view_step_toggle_on _ _ _ _ _ _ c rest) by assumption.
    pose proof (lookup_lt_Some _ _ _ A1) as Hlt.
    destruct (view_drain rest (<[q := rest]> arrs) q sp (playbacks w) c (played w)
                (length (playbacks w)) _ (list_lookup_insert_eq _ _ _ Hlt) eq_refl eq_refl)
      as (I1 & I2 & I3 & I4 & I5 & I6).
    change (length (c :: rest)) with (S (length rest)).
    unfold in_flight in *. rewrite I1, I2, I3, I4. repeat split.
Qed.

Lemma X1_witness :
  let w1 := run listen_only paused_world (arrivals 0%nat ["A"; "B"]) in
  let w2 := run listen_only w1
              (EvToggleActive ::
                 drain_events (length (playbacks paused_world))
                   (length (queue paused_world ++ ["A"; "B"]))) in
  queue w1 = (queue paused_world ++ ["A"; "B"])%list /\
  playbacks w1 = playbacks paused_world /\
  played w1 = played paused_world /\
  played w2 = (played paused_world ++ queue paused_world ++ ["A"; "B"])%list /\
  queue w2 = [] /\ processing (hook w2) = false /\ active (hook w2) = true.
Proof.
  apply (X1_backlog_survives_pause listen_only paused_world 0%nat ["A"; "B"]).
  - reflexivity.
  - reflexivity.
  - reflexivity.
  - vm_compute. eauto.
  - reflexivity.
Defined.

Lemma classic_event (e : Event) :
  ((exists i, e = EvDecoded i) \/ (exists i, e = EvEnded i)) \/
  ((forall i, e <> EvDecoded i) /\ (forall i, e <> EvEnded i)).
Proof. destruct e; try (right; split; intros; discriminate); left; eauto. Qed.

(** ** One playback at a time, in queue order *)

Lemma view_decoded_ended p e w :
  (exists i, e = EvDecoded i) \/ (exists i, e = EvEnded i) ->
  view (log_uncaught (dispatch p e w)) = view_dispatch e (view w).
Proof.
  intros [[i ->] | [i ->]]; simpl.
  - unfold decoded. destruct (playbacks w !! i) as [b |]; [| reflexivity].
    destruct (p_phase b); try reflexivity.
    destruct (p_context b); reflexivity.
  - unfold ended. destruct (playbacks w !! i) as [b |]; [| reflexivity].
    destruct (p_phase b); try reflexivity.
    monad. unfold view, v_array_of, array_of. simpl.
    destruct (_ <=? _)%nat; reflexivity.
Qed.

Lemma unfinished_is_last (fin : list Playback) b b0 i :
  Forall (fun b => p_phase b = Finished) fin ->
  (fin ++ [b])%list !! i = Some b0 -> p_phase b0 <> Finished ->
  i = length fin /\ b0 = b.
Proof.
  intros Hd Hi Hn.
  destruct (decide (i < length fin)%nat) as [Hlt | Hge].
  - rewrite lookup_app_l in Hi by assumption.
    rewrite Forall_forall in Hd. exfalso. apply Hn, Hd.
    eapply list_elem_of_lookup_2. exact Hi.
  - rewrite lookup_app_r in Hi by lia.
    destruct (i - length fin)%nat eqn:E; simpl in Hi; [| discriminate].
    split; [lia | congruence].
Qed.

Lemma finished_lookup (fin : list Playback) i b0 :
  Forall (fun b => p_phase b = Finished) fin -> fin !! i = Some b0 ->
  p_phase b0 = Finished.
Proof.
  intros Hd Hi. rewrite Forall_forall in Hd. apply Hd.
  eapply list_elem_of_lookup_2. exact Hi.
Qed.

Lemma view_inv_dispatch e v :
  (exists i, e = EvDecoded i) \/ (exists i, e = EvEnded i) ->
  view_inv v -> view_inv (view_dispatch e v).
Proof.
  intros He (fin & Hd & Hcase). destruct He as [[i ->] | [i ->]]; simpl.
  - destruct (v_playbacks v !! i) as [b0 |] eqn:Hi; [| exists fin; auto].
    destruct (p_phase b0) eqn:Hph; try (exists fin; auto; fail).
    destruct (p_context b0); [| exists fin; auto].
    destruct Hcase as [(Hp & Hpb & Hpl) | (Hp & b & Hpb & Hb)].
    + rewrite Hpb in Hi. pose proof (finished_lookup fin i b0 Hd Hi). congruence.
    + rewrite Hpb in Hi.
      destruct (unfinished_is_last fin b b0 i Hd Hi ltac:(congruence)) as [-> ->].
      destruct Hb as [[_ Hpl] | [Hb _]]; [| congruence].
      exists fin. split; [assumption |]. right. simpl. split; [assumption |].
      exists (set_p_phase Playing b). split.
      * rewrite Hpb, insert_app_r_alt, Nat.sub_diag by lia. reflexivity.
      * right. split; [reflexivity |]. rewrite Hpl, fmap_app. reflexivity.
  - destruct (v_playbacks v !! i) as [b0 |] eqn:Hi; [| exists fin; auto].
    destruct (p_phase b0) eqn:Hph; try (exists fin; auto; fail).
    destruct Hcase as [(Hp & Hpb & Hpl) | (Hp & b & Hpb & Hb)].
    + rewrite Hpb in Hi. pose proof (finished_lookup fin i b0 Hd Hi). congruence.
    + rewrite Hpb in Hi.
      destruct (unfinished_is_last fin b b0 i Hd Hi ltac:(congruence)) as [-> ->].
      destruct Hb as [[Hb _] | [_ Hpl]]; [congruence |].
      exists (fin ++ [set_p_phase Finished b])%list. split.
      * apply Forall_app. split; [assumption |]. constructor; [reflexivity | constructor].
      * left. simpl. split; [reflexivity |]. split.
        -- rewrite Hpb, insert_app_r_alt, Nat.sub_diag by lia. reflexivity.
        -- rewrite Hpl, !fmap_app. reflexivity.
Qed.

Lemma view_inv_effect v : view_inv v -> view_inv (view_effect v).
Proof.
  intros H. unfold view_effect.
  destruct (v_processing v) eqn:Hp; simpl; [exact H |].
  destruct (v_current v) as [| audio rest]; simpl; [exact H |].
  destruct (v_active v); [| exact H].
  destruct H as (fin & Hd & Hcase).
  destruct Hcase as [(_ & Hpb & Hpl) | [Hp' _]]; [| congruence].
  exists fin. split; [assumption |]. right. simpl. split; [reflexivity |].
  eexists. split; [rewrite Hpb; reflexivity |]. left. split; [reflexivity | assumption].
Qed.

Lemma view_inv_step p e w : view_inv (view w) -> view_inv (view (step p w e)).
Proof.
  intros H. unfold step. rewrite view_commit. apply view_inv_effect.
  destruct (classic_event e) as [He | [Hd Hn]].
  - rewrite view_decoded_ended by assumption. now apply view_inv_dispatch.
  - destruct (dispatch_playback_frame p e w Hd Hn) as (F1 & F2 & F3).
    destruct H as (fin & Hdone & Hcase). exists fin. split; [assumption |].
    simpl in *. rewrite F1, F2, F3. exact Hcase.
Qed.

Lemma view_inv_reachable p h w : reachable p h w -> view_inv (view w).
Proof.
  intros [evs ->]. unfold run.
  assert (view_inv (view (init h))) as H0.
  { exists []. split; [constructor |]. left. repeat split. }
  revert H0. generalize (init h). induction evs as [| e evs IH]; intros w H; [exact H |].
  simpl. apply IH. now apply view_inv_step.
Qed.

Lemma filter_finished (fin : list Playback) (f : Playback -> bool) :
  Forall (fun b => p_phase b = Finished) fin ->
  (forall b, p_phase b = Finished -> f b = false) ->
  List.filter f fin = [].
Proof.
  intros Hd Hf. induction Hd as [| b fin Hb _ IH]; [reflexivity |].
  simpl. now rewrite (Hf b Hb).
Qed.

(** X2. In every world the hook can reach at most one playback is in
    flight: the playbacks that are not finished are exactly one when
    [processing] is set and none when it is not, so no two chunks ever
    play at once; and the chunks started so far are, in order, an
    initial segment of the chunks taken off the queue. *)
Theorem X2_single_playback_in_order (p : Props) (h : Heap) (w : World) :
  reachable p h w ->
  length (List.filter unfinished (playbacks w)) =
    (if processing (hook w) then 1 else 0)%nat /\
  (length (List.filter is_playing (playbacks w)) <= 1)%nat /\
  played w `prefix_of` (p_audio <$> playbacks w).
Proof.
  intros Hr. destruct (view_inv_reachable p h w Hr) as (fin & Hd & Hcase).
  simpl in Hcase.
  assert (List.filter unfinished fin = []) as E1.
  { apply filter_finished; [assumption |]. intros b Hb. unfold unfinished. now rewrite Hb. }
  assert (List.filter is_playing fin = []) as E2.
  { apply filter_finished; [assumption |]. intros b Hb. unfold is_playing. now rewrite Hb. }
  destruct Hcase as [(Hp & Hpb & Hpl) | (Hp & b & Hpb & Hb)]; rewrite Hp, Hpb.
  - rewrite E1, E2, Hpl. repeat split; [simpl; lia | reflexivity].
  - rewrite !List.filter_app, E1, E2. simpl. unfold unfinished, is_playing.
    destruct Hb as [[Hb Hpl] | [Hb Hpl]]; rewrite Hb, Hpl; simpl.
    + repeat split; [lia |]. rewrite fmap_app. now apply prefix_app_r.
    + repeat split; [lia | reflexivity].
Qed.

(** ** Nothing dropped, nothing played twice *)

Lemma fmap_audio_insert (l : list Playback) i b ph :
  l !! i = Some b -> p_audio <$> <[i := set_p_phase ph b]> l = p_audio <$> l.
Proof.
  intros Hi. rewrite list_fmap_insert. simpl.
  apply list_insert_id. rewrite list_lookup_fmap, Hi. reflexivity.
Qed.

Lemma backlog_effect v : backlog (view_effect v) = backlog v.
Proof.
  unfold view_effect, backlog.
  destruct (v_processing v); simpl; [reflexivity |].
  unfold v_current, v_array_of.
  destruct (default [] (v_arrays v !! v_queue v)) as [| audio rest] eqn:E;
    simpl; [now rewrite ?E |].
  destruct (v_active v); simpl; [| now rewrite E].
  apply default_nil_cons in E. pose proof (lookup_lt_Some _ _ _ E) as Hlt.
  rewrite list_lookup_insert_eq by assumption. simpl.
  rewrite fmap_app, <- app_assoc. reflexivity.
Qed.

Lemma backlog_dispatch k e v :
  playback_event k e ->
  backlog (view_dispatch e v) = (backlog v ++ arrived [e])%list.
Proof.
  intros He. unfold backlog, arrived.
  destruct e; try contradiction; simpl.
  - now rewrite !app_nil_r.
  - destruct m; try contradiction. simpl.
    unfold v_current, v_array_of. simpl.
    rewrite list_lookup_middle by reflexivity. simpl.
    now rewrite app_assoc.
  - rewrite !app_nil_r.
    destruct (v_playbacks v !! i) as [b |] eqn:Hi; [| reflexivity].
    destruct (p_phase b); try reflexivity.
    destruct (p_context b); [| reflexivity].
    unfold v_current, v_array_of. simpl. now rewrite fmap_audio_insert.
  - rewrite !app_nil_r.
    destruct (v_playbacks v !! i) as [b |] eqn:Hi; [| reflexivity].
    destruct (p_phase b); try reflexivity.
    unfold v_current, v_array_of. simpl. now rewrite fmap_audio_insert.
Qed.

Lemma arrived_cons e evs : arrived (e :: evs) = (arrived [e] ++ arrived evs)%list.
Proof. unfold arrived. simpl. now rewrite app_nil_r. Qed.

Lemma backlog_fold k evs : forall v,
  Forall (playback_event k) evs ->
  backlog (fold_left view_step evs v) = (backlog v ++ arrived evs)%list.
Proof.
  induction evs as [| e evs IH]; intros v Hevs.
  - simpl. now rewrite app_nil_r.
  - apply Forall_cons in Hevs as [He Hevs]. simpl fold_left.
    rewrite IH by assumption. unfold view_step at 1.
    rewrite backlog_effect, (backlog_dispatch k) by assumption.
    rewrite (arrived_cons e evs), app_assoc. reflexivity.
Qed.

(** X3. While a socket stays open and only audio frames, toggles and
    playback callbacks happen, in any order, the chunks taken off the
    queue followed by the chunks still queued are those of before
    followed by the chunks that arrived, in arrival order: the queue
    drops none, repeats none and reorders none. *)
Theorem X3_queue_is_fifo (p : Props) (w : World) (k : nat) (evs : list Event) :
  sockets w !! k = Some OPEN -> Forall (playback_event k) evs ->
  let w' := run p w evs in
  ((p_audio <$> playbacks w') ++ queue w')%list =
  ((p_audio <$> playbacks w) ++ queue w ++ arrived evs)%list.
Proof.
  intros Hk Hevs w'. destruct (view_run p k evs w Hk Hevs) as [Hv _].
  pose proof (backlog_fold k evs (view w) Hevs) as B.
  rewrite <- Hv in B. unfold backlog in B. rewrite <- app_assoc in B. exact B.
Qed.

Lemma X3_witness :
  let evs := [EvMessage 0%nat (in_audio "A"); EvToggleActive; EvDecoded 0%nat;
              EvMessage 0%nat (in_audio "B"); EvEnded 0%nat;
              EvMessage 0%nat (in_audio "C")] in
  let w' := run listen_only paused_world evs in
  ((p_audio <$> playbacks w') ++ queue w')%list =
  ((p_audio <$> playbacks paused_world) ++ queue paused_world ++ arrived evs)%list.
Proof.
  apply (X3_queue_is_fifo listen_only paused_world 0%nat).
  - reflexivity.
  - repeat constructor.
Defined.

(** ** The speaker between two chunks *)

Lemma view_played w : played w = v_played (view w).
Proof. reflexivity. Qed.
Lemma view_processing w : processing (hook w) = v_processing (view w).
Proof. reflexivity. Qed.
Lemma view_queue w : queue w = v_current (view w).
Proof. reflexivity. Qed.
Lemma view_playbacks w : playbacks w = v_playbacks (view w).
Proof. reflexivity. Qed.







Lemma X2_witness :
  let w := run listen_only (init ∅)
             [EvMount 48000 false; EvStart; EvOpen 0%nat; EvPoll 0%nat;
              EvMessage 0%nat (in_audio "A"); EvMessage 0%nat (in_audio "B");
              EvDecoded 0%nat] in
  length (List.filter unfinished (playbacks w)) =
    (if processing (hook w) then 1 else 0)%nat /\
  (length (List.filter is_playing (playbacks w)) <= 1)%nat /\
  played w `prefix_of` (p_audio <$> playbacks w).
Proof.
  apply (X2_single_playback_in_order listen_only ∅).
  eexists. reflexivity.
Defined.

(** ** getBackendUrl and a configuration without endpoint *)

Lemma getBackendUrl_error c e :
  getBackendUrl c = inl e <->
  backendUrl c = None /\ vocodeConfig c = None /\ e = MkError "Invalid config".
Proof.
  unfold getBackendUrl. destruct (backendUrl c), (vocodeConfig c); split;
    try (intros (? & ? & ?)); try intros ?; try discriminate; try congruence.
  - repeat split; congruence.
Qed.

(** X5. [getBackendUrl] prefers [backendUrl] to the hosted platform
    and fails exactly when the configuration has neither.  On a
    supported browser, start() with such a configuration rejects with
    "Invalid config" after it has set the status: the session is left
    [connecting], with no socket, no suspended call and the error state
    untouched, and the rejection is handled by nobody. *)
Theorem X5_invalid_config_stalls_connecting (p : Props) (w : World) :
  (forall url, backendUrl (config p) = Some url -> getBackendUrl (config p) = inr url) /\
  ((exists e, getBackendUrl (config p) = inl e) <->
   backendUrl (config p) = None /\ vocodeConfig (config p) = None) /\
  (backendUrl (config p) = None -> vocodeConfig (config p) = None ->
   isSafari p || isChrome p = true ->
   is_Some (audioContext (hook w)) -> audioAnalyser (hook w) = true ->
   exists w',
     dispatch p EvStart w = (w', inl (MkError "Invalid config")) /\
     status (hook w') = st_connecting /\ error (hook w') = error (hook w) /\
     socket (hook w') = socket (hook w) /\ sockets w' = sockets w /\
     starts w' = starts w /\ outbound w' = outbound w /\
     status (hook (step p w EvStart)) = st_connecting /\
     uncaught (step p w EvStart) = (uncaught w ++ [MkError "Invalid config"])%list).
Proof.
  split; [| split].
  - intros url H. unfold getBackendUrl. now rewrite H.
  - split.
    + intros [e He]. apply getBackendUrl_error in He. tauto.
    + intros [H1 H2]. exists (MkError "Invalid config").
      apply getBackendUrl_error. auto.
  - intros Hb Hv Hbr [ctx Hctx] Han.
    assert (getBackendUrl (config p) = inl (MkError "Invalid config")) as E
      by (apply getBackendUrl_error; auto).
    assert (negb (isSafari p) && negb (isChrome p) = false) as Hneg
      by (destruct (isSafari p), (isChrome p); simpl in *; congruence).
    unfold step. simpl. unfold startConversation.
    rewrite Hctx, Han, Hneg, E. monad.
    destruct (suspended w) eqn:Hs; simpl; rewrite Hs; simpl;
      (eexists; split; [reflexivity |]; simpl;
       repeat (split; [reflexivity |]);
       match goal with |- context [commit ?x] => pose proof (commit_frame x) as F end;
       simpl in F; destruct F as (_ & _ & _ & _ & F5 & _ & _ & _ & _ & _ & _ & _ & _ & _ & F15 & _);
       rewrite F5, F15; split; reflexivity).
Qed.

Lemma X5_witness :
  exists w',
    dispatch invalid_on_chrome EvStart (run invalid_on_chrome (init ∅) [EvMount 48000 false])
      = (w', inl (MkError "Invalid config")) /\
    status (hook w') = st_connecting /\ error (hook w') = None /\
    socket (hook w') = None /\ sockets w' = [] /\
    starts w' = [] /\ outbound w' = [] /\
    status (hook (step invalid_on_chrome
                    (run invalid_on_chrome (init ∅) [EvMount 48000 false]) EvStart))
      = st_connecting /\
    uncaught (step invalid_on_chrome
                (run invalid_on_chrome (init ∅) [EvMount 48000 false]) EvStart)
      = [MkError "Invalid config"].
Proof.
  apply (proj2 (proj2 (X5_invalid_config_stalls_connecting invalid_on_chrome
                         (run invalid_on_chrome (init ∅) [EvMount 48000 false])))).
  - reflexivity.
  - reflexivity.
  - reflexivity.
  - vm_compute. eauto.
  - reflexivity.
Defined.

(** ** getAudioConfigStartMessage *)

Lemma or_num_nonzero a b : b <> 0 -> or_num a b <> 0.
Proof.
  intros Hb. unfold or_num. destruct a as [n |]; [| assumption].
  destruct (Z.eqb_spec n 0); assumption.
Qed.

(** X6. A configuration that lacks one of the four full-service fields
    is answered with [websocket_audio_config_start]: it carries the
    sampling rates and encodings of the two audio metadata, the
    configured chunk size when that is a non-zero number and 2048
    otherwise, so never a zero chunk size, and the configuration's
    downsampling, conversation id and transcript subscription as they
    are; no configuration object is written to. *)
Theorem X6_self_hosted_start_message (p : Props) (i o : AudioMetadata) (h : Heap) :
  ~ all_four (config p) ->
  fst (make_start_message p i o h) = h /\
  exists cfg,
    serialized_start p i o h =
      websocket_audio_config_start cfg o (conversationId (config p))
        (subscribeTranscript (config p)) /\
    in_samplingRate cfg = samplingRate i /\
    in_audioEncoding cfg = audioEncoding i /\
    in_downsampling cfg = downsampling (config p) /\
    in_chunkSize cfg <> 0 /\
    in_chunkSize cfg =
      match chunkSize (config p) with
      | Some c => if (c =? 0)%Z then 2048 else c
      | None => 2048
      end.
Proof.
  intros Hn. unfold serialized_start.
  rewrite (make_start_message_self_hosted p i o h Hn). simpl.
  split; [reflexivity |]. eexists. split.
  - destruct o. reflexivity.
  - simpl. repeat split. apply or_num_nonzero. discriminate.
Qed.

Lemma X6_witness :
  fst (make_start_message listen_only (linear16 44100) (linear16 48000) ∅) = ∅ /\
  exists cfg,
    serialized_start listen_only (linear16 44100) (linear16 48000) ∅ =
      websocket_audio_config_start cfg (linear16 48000) None None /\
    in_samplingRate cfg = 44100 /\
    in_audioEncoding cfg = "linear16" /\
    in_downsampling cfg = None /\
    in_chunkSize cfg <> 0 /\
    in_chunkSize cfg = 2048.
Proof.
  apply (X6_self_hosted_start_message listen_only (linear16 44100) (linear16 48000) ∅).
  unfold all_four. simpl. intros ([x Hx] & _). discriminate.
Defined.

(** ** The transcript as a whole *)

Lemma append_assoc (a b c : string) : (a ++ b) ++ c = a ++ (b ++ c).
Proof.
  induction a as [| x a IH]; [reflexivity |].
  change (String x ((a ++ b) ++ c) = String x (a ++ (b ++ c))).
  now rewrite IH.
Qed.

Lemma alternating_snoc2 l a b :
  alternating (l ++ [a; b]) <-> alternating (l ++ [a]) /\ sender a <> sender b.
Proof.
  induction l as [| x l IH]; simpl.
  - tauto.
  - destruct l as [| y l]; simpl in *; [tauto |].
    rewrite IH. tauto.
Qed.

Lemma alternating_replace_last l a a' :
  sender a' = sender a -> alternating (l ++ [a]) -> alternating (l ++ [a']).
Proof.
  intros Hs. induction l as [| x l IH]; [intros _; exact I |].
  destruct l as [| y l].
  - simpl. intros [H _]. split; [congruence | exact I].
  - change (alternating ((x :: y :: l) ++ [a]))
      with (sender x <> sender y /\ alternating ((y :: l) ++ [a])).
    change (alternating ((x :: y :: l) ++ [a']))
      with (sender x <> sender y /\ alternating ((y :: l) ++ [a'])).
    intros [H1 H2]. split; [assumption | auto].
Qed.

Lemma update_transcripts_alternating prev s t :
  alternating prev -> alternating (update_transcripts prev s t).
Proof.
  destruct prev as [| l prev _] using rev_ind; [intros _; exact I |].
  intros H. rewrite update_transcripts_snoc.
  destruct (decide (sender l = s)) as [E | E].
  - eapply alternating_replace_last; [| exact H]. simpl. congruence.
  - change [l; {| sender := s; text := t |}] with ([l] ++ [{| sender := s; text := t |}])%list.
    apply (alternating_snoc2 prev l {| sender := s; text := t |}). split; assumption.
Qed.

Lemma concat_snoc (l : list string) (a : string) :
  l <> [] -> String.concat " " (l ++ [a]) = String.concat " " l ++ " " ++ a.
Proof.
  induction l as [| x l IH]; [congruence |]. intros _.
  destruct l as [| y l]; [reflexivity |].
  change (String.concat " " ((x :: y :: l) ++ [a]))
    with (x ++ " " ++ String.concat " " ((y :: l) ++ [a])).
  rewrite IH by discriminate.
  change (String.concat " " (x :: y :: l)) with (x ++ " " ++ String.concat " " (y :: l)).
  now rewrite !append_assoc.
Qed.

Lemma transcript_text_snoc l a :
  transcript_text (l ++ [a]) =
  match l with [] => text a | _ => transcript_text l ++ " " ++ text a end.
Proof.
  unfold transcript_text. rewrite fmap_app. simpl.
  destruct l as [| x l]; [reflexivity |]. apply concat_snoc. discriminate.
Qed.

(** X7. One transcript fragment never touches the entries before the
    last one, adds at most one entry and removes none, and extends the
    transcript read as one text by a space and the fragment's text (by
    the text alone on the empty transcript), whoever the sender is:
    no fragment is lost and none is moved. *)
Theorem X7_fragment_extends_transcript (prev : list Transcript) (s t : string) :
  removelast prev `prefix_of` update_transcripts prev s t /\
  (length prev <= length (update_transcripts prev s t) <= S (length prev))%nat /\
  transcript_text (update_transcripts prev s t) =
    match prev with
    | [] => t
    | _ => transcript_text prev ++ " " ++ t
    end.
Proof.
  destruct prev as [| l prev _] using rev_ind.
  - simpl. repeat split; [apply prefix_nil | lia | lia].
  - rewrite update_transcripts_snoc, removelast_last.
    assert ((prev ++ [l])%list <> []) as Hne by (destruct prev; discriminate).
    destruct (decide (sender l = s)) as [E | E].
    + split; [now apply prefix_app_r |]. split; [rewrite !length_app; simpl; lia |].
      rewrite !transcript_text_snoc. simpl.
      destruct prev as [| x prev]; simpl.
      * reflexivity.
      * now rewrite !append_assoc.
    + split; [now apply prefix_app_r |]. split; [rewrite !length_app; simpl; lia |].
      change [l; {| sender := s; text := t |}] with ([l] ++ [{| sender := s; text := t |}])%list.
      rewrite app_assoc, transcript_text_snoc. simpl.
      destruct (prev ++ [l])%list eqn:E'; [congruence | reflexivity].
Qed.

Lemma dispatch_transcripts p e w :
  transcripts (hook (log_uncaught (dispatch p e w))) = transcripts (hook w) \/
  exists s t, transcripts (hook (log_uncaught (dispatch p e w))) =
              update_transcripts (transcripts (hook w)) s t.
Proof.
  destruct e; try (left; handlers; crunch; reflexivity).
  - destruct m; try (left; handlers; crunch; reflexivity).
    simpl. destruct (sockets w !! k) as [[] |]; simpl; eauto.
  - left. simpl. destruct (recorders w !! r); simpl; [| reflexivity].
    pose proof (fire_frame (listeners m) base64 w) as F. simpl in F.
    destruct F as (F1 & _). now rewrite F1.
Qed.

(** X8. In every world the hook can reach no two neighbouring entries
    of the transcript have the same sender: consecutive fragments of one
    speaker are always merged into one entry. *)
Theorem X8_transcript_alternates (p : Props) (h : Heap) (w : World) :
  reachable p h w -> alternating (transcripts (hook w)).
Proof.
  intros [evs ->]. unfold run.
  assert (alternating (transcripts (hook (init h)))) as H0 by exact I.
  revert H0. generalize (init h). induction evs as [| e evs IH]; intros w H; [exact H |].
  simpl. apply IH. unfold step.
  pose proof (commit_frame (log_uncaught (dispatch p e w))) as F. simpl in F.
  destruct F as (_ & _ & _ & _ & _ & _ & F7 & _). rewrite F7.
  destruct (dispatch_transcripts p e w) as [-> | (s & t & ->)]; [assumption |].
  now apply update_transcripts_alternating.
Qed.

Lemma X8_witness :
  alternating
    (transcripts
       (hook (run listen_only (init ∅)
                [EvMount 48000 false; EvStart; EvOpen 0%nat; EvPoll 0%nat;
                 EvMessage 0%nat (in_transcript "user" "hi");
                 EvMessage 0%nat (in_transcript "user" "there");
                 EvMessage 0%nat (in_transcript "agent" "hello");
                 EvMessage 0%nat (in_transcript "user" "bye")]))).
Proof.
  apply (X8_transcript_alternates listen_only ∅). eexists. reflexivity.
Defined.

(** ** stop(), whatever the closure holds *)

Lemma queue_fresh (w0 : World) (arrs : list (list Buffer)) :
  default [] ((arrs ++ [[]])%list !! length arrs) = [].
Proof. now rewrite list_lookup_middle. Qed.

Lemma stopConversation_always rec sock err w :
  let w' := fst (stopConversation rec sock err w) in
  queue w' = [] /\ currentSpeaker (hook w') = sp_none /\
  status (hook w') = match err with Some _ => st_error | None => st_idle end /\
  error (hook w') = match err with Some e => Some e | None => error (hook w) end /\
  processing (hook w') = processing (hook w) /\ active (hook w') = active (hook w) /\
  transcripts (hook w') = transcripts (hook w) /\
  recorder (hook w') = recorder (hook w) /\ socket (hook w') = socket (hook w) /\
  starts w' = starts w /\ playbacks w' = playbacks w /\ played w' = played w /\
  heap w' = heap w.
Proof.
  unfold stopConversation, recorder_stop, socket_send, socket_close. monad.
  crunch; unfold queue, array_of; simpl; rewrite ?list_lookup_middle by reflexivity;
    repeat split.
Qed.

(** X9. stop(), with or without an error and whatever recorder and
    socket its closure holds, also when [recorder.stop()] or
    [socket.send] throws: the audio queue is empty and the speaker
    [none] afterwards, the status is [error] when an error was passed
    and [idle] otherwise.  It never clears an error recorded earlier,
    never resets [processing], and leaves the transcript, the
    [active] flag and the [recorder] and [socket] state as they
    were. *)
Theorem X9_stop_postconditions (rec sock : option nat) (err : option Error) (w : World) :
  let w' := fst (stopConversation rec sock err w) in
  queue w' = [] /\ currentSpeaker (hook w') = sp_none /\
  status (hook w') = match err with Some _ => st_error | None => st_idle end /\
  error (hook w') = match err with Some e => Some e | None => error (hook w) end /\
  processing (hook w') = processing (hook w) /\ active (hook w') = active (hook w) /\
  transcripts (hook w') = transcripts (hook w) /\
  recorder (hook w') = recorder (hook w) /\ socket (hook w') = socket (hook w).
Proof.
  destruct (stopConversation_always rec sock err w)
    as (H1 & H2 & H3 & H4 & H5 & H6 & H7 & H8 & H9 & _).
  repeat split; assumption.
Qed.

Lemma commit_playback_side w :
  currentSpeaker (hook (commit w)) = currentSpeaker (hook w) /\
  playbacks w `prefix_of` playbacks (commit w).
Proof.
  unfold commit.
  pose proof (playback_effect_frame (listener_effect (set_renders (S (renders w)) w))) as P.
  pose proof (listener_effect_frame (set_renders (S (renders w)) w)) as L.
  cbv zeta in P, L.
  destruct P as (_ & _ & _ & P4 & _).
  destruct L as (L1 & _ & _ & _ & _ & _ & L7 & _).
  rewrite P4, L1. split; [reflexivity |].
  change (playbacks w) with (playbacks (set_renders (S (renders w)) w)).
  rewrite <- L7. unfold playback_effect.
  destruct (_ && _ && _); [| reflexivity].
  unfold array_of. simpl. destruct (default [] _); [reflexivity |].
  simpl. now apply prefix_app_r.
Qed.

Lemma log_uncaught_hook {A} (r : World * (Error + A)) :
  hook (log_uncaught r) = hook (fst r) /\ played (log_uncaught r) = played (fst r) /\
  playbacks (log_uncaught r) = playbacks (fst r) /\
  outbound (log_uncaught r) = outbound (fst r) /\
  sockets (log_uncaught r) = sockets (fst r) /\
  recorders (log_uncaught r) = recorders (fst r) /\
  starts (log_uncaught r) = starts (fst r) /\ arrays (log_uncaught r) = arrays (fst r).
Proof. destruct r as [w [e | a]]; repeat split. Qed.

(** X10. stop() does not cancel a chunk that was already taken off
    the queue: when its decode callback fires after the stop, the chunk
    is played and the speaker becomes [agent] although the session is
    idle. *)
Theorem X10_stop_keeps_chunk_in_flight (p : Props) (w : World) (i : nat) (b : Playback) :
  playbacks w !! i = Some b -> p_phase b = Fetching -> p_context b = true ->
  let w' := run p w [EvStop; EvDecoded i] in
  status (hook w') = st_idle /\ currentSpeaker (hook w') = sp_agent /\
  played w' = (played w ++ [p_audio b])%list.
Proof.
  intros Hi Hph Hc. cbv zeta. unfold run. cbn [fold_left].
  remember (step p w EvStop) as w1 eqn:E1.
  assert (playbacks w1 !! i = Some b /\ played w1 = played w /\ status (hook w1) = st_idle)
    as (P1 & P2 & P3).
  { subst w1. unfold step.
    pose proof (commit_frame (log_uncaught (dispatch p EvStop w))) as F.
    pose proof (commit_playback_side (log_uncaught (dispatch p EvStop w))) as [_ Hpre].
    destruct (dispatch_playback_frame p EvStop w ltac:(discriminate) ltac:(discriminate))
      as (D1 & D2 & D3).
    cbv zeta in F, D1, D2.
    destruct F as (_ & _ & _ & _ & F5 & _ & _ & _ & _ & _ & _ & _ & _ & F14 & _).
    rewrite F5, F14, D2. split; [| split; [reflexivity |]].
    - eapply prefix_lookup_Some; [| exact Hpre]. now rewrite D1.
    - destruct (log_uncaught_hook (dispatch p EvStop w)) as (-> & _).
      apply (stopConversation_always (recorder (hook w)) (socket (hook w)) None w). }
  clear E1. unfold step.
  assert (dispatch p (EvDecoded i) w1 =
          (set_playbacks (<[i := set_p_phase Playing b]> (playbacks w1))
             (set_played (played w1 ++ [p_audio b])%list
                (with_hook (set_currentSpeaker sp_agent) w1)), inr tt)) as ->.
  { simpl. unfold decoded. rewrite P1, Hph, Hc. reflexivity. }
  cbn [log_uncaught].
  match goal with |- context [commit ?x] =>
    pose proof (commit_frame x) as F; pose proof (commit_playback_side x) as [Hsp _]
  end.
  cbv zeta in F. destruct F as (_ & _ & _ & _ & F5 & _ & _ & _ & _ & _ & _ & _ & _ & F14 & _).
  rewrite F5, F14, Hsp. simpl. rewrite P2, P3. repeat split.
Qed.

Lemma X10_witness :
  let w := run listen_only (init ∅)
             [EvMount 48000 false; EvStart; EvOpen 0%nat; EvPoll 0%nat;
              EvMessage 0%nat (in_audio "A")] in
  let w' := run listen_only w [EvStop; EvDecoded 0%nat] in
  status (hook w') = st_idle /\ currentSpeaker (hook w') = sp_agent /\
  played w' = (played w ++ ["A"])%list.
Proof.
  apply (X10_stop_keeps_chunk_in_flight listen_only _ 0%nat
           {| p_audio := "A"; p_queue := 1%nat; p_context := true; p_phase := Fetching |});
    reflexivity.
Defined.

(** ** What stop() does to the channel *)

Lemma fmap_listeners_insert (l : list MediaRecorder) r rc v :
  l !! r = Some rc ->
  listeners <$> <[r := set_rec_state v rc]> l = listeners <$> l.
Proof.
  intros Hr. rewrite list_fmap_insert. simpl.
  apply list_insert_id. rewrite list_lookup_fmap, Hr. reflexivity.
Qed.

Lemma stopConversation_channel rec sock err w :
  let w' := fst (stopConversation rec sock err w) in
  (outbound w' = outbound w \/
   exists r k, rec = Some r /\ sock = Some k /\ is_Some (recorders w !! r) /\
               sockets w !! k = Some OPEN /\
               outbound w' = (outbound w ++ [(k, websocket_stop)])%list) /\
  (sockets w' = sockets w \/
   exists k rs, sock = Some k /\ sockets w !! k = Some rs /\
                (rs = CONNECTING \/ rs = OPEN) /\
                sockets w' = <[k := CLOSING]> (sockets w)) /\
  length (recorders w') = length (recorders w) /\
  listeners <$> recorders w' = listeners <$> recorders w /\
  (rec = None \/ sock = None -> recorders w' = recorders w /\ outbound w' = outbound w /\
                                sockets w' = sockets w).
Proof.
  unfold stopConversation, recorder_stop, socket_send, socket_close. monad.
  destruct err; simpl;
    (destruct rec as [r |], sock as [k |]; simpl;
     [| repeat split; auto .. ]);
    (destruct (recorders w !! r) as [rc |] eqn:Hr; simpl;
     [destruct (rec_state rc) eqn:Hst; simpl |];
     try (repeat split; auto; intros [? | ?]; discriminate));
    (destruct (sockets w !! k) as [[] |] eqn:Hk; simpl; rewrite ?Hk; simpl;
     (split; [first [left; reflexivity | right; exists r, k; eauto 10] |]);
     (split; [first [left; reflexivity | right; eexists k, _; eauto 10] |]);
     (split; [now rewrite ?length_insert |]);
     (split; [first [reflexivity | now apply fmap_listeners_insert]
             | intros [? | ?]; discriminate])).
Qed.

Lemma listener_effect_quiet w :
  status (hook w) <> st_connected -> recorders (listener_effect w) = recorders w.
Proof.
  intros Hs. unfold listener_effect.
  destruct (decide _); [reflexivity |].
  destruct (recorder (hook w)), (socket (hook w)); try reflexivity.
  destruct (status (hook w)); try reflexivity. congruence.
Qed.

Lemma commit_quiet w :
  status (hook w) <> st_connected -> recorders (commit w) = recorders w.
Proof.
  intros Hs. unfold commit.
  pose proof (playback_effect_frame (listener_effect (set_renders (S (renders w)) w))) as P.
  cbv zeta in P. destruct P as (_ & _ & _ & _ & _ & _ & _ & _ & _ & _ & _ & _ & _ & P14 & _).
  rewrite P14, listener_effect_quiet; [reflexivity | exact Hs].
Qed.

(** ** Transport error, then close *)

Lemma commit_empty_queue w : queue w = [] -> queue (commit w) = [].
Proof.
  intros H. rewrite view_queue, view_commit. unfold view_effect.
  rewrite <- view_queue, H. simpl. rewrite andb_false_r. simpl.
  now rewrite <- view_queue.
Qed.

Lemma close_dispatch p w k t rs :
  starts w !! k = Some t -> sockets w !! k = Some rs -> rs <> CLOSED ->
  dispatch p (EvClose k) w =
  stopConversation (t_recorder t) (t_socket t) (t_error t)
    (set_sockets (<[k := CLOSED]> (sockets w)) w).
Proof.
  intros Ht Hk Hrs. simpl. rewrite Hk. unfold onclose. simpl. rewrite Ht.
  destruct rs; try reflexivity. congruence.
Qed.

(** X11. When a socket that is not yet closed closes, the session
    ends [idle] if no transport error was seen on that socket, keeping
    whatever error was recorded before, and ends [error] with that
    error otherwise; the queue is flushed and the speaker is [none].
    In particular an error event followed by the close leaves the
    status [error] with "See console for error details": the error is
    attached at close time. *)
Theorem X11_close_after_error (p : Props) (w : World) (k : nat) (t : StartTask)
    (rs : ReadyState) :
  starts w !! k = Some t -> sockets w !! k = Some rs -> rs <> CLOSED ->
  (let w1 := step p w (EvClose k) in
   status (hook w1) = match t_error t with Some _ => st_error | None => st_idle end /\
   error (hook w1) = match t_error t with Some e => Some e | None => error (hook w) end /\
   currentSpeaker (hook w1) = sp_none /\ queue w1 = []) /\
  (let w2 := run p w [EvSocketError k; EvClose k] in
   status (hook w2) = st_error /\
   error (hook w2) = Some (MkError "See console for error details") /\
   currentSpeaker (hook w2) = sp_none /\ queue w2 = []).
Proof.
  intros Ht Hk Hrs.
  assert (forall w0 t0 rs0,
            starts w0 !! k = Some t0 -> sockets w0 !! k = Some rs0 -> rs0 <> CLOSED ->
            status (hook (step p w0 (EvClose k))) =
              match t_error t0 with Some _ => st_error | None => st_idle end /\
            error (hook (step p w0 (EvClose k))) =
              match t_error t0 with Some e => Some e | None => error (hook w0) end /\
            currentSpeaker (hook (step p w0 (EvClose k))) = sp_none /\
            queue (step p w0 (EvClose k)) = []) as Hclose.
  { intros w0 t0 rs0 Ht0 Hk0 Hrs0. unfold step.
    rewrite (close_dispatch p w0 k t0 rs0 Ht0 Hk0 Hrs0).
    match goal with |- context [commit ?x] =>
      pose proof (commit_frame x) as F; pose proof (commit_playback_side x) as [Hsp _];
      pose proof (commit_empty_queue x) as Hq
    end.
    cbv zeta in F. destruct F as (_ & _ & _ & _ & F5 & F6 & _).
    rewrite F5, F6, Hsp.
    destruct (log_uncaught_hook
                (stopConversation (t_recorder t0) (t_socket t0) (t_error t0)
                   (set_sockets (<[k := CLOSED]> (sockets w0)) w0)))
      as (L1 & _ & _ & _ & _ & _ & _ & L8).
    destruct (stopConversation_always (t_recorder t0) (t_socket t0) (t_error t0)
                (set_sockets (<[k := CLOSED]> (sockets w0)) w0))
      as (S1 & S2 & S3 & S4 & _).
    cbv zeta in S1, S2, S3, S4.
    split; [now rewrite L1, S3 |]. split; [now rewrite L1, S4 |].
    split; [now rewrite L1, S2 |].
    apply Hq. unfold queue, array_of in *. now rewrite L1, L8. }
  split; [exact (Hclose w t rs Ht Hk Hrs) |].
  cbv zeta. unfold run. cbn [fold_left].
  remember (step p w (EvSocketError k)) as w1 eqn:E1.
  assert (starts w1 !! k =
            Some (set_t_error (Some (MkError "See console for error details")) t) /\
          sockets w1 !! k = Some rs) as [Ht1 Hk1].
  { subst w1. unfold step.
    pose proof (commit_frame (log_uncaught (dispatch p (EvSocketError k) w))) as F.
    cbv zeta in F. destruct F as (_ & _ & _ & _ & _ & _ & _ & _ & _ & _ & F11 & F12 & _).
    rewrite F11, F12. simpl. rewrite Hk. unfold onerror. monad.
    destruct rs; try congruence; simpl; rewrite list_lookup_alter_eq, Ht; split; first [reflexivity | assumption]. }
  clear E1. destruct (Hclose w1 _ rs Ht1 Hk1 Hrs) as (C1 & C2 & C3 & C4).
  simpl in C1, C2. repeat split; assumption.
Qed.

Lemma X11_witness :
  let w := run listen_only (init ∅)
             [EvMount 48000 false; EvStart; EvOpen 0%nat; EvPoll 0%nat;
              EvMessage 0%nat (in_audio "A"); EvMessage 0%nat (in_audio "B");
              EvMessage 0%nat (in_audio "C")] in
  queue w = ["B"; "C"] /\
  (let w1 := step listen_only w (EvClose 0%nat) in
   status (hook w1) = st_idle /\ error (hook w1) = None /\
   currentSpeaker (hook w1) = sp_none /\ queue w1 = []) /\
  (let w2 := run listen_only w [EvSocketError 0%nat; EvClose 0%nat] in
   status (hook w2) = st_error /\
   error (hook w2) = Some (MkError "See console for error details") /\
   currentSpeaker (hook w2) = sp_none /\ queue w2 = []).
Proof.
  split; [reflexivity |].
  apply (X11_close_after_error listen_only
           (run listen_only (init ∅)
              [EvMount 48000 false; EvStart; EvOpen 0%nat; EvPoll 0%nat;
               EvMessage 0%nat (in_audio "A"); EvMessage 0%nat (in_audio "B");
               EvMessage 0%nat (in_audio "C")]) 0%nat
           {| t_recorder := None; t_socket := None; t_sampleRate := 48000;
              t_error := None; t_phase := Sent |} OPEN).
  - reflexivity.
  - reflexivity.
  - discriminate.
Defined.

(** ** The closure of the first start() *)

Lemma closures_alter (f : StartTask -> StartTask) k (l : list StartTask) :
  (forall t, t_recorder (f t) = t_recorder t /\ t_socket (f t) = t_socket t) ->
  (fun t => (t_recorder t, t_socket t)) <$> alter f k l =
  (fun t => (t_recorder t, t_socket t)) <$> l.
Proof.
  intros Hf. revert k. induction l as [| x l IH]; intros k; [reflexivity |].
  destruct k as [| k]; simpl.
  - destruct (Hf x) as [-> ->]. reflexivity.
  - f_equal. apply IH.
Qed.

Lemma closures_set_phase v k (l : list StartTask) :
  (fun t => (t_recorder t, t_socket t)) <$> alter (set_phase v) k l =
  (fun t => (t_recorder t, t_socket t)) <$> l.
Proof. apply closures_alter. intros t. split; reflexivity. Qed.

Lemma closures_set_t_error v k (l : list StartTask) :
  (fun t => (t_recorder t, t_socket t)) <$> alter (set_t_error v) k l =
  (fun t => (t_recorder t, t_socket t)) <$> l.
Proof. apply closures_alter. intros t. split; reflexivity. Qed.

Ltac closure_leaf :=
  unfold closures; simpl;
  rewrite ?closures_set_phase, ?closures_set_t_error, ?fmap_app; simpl;
  first
    [ left; split; [reflexivity |];
      intros Hnil; repeat split;
      first [reflexivity | rewrite Hnil in *; simpl in *; discriminate]
    | right; reflexivity ].

Lemma stopConversation_closures rec sock err w :
  let w' := fst (stopConversation rec sock err w) in
  starts w' = starts w /\ socket (hook w') = socket (hook w) /\
  recorder (hook w') = recorder (hook w).
Proof.
  destruct (stopConversation_always rec sock err w)
    as (_ & _ & _ & _ & _ & _ & _ & H8 & H9 & H10 & _).
  auto.
Qed.

(** An event either leaves the captured values alone, and then it
    sets the [socket] or [recorder] state only if some call is
    suspended, or it suspends one more call, which captured the state
    of the moment. *)
Lemma dispatch_closures p e w :
  let w' := log_uncaught (dispatch p e w) in
  (closures w' = closures w /\
   (starts w = [] ->
    socket (hook w') = socket (hook w) /\ recorder (hook w') = recorder (hook w))) \/
  closures w' = (closures w ++ [(recorder (hook w), socket (hook w))])%list.
Proof.
  destruct e; try (handlers; crunch; closure_leaf; fail).
  - (* start *)
    cbv zeta. change (dispatch p EvStart w) with (startConversation p (hook w) w).
    destruct (audioContext (hook w)) as [ctx |] eqn:Hc.
    2: { assert (startConversation p (hook w) w = (w, inr tt)) as ->
           by (unfold startConversation; rewrite Hc; reflexivity).
         closure_leaf. }
    destruct (audioAnalyser (hook w)) eqn:Ha.
    2: { assert (startConversation p (hook w) w = (w, inr tt)) as ->
           by (unfold startConversation; rewrite Hc, Ha; reflexivity).
         closure_leaf. }
    destruct (negb (isSafari p) && negb (isChrome p)) eqn:Hb.
    + assert (startConversation p (hook w) w =
              stopConversation (recorder (hook w)) (socket (hook w))
                (Some (MkError "Unsupported browser"))
                (with_hook (set_status st_connecting) w)) as ->
        by (unfold startConversation; rewrite Hc, Ha, Hb; reflexivity).
      destruct (stopConversation_closures (recorder (hook w)) (socket (hook w))
                  (Some (MkError "Unsupported browser"))
                  (with_hook (set_status st_connecting) w)) as (S1 & S2 & S3).
      destruct (log_uncaught_hook
                  (stopConversation (recorder (hook w)) (socket (hook w))
                     (Some (MkError "Unsupported browser"))
                     (with_hook (set_status st_connecting) w)))
        as (L1 & _ & _ & _ & _ & _ & L7 & _).
      left. unfold closures. split; [rewrite L7, S1; reflexivity |].
      intros _. rewrite L1, S2, S3. auto.
    + unfold startConversation. rewrite Hc, Ha, Hb. monad.
      destruct (getBackendUrl (config p)); destruct (suspended w) eqn:Hs;
        simpl; rewrite ?Hs; simpl; closure_leaf.
  - (* stop *)
    cbv zeta. simpl.
    destruct (stopConversation_closures (recorder (hook w)) (socket (hook w)) None w)
      as (S1 & S2 & S3).
    destruct (log_uncaught_hook
                (stopConversation (recorder (hook w)) (socket (hook w)) None w))
      as (L1 & _ & _ & _ & _ & _ & L7 & _).
    left. unfold closures. split; [rewrite L7, S1; reflexivity |].
    intros _. rewrite L1, S2, S3. auto.
  - (* data *)
    simpl. destruct (recorders w !! r); simpl; [| closure_leaf].
    pose proof (fire_frame (listeners m) base64 w) as F. cbv zeta in F.
    destruct F as (F1 & _ & _ & _ & _ & F6 & _).
    left. unfold closures. rewrite F1, F6. auto.
Qed.

Lemma first_closure_step p e w :
  (starts w = [] -> socket (hook w) = None /\ recorder (hook w) = None) ->
  (forall c, closures w !! 0%nat = Some c -> c = (None, None)) ->
  (starts (step p w e) = [] ->
   socket (hook (step p w e)) = None /\ recorder (hook (step p w e)) = None) /\
  (forall c, closures (step p w e) !! 0%nat = Some c -> c = (None, None)).
Proof.
  intros H1 H2. unfold step.
  pose proof (commit_frame (log_uncaught (dispatch p e w))) as F. cbv zeta in F.
  destruct F as (_ & _ & F3 & F4 & _ & _ & _ & _ & _ & _ & _ & F12 & _).
  unfold closures in *. rewrite F3, F4, F12.
  destruct (dispatch_closures p e w) as [[Hc Hh] | Hc]; cbv zeta in *;
    unfold closures in *.
  - split.
    + intros Hn. assert (starts w = []) as Hw.
      { apply (f_equal length) in Hc. rewrite !length_fmap, Hn in Hc.
        destruct (starts w); [reflexivity | discriminate]. }
      destruct (Hh Hw) as [-> ->]. auto.
    + intros c. rewrite Hc. apply H2.
  - split.
    + intros Hn. apply (f_equal length) in Hc.
      rewrite length_app, !length_fmap, Hn in Hc. simpl in Hc. lia.
    + intros c. rewrite Hc. destruct (starts w) as [| t l] eqn:Es.
      * simpl. destruct (H1 eq_refl) as [-> ->]. congruence.
      * simpl. intros Hx. apply (H2 c). exact Hx.
Qed.

Lemma first_closure_reachable p h w :
  reachable p h w ->
  forall t, starts w !! 0%nat = Some t -> t_recorder t = None /\ t_socket t = None.
Proof.
  intros [evs ->].
  assert ((starts (run p (init h) evs) = [] ->
           socket (hook (run p (init h) evs)) = None /\
           recorder (hook (run p (init h) evs)) = None) /\
          (forall c, closures (run p (init h) evs) !! 0%nat = Some c -> c = (None, None)))
    as [_ H].
  { unfold run.
    assert ((starts (init h) = [] ->
             socket (hook (init h)) = None /\ recorder (hook (init h)) = None) /\
            (forall c, closures (init h) !! 0%nat = Some c -> c = (None, None))) as H0.
    { split; [auto | intros c Hc; discriminate]. }
    revert H0. generalize (init h).
    induction evs as [| e evs IH]; intros w H; [exact H |].
    simpl. apply IH. destruct H as [H1 H2]. now apply first_closure_step. }
  intros t Ht. specialize (H (t_recorder t, t_socket t)).
  unfold closures in H. rewrite list_lookup_fmap, Ht in H.
  specialize (H eq_refl). inversion H. auto.
Qed.

(** Every suspended call owns one socket. *)
Lemma dispatch_aligned p e w :
  let w' := log_uncaught (dispatch p e w) in
  (length (starts w') = length (starts w) /\ length (sockets w') = length (sockets w)) \/
  (length (starts w') = S (length (starts w)) /\
   length (sockets w') = S (length (sockets w))).
Proof.
  destruct e;
    try (handlers; crunch;
         rewrite ?length_alter, ?length_insert, ?length_app; simpl;
         first [left; split; reflexivity | right; split; lia]; fail).
  simpl. destruct (recorders w !! r); simpl; [| left; split; reflexivity].
  pose proof (fire_frame (listeners m) base64 w) as F. cbv zeta in F.
  destruct F as (_ & _ & F3 & _ & _ & F6 & _).
  left. now rewrite F3, F6.
Qed.

Lemma aligned_reachable p h w : reachable p h w -> length (starts w) = length (sockets w).
Proof.
  intros [evs ->]. unfold run.
  assert (length (starts (init h)) = length (sockets (init h))) as H0 by reflexivity.
  revert H0. generalize (init h).
  induction evs as [| e evs IH]; intros w H; [exact H |].
  simpl. apply IH. unfold step.
  pose proof (commit_frame (log_uncaught (dispatch p e w))) as F. cbv zeta in F.
  destruct F as (_ & _ & _ & _ & _ & _ & _ & _ & _ & _ & F11 & F12 & _).
  rewrite F11, F12.
  destruct (dispatch_aligned p e w) as [[-> ->] | [-> ->]]; lia.
Qed.

(** X12. The closure of the hook's first start() captured neither a
    recorder nor a socket, so when the socket of that first call
    closes, the [stopConversation] of its [onclose] returns before
    [recorder.stop()]: every recorder is left in the state it was in,
    still recording if it was, and no [websocket_stop] or other frame is
    sent. *)
Theorem X12_first_close_leaves_recorder (p : Props) (h : Heap) (w : World)
    (rs : ReadyState) :
  reachable p h w -> sockets w !! 0%nat = Some rs -> rs <> CLOSED ->
  let w' := step p w (EvClose 0%nat) in
  recorders w' = recorders w /\ outbound w' = outbound w /\
  sockets w' = <[0%nat := CLOSED]> (sockets w) /\
  status (hook w') <> st_connected.
Proof.
  intros Hr Hk Hrs. cbv zeta.
  destruct (starts w !! 0%nat) as [t |] eqn:Ht.
  - destruct (first_closure_reachable p h w Hr t Ht) as [Hrec Hsock].
    unfold step. rewrite (close_dispatch p w 0%nat t rs Ht Hk Hrs), Hrec, Hsock.
    rewrite stopConversation_early by now left.
    cbn [log_uncaught].
    match goal with |- context [commit ?x] =>
      pose proof (commit_frame x) as F; pose proof (commit_quiet x) as Q
    end.
    cbv zeta in F.
    destruct F as (_ & _ & _ & _ & F5 & _ & _ & _ & _ & _ & F11 & _ & F13 & _).
    rewrite F5, F11, F13, Q.
    + simpl. repeat split. destruct (t_error t); discriminate.
    + simpl. destruct (t_error t); discriminate.
  - pose proof (aligned_reachable p h w Hr) as Hal.
    apply lookup_ge_None in Ht. apply lookup_lt_Some in Hk. lia.
Qed.

Lemma X12_witness :
  let w := run hosted_on_safari (init hosted_heap)
             [EvMount 48000 false; EvStart; EvOpen 0%nat; EvPoll 0%nat;
              EvMicrophone 0%nat (MicGranted (Some 44100)); EvMessage 0%nat in_ready] in
  let w' := step hosted_on_safari w (EvClose 0%nat) in
  recorders w' = recorders w /\ outbound w' = outbound w /\
  sockets w' = <[0%nat := CLOSED]> (sockets w) /\
  status (hook w') <> st_connected.
Proof.
  apply (X12_first_close_leaves_recorder hosted_on_safari hosted_heap
           (run hosted_on_safari (init hosted_heap)
              [EvMount 48000 false; EvStart; EvOpen 0%nat; EvPoll 0%nat;
               EvMicrophone 0%nat (MicGranted (Some 44100)); EvMessage 0%nat in_ready])
           OPEN).
  - eexists. reflexivity.
  - reflexivity.
  - discriminate.
Defined.

(** ** The microphone is refused *)

Lemma stopConversation_uncaught rec sock err w :
  uncaught (fst (stopConversation rec sock err w)) = uncaught w.
Proof.
  unfold stopConversation, recorder_stop, socket_send, socket_close. monad.
  crunch; reflexivity.
Qed.

Lemma microphone_denied_dispatch p w k t :
  starts w !! k = Some t -> t_phase t = AwaitMic ->
  exists e,
    dispatch p (EvMicrophone k MicNotAllowed) w =
    (fst (stopConversation (t_recorder t) (t_socket t)
            (Some (MkError "Microphone access denied"))
            (set_starts (alter (set_phase Failed) k (starts w)) w)), inl e).
Proof.
  intros Ht Hph. simpl. unfold microphone. rewrite Ht, Hph.
  unfold bind at 1. unfold setPhase, modify. cbn beta iota.
  unfold bind at 1.
  destruct (stopConversation _ _ _ _) as [w1 [e | []]]; simpl; eauto.
Qed.

(** X13. When [getUserMedia] rejects with NotAllowedError while a call
    of start() waits for it, the session goes to [error] with
    "Microphone access denied", the call is over and its promise
    rejects ([getAudioTracks] of undefined), handled by nobody; that
    call sends no start message and creates no recorder. *)
Theorem X13_microphone_denied (p : Props) (w : World) (k : nat) (t : StartTask) :
  starts w !! k = Some t -> t_phase t = AwaitMic ->
  let w' := step p w (EvMicrophone k MicNotAllowed) in
  status (hook w') = st_error /\
  error (hook w') = Some (MkError "Microphone access denied") /\
  length (uncaught w') = S (length (uncaught w)) /\
  t_phase <$> starts w' !! k = Some Failed /\
  List.filter (fun f => is_start_variant (snd f)) (outbound w') =
    List.filter (fun f => is_start_variant (snd f)) (outbound w) /\
  length (recorders w') = length (recorders w).
Proof.
  intros Ht Hph. cbv zeta. unfold step.
  destruct (microphone_denied_dispatch p w k t Ht Hph) as [e ->].
  set (w0 := set_starts (alter (set_phase Failed) k (starts w)) w).
  destruct (stopConversation_always (t_recorder t) (t_socket t)
              (Some (MkError "Microphone access denied")) w0)
    as (_ & _ & S3 & S4 & _ & _ & _ & _ & _ & S10 & _).
  destruct (stopConversation_channel (t_recorder t) (t_socket t)
              (Some (MkError "Microphone access denied")) w0)
    as (C1 & _ & C3 & _).
  cbv zeta in S3, S4, S10, C1, C3.
  pose proof (stopConversation_uncaught (t_recorder t) (t_socket t)
                (Some (MkError "Microphone access denied")) w0) as U.
  match goal with |- context [commit ?x] => pose proof (commit_frame x) as F end.
  cbv zeta in F.
  destruct F as (_ & _ & _ & _ & F5 & F6 & _ & _ & _ & _ & _ & F12 & F13 & _ & F15 & F16).
  rewrite F5, F6, F12, F13, F15, F16. cbn [log_uncaught].
  cbn [hook set_uncaught uncaught starts outbound recorders].
  rewrite S3, S4, S10, C3.
  split; [reflexivity |]. split; [reflexivity |].
  split; [rewrite length_app, U; simpl; lia |].
  split; [subst w0; simpl; rewrite list_lookup_alter_eq, Ht; reflexivity |].
  split; [| reflexivity].
  destruct C1 as [-> | (r & k' & _ & _ & _ & _ & ->)]; [reflexivity |].
  rewrite List.filter_app. simpl. now rewrite app_nil_r.
Qed.

Lemma X13_witness :
  let w := run hosted_on_safari (init hosted_heap)
             [EvMount 48000 false; EvStart; EvOpen 0%nat; EvPoll 0%nat] in
  let w' := step hosted_on_safari w (EvMicrophone 0%nat MicNotAllowed) in
  status (hook w') = st_error /\
  error (hook w') = Some (MkError "Microphone access denied") /\
  length (uncaught w') = S (length (uncaught w)) /\
  t_phase <$> starts w' !! 0%nat = Some Failed /\
  List.filter (fun f => is_start_variant (snd f)) (outbound w') =
    List.filter (fun f => is_start_variant (snd f)) (outbound w) /\
  length (recorders w') = length (recorders w).
Proof.
  apply (X13_microphone_denied hosted_on_safari
           (run hosted_on_safari (init hosted_heap)
              [EvMount 48000 false; EvStart; EvOpen 0%nat; EvPoll 0%nat]) 0%nat
           {| t_recorder := None; t_socket := None; t_sampleRate := 48000;
              t_error := None; t_phase := AwaitMic |}); reflexivity.
Defined.

(** ** The handshake *)

Lemma starts_on_app k out1 out2 :
  starts_on k (out1 ++ out2) = (starts_on k out1 ++ starts_on k out2)%list.
Proof. apply List.filter_app. Qed.

Lemma starts_on_other k k' m :
  k' <> k \/ is_start_variant m = false -> starts_on k [(k', m)] = [].
Proof.
  intros H. unfold starts_on. simpl.
  destruct (Nat.eqb_spec k' k); simpl; [| reflexivity].
  destruct H as [H | H]; [contradiction | now rewrite H].
Qed.

Lemma starts_on_bound k (out : list (nat * OutMsg)) :
  (forall m, (k, m) ∈ out -> False) -> starts_on k out = [].
Proof.
  intros H. induction out as [| [k' m] out IH]; [reflexivity |].
  unfold starts_on in *. simpl.
  destruct (Nat.eqb_spec k' k) as [-> | Hne]; simpl.
  - exfalso. apply (H m). left.
  - apply IH. intros m' Hm. apply (H m'). now right.
Qed.

Lemma first_is_start_app out f :
  out <> [] -> first_is_start out -> first_is_start (out ++ [f]).
Proof. destruct out; [congruence | auto]. Qed.

Lemma phase_lookup_insert (l : list StartPhase) k k' v :
  is_Some (l !! k) ->
  <[k := v]> l !! k' = if decide (k = k') then Some v else l !! k'.
Proof.
  intros Hk. destruct (decide (k = k')) as [<- | Hne].
  - apply list_lookup_insert_eq. now apply lookup_lt_is_Some.
  - now apply list_lookup_insert_ne.
Qed.

Lemma proto_inv_step a b : pstep a b -> proto_inv a -> proto_inv b.
Proof.
  intros Hstep (Ia & Ib & If & I1 & I2 & Ik).
  destruct Hstep as [a k rs rs' Hk Hrk | a k m Hk Hm Hrec | a | a k Hph Hk | a k Hph
                    | a k ph rs m Hph Hphs Hk Hrs Hm | a k Hph];
    unfold proto_inv; simpl.
  - (* a socket moves forward *)
    pose proof (lookup_lt_Some _ _ _ Hk) as Hlt.
    split; [now rewrite length_insert |]. split; [exact Ib |].
    split; [| split; [exact I1 | split]].
    + intros k' m Hin. destruct (If k' m Hin) as (rs0 & Hrs0 & Hne).
      destruct (decide (k = k')) as [<- | Hkk].
      * exists rs'. rewrite list_lookup_insert_eq by assumption. split; [reflexivity |].
        assert (rs0 = rs) by congruence. subst rs0.
        intros ->. destruct rs; simpl in Hrk; try lia. congruence.
      * exists rs0. now rewrite list_lookup_insert_ne.
    + intros k' Hs. destruct (I2 k' Hs) as [? | (rs0 & Hrs0 & Hr)]; [now left |].
      right. destruct (decide (k = k')) as [<- | Hkk].
      * exists rs'. rewrite list_lookup_insert_eq by assumption. split; [reflexivity |].
        assert (rs0 = rs) by congruence. subst rs0. lia.
      * exists rs0. now rewrite list_lookup_insert_ne.
    + rewrite length_insert. exact Ik.
  - (* another frame *)
    split; [exact Ia |]. split; [| split; [| split; [exact I1 | split]]].
    + intros k'. rewrite starts_on_app, (starts_on_other k' k m) by now right.
      rewrite app_nil_r. apply Ib.
    + intros k' m' Hin. apply elem_of_app in Hin as [Hin | Hin]; [exact (If _ _ Hin) |].
      apply list_elem_of_singleton in Hin. inversion Hin; subst. exists OPEN.
      split; [assumption | discriminate].
    + intros k' Hs. destruct (I2 k' Hs) as [(m' & Hin & Hm') | ?]; [| now right].
      left. exists m'. split; [| assumption]. apply elem_of_app. now left.
    + intros Hlen. apply first_is_start_app; [| now apply Ik].
      intros Hnil. destruct (I1 Hrec) as [k' Hs].
      pose proof (lookup_lt_Some _ _ _ Hs) as Hlt'.
      pose proof (lookup_lt_Some _ _ _ Hk) as Hlt.
      assert (k' = k) as -> by lia.
      destruct (I2 k Hs) as [(m' & Hin & _) | (rs0 & Hrs0 & Hr)].
      * rewrite Hnil in Hin. now apply elem_of_nil in Hin.
      * assert (rs0 = OPEN) by congruence. subst rs0. simpl in Hr. lia.
  - (* a new call *)
    split; [rewrite !length_app; simpl; lia |]. split; [| split; [| split; [| split]]].
    + intros k. destruct (decide (k < length (pr_phases a))%nat) as [Hlt | Hge].
      * rewrite lookup_app_l by assumption. apply Ib.
      * rewrite (starts_on_bound k (pr_out a)); [simpl; lia |].
        intros m Hin. destruct (If k m Hin) as (rs & Hrs & _).
        apply lookup_lt_Some in Hrs. lia.
    + intros k m Hin. destruct (If k m Hin) as (rs & Hrs & Hne).
      exists rs. split; [| assumption]. apply lookup_app_l_Some. assumption.
    + intros Hrec. destruct (I1 Hrec) as [k Hs]. exists k.
      now apply lookup_app_l_Some.
    + intros k Hs.
      assert (pr_phases a !! k = Some Sent) as Hs'.
      { destruct (decide (k < length (pr_phases a))%nat) as [Hlt | Hge].
        - now rewrite lookup_app_l in Hs.
        - rewrite lookup_app_r in Hs by lia.
          destruct (k - length (pr_phases a))%nat; simpl in Hs; discriminate. }
      destruct (I2 k Hs') as [? | (rs & Hrs & Hr)]; [now left |].
      right. exists rs. split; [| assumption]. now apply lookup_app_l_Some.
    + rewrite length_app. simpl. intros Hlen. apply Ik. lia.
  - (* waiting for the microphone *)
    pose proof (mk_is_Some _ _ Hph) as Hsome.
    split; [now rewrite length_insert |]. split; [| split; [exact If | split; [| split]]].
    + intros k'. rewrite phase_lookup_insert by assumption.
      destruct (decide (k = k')) as [<- | _]; [| apply Ib].
      specialize (Ib k). rewrite Hph in Ib. exact Ib.
    + intros Hrec. destruct (I1 Hrec) as [k' Hs]. exists k'.
      rewrite phase_lookup_insert by assumption.
      destruct (decide (k = k')) as [<- | _]; [congruence | assumption].
    + intros k'. rewrite phase_lookup_insert by assumption.
      destruct (decide (k = k')) as [<- | _]; [discriminate | apply I2].
    + exact Ik.
  - (* the call fails *)
    pose proof (mk_is_Some _ _ Hph) as Hsome.
    split; [now rewrite length_insert |]. split; [| split; [exact If | split; [| split]]].
    + intros k'. rewrite phase_lookup_insert by assumption.
      destruct (decide (k = k')) as [<- | _]; [| apply Ib].
      specialize (Ib k). rewrite Hph in Ib. exact Ib.
    + intros Hrec. destruct (I1 Hrec) as [k' Hs]. exists k'.
      rewrite phase_lookup_insert by assumption.
      destruct (decide (k = k')) as [<- | _]; [congruence | assumption].
    + intros k'. rewrite phase_lookup_insert by assumption.
      destruct (decide (k = k')) as [<- | _]; [discriminate | apply I2].
    + exact Ik.
  - (* the start message *)
    pose proof (mk_is_Some _ _ Hph) as Hsome.
    assert (length (starts_on k (pr_out a)) = 0%nat) as Hzero.
    { specialize (Ib k). rewrite Hph in Ib.
      destruct Hphs as [-> | ->]; lia. }
    assert (starts_on k [(k, m)] = [(k, m)]) as Hone.
    { unfold starts_on. simpl. now rewrite Nat.eqb_refl, Hm. }
    split; [now rewrite length_insert |]. split; [| split; [| split; [| split]]].
    + intros k'. rewrite phase_lookup_insert by assumption.
      destruct (decide (k = k')) as [<- | Hne].
      * destruct rs; try (rewrite Hzero; lia).
        rewrite starts_on_app, length_app, Hzero, Hone. simpl. lia.
      * destruct rs; try apply Ib.
        rewrite starts_on_app, (starts_on_other k' k m) by now left.
        rewrite app_nil_r. apply Ib.
    + intros k' m' Hin.
      destruct rs; try exact (If _ _ Hin).
      apply elem_of_app in Hin as [Hin | Hin]; [exact (If _ _ Hin) |].
      apply list_elem_of_singleton in Hin. inversion Hin; subst. exists OPEN.
      split; [assumption | discriminate].
    + intros _. exists k. now rewrite phase_lookup_insert, decide_True.
    + intros k'. rewrite phase_lookup_insert by assumption.
      destruct (decide (k = k')) as [<- | Hne].
      * intros _. destruct rs; try congruence.
        -- left. exists m. split; [| assumption]. apply elem_of_app. right. left.
        -- right. exists CLOSING. split; [assumption | simpl; lia].
        -- right. exists CLOSED. split; [assumption | simpl; lia].
      * intros Hs. destruct (I2 k' Hs) as [(m' & Hin & Hm') | ?]; [| now right].
        left. exists m'. split; [| assumption].
        destruct rs; try assumption. apply elem_of_app. now left.
    + intros Hlen. specialize (Ik Hlen).
      destruct rs; try assumption.
      destruct (pr_out a) as [| f out]; [simpl; assumption | exact Ik].
  - (* a recorder *)
    split; [exact Ia |]. split; [exact Ib |]. split; [exact If |].
    split; [intros _; now exists k |]. split; [exact I2 | exact Ik].
Qed.

Lemma proto_inv_steps a b : rtc pstep a b -> proto_inv a -> proto_inv b.
Proof. induction 1; eauto using proto_inv_step. Qed.

(** *** Every handler moves by these steps *)

Lemma proto_eq w w' :
  sockets w' = sockets w -> t_phase <$> starts w' = t_phase <$> starts w ->
  outbound w' = outbound w -> length (recorders w') = length (recorders w) ->
  proto w' = proto w.
Proof. intros H1 H2 H3 H4. unfold proto. now rewrite H1, H2, H3, H4. Qed.

Lemma proto_commit w : proto (commit w) = proto w.
Proof.
  pose proof (commit_frame w) as F. cbv zeta in F.
  destruct F as (_ & _ & _ & _ & _ & _ & _ & _ & _ & _ & F11 & F12 & F13 & _ & _ & F16).
  apply proto_eq; congruence.
Qed.

Lemma proto_log {A} (r : World * (Error + A)) : proto (log_uncaught r) = proto (fst r).
Proof. destruct r as [w [e | a]]; reflexivity. Qed.

Lemma phases_set_phase v k (l : list StartTask) :
  t_phase <$> alter (set_phase v) k l = <[k := v]> (t_phase <$> l).
Proof.
  rewrite list_insert_alter. apply list_fmap_alter.
  apply Forall_forall. intros x _. reflexivity.
Qed.

Lemma phases_set_t_error v k (l : list StartTask) :
  t_phase <$> alter (set_t_error v) k l = t_phase <$> l.
Proof.
  rewrite (list_fmap_alter t_phase (set_t_error v) id).
  - now apply list_alter_id.
  - apply Forall_forall. intros x _. reflexivity.
Qed.

Lemma ps_socket' a b k rs rs' :
  pr_sockets a !! k = Some rs -> (rank rs <= rank rs')%nat ->
  pr_sockets b = <[k := rs']> (pr_sockets a) -> pr_phases b = pr_phases a ->
  pr_out b = pr_out a -> pr_recorders b = pr_recorders a -> pstep a b.
Proof. destruct b. simpl. intros ? ? -> -> -> ->. econstructor; eassumption. Qed.

Lemma ps_send' a b k m :
  pr_sockets a !! k = Some OPEN -> is_start_variant m = false ->
  (0 < pr_recorders a)%nat ->
  pr_sockets b = pr_sockets a -> pr_phases b = pr_phases a ->
  pr_out b = (pr_out a ++ [(k, m)])%list -> pr_recorders b = pr_recorders a -> pstep a b.
Proof. destruct b. simpl. intros ? ? ? -> -> -> ->. now constructor. Qed.

Lemma ps_new' a b :
  pr_sockets b = (pr_sockets a ++ [CONNECTING])%list ->
  pr_phases b = (pr_phases a ++ [AwaitOpen])%list ->
  pr_out b = pr_out a -> pr_recorders b = pr_recorders a -> pstep a b.
Proof. destruct b. simpl. intros -> -> -> ->. constructor. Qed.

Lemma ps_mic' a b k :
  pr_phases a !! k = Some AwaitOpen -> pr_sockets a !! k = Some OPEN ->
  pr_sockets b = pr_sockets a -> pr_phases b = <[k := AwaitMic]> (pr_phases a) ->
  pr_out b = pr_out a -> pr_recorders b = pr_recorders a -> pstep a b.
Proof. destruct b. simpl. intros ? ? -> -> -> ->. now constructor. Qed.

Lemma ps_fail' a b k :
  pr_phases a !! k = Some AwaitMic ->
  pr_sockets b = pr_sockets a -> pr_phases b = <[k := Failed]> (pr_phases a) ->
  pr_out b = pr_out a -> pr_recorders b = pr_recorders a -> pstep a b.
Proof. destruct b. simpl. intros ? -> -> -> ->. now constructor. Qed.

Lemma ps_start' a b k ph rs m :
  pr_phases a !! k = Some ph -> ph = AwaitOpen \/ ph = AwaitMic ->
  pr_sockets a !! k = Some rs -> rs <> CONNECTING -> is_start_variant m = true ->
  pr_sockets b = pr_sockets a -> pr_phases b = <[k := Sent]> (pr_phases a) ->
  pr_out b = match rs with OPEN => (pr_out a ++ [(k, m)])%list | _ => pr_out a end ->
  pr_recorders b = pr_recorders a -> pstep a b.
Proof. destruct b. simpl. intros ? ? ? ? ? -> -> -> ->. econstructor; eassumption. Qed.

Lemma ps_recorder' a b k :
  pr_phases a !! k = Some Sent ->
  pr_sockets b = pr_sockets a -> pr_phases b = pr_phases a ->
  pr_out b = pr_out a -> pr_recorders b = S (pr_recorders a) -> pstep a b.
Proof. destruct b. simpl. intros ? -> -> -> ->. econstructor; eassumption. Qed.

Lemma stop_refines rec sock err w :
  rtc pstep (proto w) (proto (fst (stopConversation rec sock err w))).
Proof.
  destruct (stopConversation_channel rec sock err w) as (C1 & C2 & C3 & _).
  destruct (stopConversation_always rec sock err w)
    as (_ & _ & _ & _ & _ & _ & _ & _ & _ & S10 & _).
  cbv zeta in C1, C2, C3, S10.
  set (w' := fst (stopConversation rec sock err w)) in *. clearbody w'.
  destruct C1 as [C1 | (r & k & _ & _ & [rc Hr] & Hk & C1)];
    destruct C2 as [C2 | (k' & rs & Hs & Hk' & Hrs & C2)].
  - rewrite (proto_eq w w'); [apply rtc_refl | congruence ..].
  - apply rtc_once. apply (ps_socket' _ _ k' rs CLOSING); simpl;
      [assumption | destruct Hrs as [-> | ->]; simpl; lia | congruence ..].
  - apply rtc_once. apply (ps_send' _ _ k websocket_stop); simpl;
      [assumption | reflexivity | apply lookup_lt_Some in Hr; lia | congruence ..].
  - eapply rtc_l.
    + apply (ps_send (proto w) k websocket_stop); [assumption | reflexivity |].
      simpl. apply lookup_lt_Some in Hr. lia.
    + apply rtc_once. apply (ps_socket' _ _ k' rs CLOSING); simpl;
        [assumption | destruct Hrs as [-> | ->]; simpl; lia | congruence ..].
Qed.

Lemma listener_refines sock b w :
  (0 < length (recorders w))%nat ->
  rtc pstep (proto w) (proto (log_uncaught (recordingDataListener sock b w))) /\
  recorders (log_uncaught (recordingDataListener sock b w)) = recorders w.
Proof.
  intros Hrec. unfold recordingDataListener.
  destruct b as [data |]; [| split; [apply rtc_refl | reflexivity]].
  destruct (String.eqb data ""); [split; [apply rtc_refl | reflexivity] |].
  destruct sock as [k |]; [| split; [apply rtc_refl | reflexivity]].
  unfold bind, gets, socket_send. simpl.
  destruct (sockets w !! k) as [[] |] eqn:Hk; simpl; rewrite ?Hk; simpl;
    try (split; [apply rtc_refl | reflexivity]).
  split; [| reflexivity]. apply rtc_once.
  apply (ps_send' _ _ k (websocket_audio data)); auto.
Qed.

Lemma fire_refines ls b : forall w,
  (0 < length (recorders w))%nat -> rtc pstep (proto w) (proto (fire ls b w)).
Proof.
  induction ls as [| l ls IH]; intros w Hrec; [apply rtc_refl |].
  simpl. destruct (listener_refines (fn_socket l) b w Hrec) as [H1 H2].
  etransitivity; [exact H1 |]. apply IH. now rewrite H2.
Qed.

Lemma stringify_is_start h m : is_start_variant (stringify h m) = true.
Proof. destruct m; reflexivity. Qed.

Lemma proto_phase w k t : starts w !! k = Some t -> pr_phases (proto w) !! k = Some (t_phase t).
Proof. intros Ht. simpl. now rewrite list_lookup_fmap, Ht. Qed.

Lemma send_start_refines p k t meta b w :
  starts w !! k = Some t -> t_phase t = AwaitOpen \/ t_phase t = AwaitMic ->
  rtc pstep (proto w) (proto (fst (send_start_and_record p k t meta b w))).
Proof.
  intros Ht Hph. pose proof (proto_phase w k t Ht) as Hp.
  pose proof (lookup_lt_Some _ _ _ Ht) as Hlt.
  unfold send_start_and_record.
  unfold socket_send, recorder_resume, recorder_start, new_MediaRecorder, setPhase,
    recorder_state_of. monad. cbn beta iota.
  destruct (make_start_message p meta _ (heap w)) as [h' msg] eqn:Hmsg.
  crunch.
  all: unfold proto; simpl; rewrite ?phases_set_phase, ?length_insert, ?length_app; simpl;
    rewrite ?Nat.add_1_r.
  all: first
    [ apply rtc_refl
    | apply rtc_once;
      eapply (ps_start' (proto w) _ k (t_phase t) _ (stringify h' msg));
      [exact Hp | exact Hph | simpl; eassumption | discriminate
      | apply stringify_is_start | reflexivity ..]
    | eapply rtc_l;
      [ eapply (ps_start (proto w) k (t_phase t) _ (stringify h' msg));
        [exact Hp | exact Hph | simpl; eassumption | discriminate
        | apply stringify_is_start]
      | apply rtc_once; eapply (ps_recorder' _ _ k); simpl;
        [ apply list_lookup_insert_eq; now rewrite length_fmap | reflexivity ..] ] ].
Qed.

Lemma proto_fst_log {A} (r : World * (Error + A)) a :
  rtc pstep a (proto (fst r)) -> rtc pstep a (proto (log_uncaught r)).
Proof. now rewrite proto_log. Qed.

(** Every event handler moves the handshake by these steps. *)
Lemma dispatch_refines p e w :
  rtc pstep (proto w) (proto (log_uncaught (dispatch p e w))).
Proof.
  apply proto_fst_log. destruct e.
  - (* mount *)
    simpl. destruct (audioContext (hook w)); apply rtc_refl.
  - (* start *)
    change (dispatch p EvStart w) with (startConversation p (hook w) w).
    destruct (audioContext (hook w)) as [ctx |] eqn:Hc.
    2: { assert (startConversation p (hook w) w = (w, inr tt)) as ->
           by (unfold startConversation; rewrite Hc; reflexivity).
         apply rtc_refl. }
    destruct (audioAnalyser (hook w)) eqn:Ha.
    2: { assert (startConversation p (hook w) w = (w, inr tt)) as ->
           by (unfold startConversation; rewrite Hc, Ha; reflexivity).
         apply rtc_refl. }
    destruct (negb (isSafari p) && negb (isChrome p)) eqn:Hb.
    + assert (startConversation p (hook w) w =
              stopConversation (recorder (hook w)) (socket (hook w))
                (Some (MkError "Unsupported browser"))
                (with_hook (set_status st_connecting) w)) as ->
        by (unfold startConversation; rewrite Hc, Ha, Hb; reflexivity).
      apply (stop_refines _ _ _ (with_hook (set_status st_connecting) w)).
    + unfold startConversation. rewrite Hc, Ha, Hb. unfold new_WebSocket. monad.
      destruct (getBackendUrl (config p)); destruct (suspended w) eqn:Hs;
        simpl; rewrite ?Hs; simpl; try apply rtc_refl;
        apply rtc_once; apply ps_new'; simpl; try reflexivity;
        now rewrite fmap_app.
  - (* stop *)
    apply stop_refines.
  - (* toggle *)
    apply rtc_refl.
  - (* open *)
    simpl. destruct (sockets w !! k) as [[] |] eqn:Hk; try apply rtc_refl.
    apply rtc_once. apply (ps_socket' _ _ k CONNECTING OPEN); simpl; auto.
  - (* error *)
    simpl. unfold onerror, modify.
    destruct (sockets w !! k) as [[] |] eqn:Hk; try apply rtc_refl;
      simpl; unfold proto; simpl; rewrite phases_set_t_error; apply rtc_refl.
  - (* close *)
    simpl. destruct (sockets w !! k) as [rs |] eqn:Hk; [| apply rtc_refl].
    assert (rs = CLOSED \/ rs <> CLOSED) as [-> | Hrs]
      by (destruct rs; auto; right; discriminate).
    { apply rtc_refl. }
    assert (rtc pstep (proto w)
              (proto (fst (onclose k (set_sockets (<[k := CLOSED]> (sockets w)) w))))) as H.
    { eapply rtc_l.
      - apply (ps_socket (proto w) k rs CLOSED); [exact Hk | destruct rs; simpl; lia].
      - unfold onclose. cbn [starts set_sockets].
        destruct (starts w !! k) as [t |]; [| apply rtc_refl].
        apply (stop_refines _ _ _ (set_sockets (<[k := CLOSED]> (sockets w)) w)). }
    destruct rs; try exact H. congruence.
  - (* message *)
    simpl. destruct (sockets w !! k) as [[] |]; try apply rtc_refl;
      destruct m; apply rtc_refl.
  - (* poll *)
    simpl. unfold poll.
    destruct (starts w !! k) as [t |] eqn:Ht; [| apply rtc_refl].
    destruct (sockets w !! k) as [[] |] eqn:Hk; try apply rtc_refl.
    destruct (t_phase t) eqn:Hph; try apply rtc_refl.
    destruct (useRecorder p).
    + apply rtc_once. apply (ps_mic' _ _ k); simpl;
        [rewrite list_lookup_fmap, Ht; simpl; now rewrite Hph | assumption | reflexivity
        | apply phases_set_phase | reflexivity ..].
    + apply send_start_refines; [assumption | now left].
  - (* microphone *)
    simpl. unfold microphone.
    destruct (starts w !! k) as [t |] eqn:Ht; [| apply rtc_refl].
    destruct (t_phase t) eqn:Hph; try apply rtc_refl.
    assert (forall err,
      rtc pstep (proto w)
        (proto (fst ((setPhase k Failed >>
                      stopConversation (t_recorder t) (t_socket t) err >>
                      (throw TypeError : M unit)) w)))) as Hfail.
    { intros err. unfold setPhase, modify. unfold bind at 1. cbn beta iota.
      unfold bind at 1.
      eapply rtc_l.
      - apply (ps_fail (proto w) k). simpl. rewrite list_lookup_fmap, Ht. simpl.
        now rewrite Hph.
      - pose proof (stop_refines (t_recorder t) (t_socket t) err
                      (set_starts (alter (set_phase Failed) k (starts w)) w)) as H.
        destruct (stopConversation _ _ _ _) as [w1 [e | []]]; simpl in *;
          unfold proto in H at 1; simpl in H; rewrite phases_set_phase in H; exact H. }
    destruct res.
    + apply send_start_refines; [assumption | now right].
    + apply Hfail.
    + apply Hfail.
  - (* data *)
    simpl. destruct (recorders w !! r) as [rc |] eqn:Hr; [| apply rtc_refl].
    simpl. apply fire_refines. apply lookup_lt_Some in Hr. lia.
  - (* decoded *)
    simpl. unfold decoded. monad.
    destruct (playbacks w !! i) as [b |]; [| apply rtc_refl].
    destruct (p_phase b); try apply rtc_refl. destruct (p_context b); apply rtc_refl.
  - (* ended *)
    simpl. unfold ended. monad.
    destruct (playbacks w !! i) as [b |]; [| apply rtc_refl].
    destruct (p_phase b); try apply rtc_refl.
    destruct (length (array_of w (p_queue b)) <=? 0)%nat; apply rtc_refl.
Qed.

Lemma step_refines p e w : rtc pstep (proto w) (proto (step p w e)).
Proof. unfold step. rewrite proto_commit. apply dispatch_refines. Qed.

Lemma proto_inv_reachable p h w : reachable p h w -> proto_inv (proto w).
Proof.
  intros [evs ->]. unfold run.
  assert (proto_inv (proto (init h))) as H0.
  { unfold proto_inv; simpl. repeat split; intros; try lia; try discriminate.
    all: match goal with H : _ ∈ [] |- _ => now apply elem_of_nil in H end. }
  revert H0. generalize (init h).
  induction evs as [| e evs IH]; intros w H; [exact H |].
  simpl. apply IH. eapply proto_inv_steps; [apply step_refines | exact H].
Qed.

Lemma starts_on_nil k (out : list (nat * OutMsg)) :
  starts_on k out = [] -> forall m, (k, m) ∈ out -> is_start_variant m = false.
Proof.
  induction out as [| [k' m'] out IH]; intros Hnil m Hin.
  - now apply elem_of_nil in Hin.
  - unfold starts_on in Hnil, IH. simpl in Hnil.
    destruct (Nat.eqb_spec k' k) as [-> | Hne]; simpl in Hnil.
    + destruct (is_start_variant m') eqn:Hm'; [discriminate |].
      apply elem_of_cons in Hin as [Hin | Hin]; [congruence | now apply IH].
    + apply elem_of_cons in Hin as [Hin | Hin]; [congruence | now apply IH].
Qed.

(** X14. In every world the hook can reach, each socket has carried
    at most one start message, and only if the call of start() that
    opened it has got past [socket.send]; every frame handed over went
    to a socket that has left the connecting state; and a
    [MediaRecorder] exists only if some call of start() has got past
    its start message. *)
Theorem X14_start_message_once (p : Props) (h : Heap) (w : World) :
  reachable p h w ->
  (forall k,
     (length (starts_on k (outbound w)) <= 1)%nat /\
     (starts_on k (outbound w) <> [] -> t_phase <$> starts w !! k = Some Sent) /\
     (forall m, (k, m) ∈ outbound w ->
                exists rs, sockets w !! k = Some rs /\ rs <> CONNECTING)) /\
  (recorders w <> [] -> exists k, t_phase <$> starts w !! k = Some Sent).
Proof.
  intros Hr. destruct (proto_inv_reachable p h w Hr) as (_ & Ib & If & I1 & _).
  simpl in Ib, If, I1. split.
  - intros k. specialize (Ib k). rewrite list_lookup_fmap in Ib.
    split; [| split].
    + destruct (t_phase <$> starts w !! k) as [[] |]; lia.
    + intros Hne. destruct (starts_on k (outbound w)) as [| f l]; [congruence |].
      simpl in Ib. destruct (t_phase <$> starts w !! k) as [[] |]; try lia. reflexivity.
    + intros m. apply If.
  - intros Hne. destruct I1 as [k Hk].
    + destruct (recorders w); [congruence | simpl; lia].
    + exists k. now rewrite <- list_lookup_fmap.
Qed.

Lemma X14_witness :
  let w := run hosted_on_safari (init hosted_heap)
             [EvMount 48000 false; EvStart; EvOpen 0%nat; EvPoll 0%nat;
              EvMicrophone 0%nat (MicGranted (Some 44100)); EvMessage 0%nat in_ready;
              EvData 0%nat (Some "UklGRg"); EvPoll 0%nat; EvStop] in
  (forall k,
     (length (starts_on k (outbound w)) <= 1)%nat /\
     (starts_on k (outbound w) <> [] -> t_phase <$> starts w !! k = Some Sent) /\
     (forall m, (k, m) ∈ outbound w ->
                exists rs, sockets w !! k = Some rs /\ rs <> CONNECTING)) /\
  (recorders w <> [] -> exists k, t_phase <$> starts w !! k = Some Sent).
Proof.
  apply (X14_start_message_once hosted_on_safari hosted_heap).
  eexists. reflexivity.
Defined.

(** X15. As long as start() has opened at most one socket, the first
    frame of the session is its start message and no later frame is
    one: no audio and no [websocket_stop] is ever sent ahead of the
    start message. *)
Theorem X15_start_message_first (p : Props) (h : Heap) (w : World) :
  reachable p h w -> (length (sockets w) <= 1)%nat ->
  match outbound w with
  | [] => True
  | f :: rest =>
      fst f = 0%nat /\ is_start_variant (snd f) = true /\
      Forall (fun g => fst g = 0%nat /\ is_start_variant (snd g) = false) rest
  end.
Proof.
  intros Hr Hlen.
  destruct (proto_inv_reachable p h w Hr) as (_ & Ib & If & _ & _ & Ik).
  simpl in Ib, If, Ik. specialize (Ik Hlen).
  assert (forall k m, (k, m) ∈ outbound w -> k = 0%nat) as Hzero.
  { intros k m Hin. destruct (If k m Hin) as (rs & Hrs & _).
    apply lookup_lt_Some in Hrs. lia. }
  destruct (outbound w) as [| [k m] rest]; [exact I |].
  simpl in Ik. assert (k = 0%nat) as -> by (apply (Hzero _ m); left).
  split; [reflexivity |]. split; [exact Ik |].
  specialize (Ib 0%nat). unfold starts_on in Ib. simpl in Ib. rewrite Ik in Ib. simpl in Ib.
  assert (starts_on 0 rest = []) as Hnil.
  { unfold starts_on. destruct (List.filter _ rest); [reflexivity |].
    simpl in Ib. destruct (t_phase <$> starts w) as [| [] ?]; simpl in Ib; lia. }
  apply Forall_forall. intros [k' m'] Hin. simpl.
  assert (k' = 0%nat) as -> by (apply (Hzero _ m'); now right).
  split; [reflexivity |]. now apply (starts_on_nil 0 rest).
Qed.

Lemma X15_witness :
  let w := run hosted_on_safari (init hosted_heap)
             [EvMount 48000 false; EvStart; EvOpen 0%nat; EvPoll 0%nat;
              EvMicrophone 0%nat (MicGranted (Some 44100)); EvMessage 0%nat in_ready;
              EvData 0%nat (Some "UklGRg"); EvStop] in
  match outbound w with
  | [] => True
  | f :: rest =>
      fst f = 0%nat /\ is_start_variant (snd f) = true /\
      Forall (fun g => fst g = 0%nat /\ is_start_variant (snd g) = false) rest
  end.
Proof.
  apply (X15_start_message_first hosted_on_safari hosted_heap).
  - eexists. reflexivity.
  - vm_compute. lia.
Defined.

(** ** The start message goes out when the socket is open *)

Lemma poll_open p w k t :
  starts w !! k = Some t -> t_phase t = AwaitOpen -> useRecorder p = false ->
  sockets w !! k = Some OPEN ->
  poll p k w =
  (let i := linear16 (t_sampleRate t) in
   let o := linear16 (or_num (outputSamplingRate (audioDeviceConfig (config p)))
                        (t_sampleRate t)) in
   (set_starts (alter (set_phase Sent) k (starts w))
      (set_outbound (outbound w ++ [(k, serialized_start p i o (heap w))])%list
         (set_heap (fst (make_start_message p i o (heap w))) w)), inr tt)).
Proof.
  intros Ht Hph Hu Hk. unfold poll. rewrite Ht, Hk, Hph, Hu.
  unfold send_start_and_record, serialized_start, linear16, socket_send, setPhase. monad.
  cbn beta iota zeta.
  destruct (make_start_message p _ _ (heap w)) as [h' msg]. simpl. rewrite Hk. reflexivity.
Qed.

Lemma poll_not_open p w k :
  sockets w !! k <> Some OPEN -> poll p k w = (w, inr tt).
Proof.
  intros Hk. unfold poll. destruct (starts w !! k); [| reflexivity].
  destruct (sockets w !! k) as [[] |]; try reflexivity. congruence.
Qed.

(** X16. A call of start() that does not use the recorder sends its
    start message at the first tick of its interval that finds the
    socket open, whatever the status is, and the message is the
    serialised start message for the sampling rate of the audio context;
    the tick does not touch the status.  While the socket is not open a
    tick does nothing, and [websocket_ready] from the server sends
    nothing and does not move the call: the start message waits for
    the socket, not for the server. *)
Theorem X16_start_sent_on_open (p : Props) (w : World) (k : nat) (t : StartTask) :
  starts w !! k = Some t -> t_phase t = AwaitOpen -> useRecorder p = false ->
  (let w' := step p w (EvPoll k) in
   status (hook w') = status (hook w) /\
   length (recorders w') = length (recorders w) /\
   match sockets w !! k with
   | Some OPEN =>
       outbound w' =
         (outbound w ++
            [(k, serialized_start p (linear16 (t_sampleRate t))
                   (linear16 (or_num (outputSamplingRate (audioDeviceConfig (config p)))
                                (t_sampleRate t)))
                   (heap w))])%list /\
       t_phase <$> starts w' !! k = Some Sent
   | _ => outbound w' = outbound w /\ t_phase <$> starts w' !! k = Some AwaitOpen
   end) /\
  (let w' := step p w (EvMessage k in_ready) in
   outbound w' = outbound w /\ t_phase <$> starts w' !! k = Some AwaitOpen).
Proof.
  intros Ht Hph Hu. cbv zeta. unfold step. split.
  - match goal with |- context [commit ?x] => pose proof (commit_frame x) as F end.
    cbv zeta in F.
    destruct F as (_ & _ & _ & _ & F5 & _ & _ & _ & _ & _ & _ & F12 & F13 & _ & _ & F16).
    rewrite F5, F12, F13, F16. clear F5 F12 F13 F16.
    change (dispatch p (EvPoll k) w) with (poll p k w).
    destruct (sockets w !! k) as [rs |] eqn:Hk.
    + assert (rs = OPEN \/ rs <> OPEN) as [-> | Hrs]
        by (destruct rs; auto; right; discriminate).
      * rewrite (poll_open p w k t Ht Hph Hu Hk). cbv zeta. cbn [log_uncaught].
        simpl. rewrite list_lookup_alter_eq, Ht. repeat split.
      * rewrite poll_not_open by congruence. cbn [log_uncaught].
        rewrite Ht. simpl. rewrite Hph. destruct rs; try congruence; repeat split.
    + rewrite poll_not_open by congruence. cbn [log_uncaught].
      rewrite Ht. simpl. rewrite Hph. repeat split.
  - match goal with |- context [commit ?x] => pose proof (commit_frame x) as F end.
    cbv zeta in F.
    destruct F as (_ & _ & _ & _ & _ & _ & _ & _ & _ & _ & _ & F12 & F13 & _).
    rewrite F12, F13. clear F12 F13. simpl.
    destruct (sockets w !! k) as [[] |]; simpl; rewrite Ht; simpl; rewrite Hph;
      split; reflexivity.
Qed.

Lemma X16_witness :
  let p := listen_only in
  let w := run p (init ∅) [EvMount 48000 false; EvStart; EvOpen 0%nat] in
  let t := {| t_recorder := None; t_socket := None; t_sampleRate := 48000;
              t_error := None; t_phase := AwaitOpen |} in
  (let w' := step p w (EvPoll 0%nat) in
   status (hook w') = status (hook w) /\
   length (recorders w') = length (recorders w) /\
   match sockets w !! 0%nat with
   | Some OPEN =>
       outbound w' =
         (outbound w ++
            [(0%nat, serialized_start p (linear16 (t_sampleRate t))
                   (linear16 (or_num (outputSamplingRate (audioDeviceConfig (config p)))
                                (t_sampleRate t)))
                   (heap w))])%list /\
       t_phase <$> starts w' !! 0%nat = Some Sent
   | _ => outbound w' = outbound w /\ t_phase <$> starts w' !! 0%nat = Some AwaitOpen
   end) /\
  (let w' := step p w (EvMessage 0%nat in_ready) in
   outbound w' = outbound w /\ t_phase <$> starts w' !! 0%nat = Some AwaitOpen).
Proof.
  apply (X16_start_sent_on_open listen_only
           (run listen_only (init ∅) [EvMount 48000 false; EvStart; EvOpen 0%nat]) 0%nat
           {| t_recorder := None; t_socket := None; t_sampleRate := 48000;
              t_error := None; t_phase := AwaitOpen |}); reflexivity.
Defined.

(** ** The recorder is started after the start message *)

Lemma fmap_alter_same {A B} (g : A -> B) (f : A -> A) k (l : list A) :
  (forall x, g (f x) = g x) -> g <$> alter f k l = g <$> l.
Proof.
  intros Hf. revert k. induction l as [| x l IH]; intros k; [reflexivity |].
  destruct k as [| k]; simpl; [now rewrite Hf | f_equal; apply IH].
Qed.

(** The effects register and remove listeners; they never start or
    stop a recorder. *)
Lemma commit_recorder_states w :
  (fun rc => (rec_state rc, rec_timeSlice rc)) <$> recorders (commit w) =
  (fun rc => (rec_state rc, rec_timeSlice rc)) <$> recorders w.
Proof.
  unfold commit.
  pose proof (playback_effect_frame (listener_effect (set_renders (S (renders w)) w))) as P.
  cbv zeta in P. destruct P as (_ & _ & _ & _ & _ & _ & _ & _ & _ & _ & _ & _ & _ & P14 & _).
  rewrite P14. unfold listener_effect.
  destruct (decide _); [reflexivity |].
  cbn [hook set_renders set_listener_deps recorders renders].
  destruct (recorder (hook w)), (socket (hook w)); try reflexivity.
  destruct (status (hook w)); try reflexivity.
  destruct (active (hook w)); cbn [set_recorders recorders]; apply fmap_alter_same.
  - intros rc. unfold add_listener. destruct (existsb _ _); reflexivity.
  - intros rc. reflexivity.
Qed.

Lemma microphone_granted_dispatch p w k t rate :
  starts w !! k = Some t -> t_phase t = AwaitMic -> sockets w !! k = Some OPEN ->
  (forall r, t_recorder t = Some r -> is_Some (recorders w !! r)) ->
  let i := linear16 (or_num rate (t_sampleRate t)) in
  let o := linear16 (or_num (outputSamplingRate (audioDeviceConfig (config p)))
                       (t_sampleRate t)) in
  let sm := make_start_message p i o (heap w) in
  let r := default (length (recorders w)) (t_recorder t) in
  exists x rc',
    dispatch p (EvMicrophone k (MicGranted rate)) w = (x, inr tt) /\
    outbound x = (outbound w ++ [(k, stringify (fst sm) (snd sm))])%list /\
    starts x = alter (set_phase Sent) k (starts w) /\
    uncaught x = uncaught w /\ heap x = fst sm /\
    length (recorders x) =
      (match t_recorder t with Some _ => 0 | None => 1 end + length (recorders w))%nat /\
    recorders x !! r = Some rc' /\ rec_state rc' = recording /\
    rec_timeSlice rc' =
      match recorders w !! r with
      | Some rc =>
          match rec_state rc with
          | inactive => compute_timeSlice (fst sm) (snd sm) (config p)
          | _ => rec_timeSlice rc
          end
      | None => compute_timeSlice (fst sm) (snd sm) (config p)
      end /\
    recorder (hook x) =
      match t_recorder t with Some _ => recorder (hook w) | None => Some r end.
Proof.
  intros Ht Hph Hk Hrec. cbv zeta. simpl. unfold microphone. rewrite Ht, Hph.
  unfold send_start_and_record, linear16, socket_send, setPhase, new_MediaRecorder,
    recorder_resume, recorder_start, recorder_state_of, setRecorder. monad.
  cbn beta iota zeta.
  destruct (make_start_message p _ _ (heap w)) as [h' msg]. simpl. rewrite Hk. simpl.
  destruct (t_recorder t) as [r |] eqn:Hr.
  - destruct (Hrec r eq_refl) as [rc Hrc]. simpl. rewrite Hrc. simpl.
    pose proof (lookup_lt_Some _ _ _ Hrc) as Hlt.
    destruct (rec_state rc) eqn:Hst; simpl; rewrite ?Hrc; simpl; rewrite ?Hst; simpl;
      rewrite ?list_lookup_insert_eq by assumption; simpl; rewrite ?Hrc; simpl;
      rewrite ?Hst; simpl.
    + eexists _, _. split; [reflexivity |]. simpl. rewrite length_insert.
      do 5 (split; [reflexivity |]).
      split; [now apply list_lookup_insert_eq |]. repeat split.
    + eexists _, _. split; [reflexivity |]. simpl.
      do 5 (split; [reflexivity |]).
      split; [exact Hrc |]. repeat split. exact Hst.
    + eexists _, _. split; [reflexivity |]. simpl. rewrite length_insert.
      do 5 (split; [reflexivity |]).
      split; [now apply list_lookup_insert_eq |]. repeat split.
  - simpl. rewrite (lookup_ge_None_2 (recorders w) (length (recorders w))) by lia.
    rewrite list_lookup_middle by reflexivity. simpl.
    rewrite list_lookup_middle by reflexivity. simpl.
    eexists _, _. split; [reflexivity |]. simpl. rewrite length_insert, length_app. simpl.
    do 4 (split; [reflexivity |]). split; [lia |].
    split; [apply list_lookup_insert_eq; rewrite length_app; simpl; lia |]. repeat split.
Qed.

(** X17. When [getUserMedia] grants a stream while the socket is open,
    the call first sends the start message, built for the sampling rate
    the microphone reports (that of the audio context when it reports
    none or zero), and only then turns to the recorder: the recorder its
    closure captured, resumed if it was paused and left alone if it was
    recording, or a new one, which it stores in the state.  The
    recorder ends up recording; it is started with the computed time
    slice exactly when it was not running before, and nothing is
    thrown. *)
Theorem X17_recorder_started_after_start (p : Props) (w : World) (k : nat) (t : StartTask)
    (rate : option Z) :
  starts w !! k = Some t -> t_phase t = AwaitMic -> sockets w !! k = Some OPEN ->
  (forall r, t_recorder t = Some r -> is_Some (recorders w !! r)) ->
  let i := linear16 (or_num rate (t_sampleRate t)) in
  let o := linear16 (or_num (outputSamplingRate (audioDeviceConfig (config p)))
                       (t_sampleRate t)) in
  let sm := make_start_message p i o (heap w) in
  let r := default (length (recorders w)) (t_recorder t) in
  let w' := step p w (EvMicrophone k (MicGranted rate)) in
  outbound w' = (outbound w ++ [(k, serialized_start p i o (heap w))])%list /\
  t_phase <$> starts w' !! k = Some Sent /\
  uncaught w' = uncaught w /\
  (exists rc', recorders w' !! r = Some rc' /\ rec_state rc' = recording /\
     rec_timeSlice rc' =
       match recorders w !! r with
       | Some rc =>
           match rec_state rc with
           | inactive => compute_timeSlice (fst sm) (snd sm) (config p)
           | _ => rec_timeSlice rc
           end
       | None => compute_timeSlice (fst sm) (snd sm) (config p)
       end) /\
  recorder (hook w') =
    match t_recorder t with Some _ => recorder (hook w) | None => Some r end.
Proof.
  intros Ht Hph Hk Hrec. cbv zeta.
  destruct (microphone_granted_dispatch p w k t rate Ht Hph Hk Hrec)
    as (x & rcx & Hx & X1 & X2 & X3 & _ & _ & X6 & X7 & X8 & X9).
  cbv zeta in X1, X6, X8, X9.
  unfold step. rewrite Hx. cbn [log_uncaught].
  pose proof (commit_frame x) as F. cbv zeta in F.
  destruct F as (_ & _ & F3 & _ & _ & _ & _ & _ & _ & _ & _ & F12 & F13 & _ & F15 & _).
  rewrite F3, F12, F13, F15, X1, X2, X3, X9.
  split; [reflexivity |]. split; [now rewrite list_lookup_alter_eq, Ht |].
  split; [reflexivity |]. split; [| reflexivity].
  pose proof (commit_recorder_states x) as CR.
  apply (f_equal (fun l => l !! default (length (recorders w)) (t_recorder t))) in CR.
  rewrite !list_lookup_fmap, X6 in CR.
  destruct (recorders (commit x) !! default (length (recorders w)) (t_recorder t))
    as [rc' |]; [| discriminate].
  simpl in CR. inversion CR as [[Hs Hts]].
  exists rc'. split; [reflexivity |]. split; [congruence |]. now rewrite Hts.
Qed.

Lemma X17_witness :
  let p := hosted_on_safari in
  let w := run p (init hosted_heap) [EvMount 48000 false; EvStart; EvOpen 0%nat; EvPoll 0%nat] in
  let t := {| t_recorder := None; t_socket := None; t_sampleRate := 48000;
              t_error := None; t_phase := AwaitMic |} in
  let rate := Some 44100 in
  let i := linear16 (or_num rate (t_sampleRate t)) in
  let o := linear16 (or_num (outputSamplingRate (audioDeviceConfig (config p)))
                       (t_sampleRate t)) in
  let sm := make_start_message p i o (heap w) in
  let r := default (length (recorders w)) (t_recorder t) in
  let w' := step p w (EvMicrophone 0%nat (MicGranted rate)) in
  outbound w' = (outbound w ++ [(0%nat, serialized_start p i o (heap w))])%list /\
  t_phase <$> starts w' !! 0%nat = Some Sent /\
  uncaught w' = uncaught w /\
  (exists rc', recorders w' !! r = Some rc' /\ rec_state rc' = recording /\
     rec_timeSlice rc' =
       match recorders w !! r with
       | Some rc =>
           match rec_state rc with
           | inactive => compute_timeSlice (fst sm) (snd sm) (config p)
           | _ => rec_timeSlice rc
           end
       | None => compute_timeSlice (fst sm) (snd sm) (config p)
       end) /\
  recorder (hook w') =
    match t_recorder t with Some _ => recorder (hook w) | None => Some r end.
Proof.
  apply (X17_recorder_started_after_start hosted_on_safari
           (run hosted_on_safari (init hosted_heap)
              [EvMount 48000 false; EvStart; EvOpen 0%nat; EvPoll 0%nat]) 0%nat
           {| t_recorder := None; t_socket := None; t_sampleRate := 48000;
              t_error := None; t_phase := AwaitMic |} (Some 44100)).
  - reflexivity.
  - reflexivity.
  - reflexivity.
  - intros r Hr. discriminate.
Defined.

(** ** Listeners are added, never removed *)

Lemma listener_outbound sock data w :
  data <> "" ->
  let w' := log_uncaught (recordingDataListener sock (Some data) w) in
  sockets w' = sockets w /\
  outbound w' = (outbound w ++ audio_frames (sockets w) data
                                 [{| fn_id := 0; fn_socket := sock |}])%list.
Proof.
  intros Hd. cbv zeta. unfold recordingDataListener.
  destruct (String.eqb_spec data ""); [congruence |].
  unfold audio_frames. simpl.
  destruct sock as [k |]; simpl; [| now rewrite app_nil_r].
  unfold bind, gets, socket_send. simpl.
  destruct (sockets w !! k) as [[] |] eqn:Hk; simpl; rewrite ?Hk; simpl;
    rewrite ?app_nil_r; split; reflexivity.
Qed.

Lemma fire_outbound data ls : forall w,
  data <> "" ->
  outbound (fire ls (Some data) w) = (outbound w ++ audio_frames (sockets w) data ls)%list.
Proof.
  induction ls as [| l ls IH]; intros w Hd; [simpl; now rewrite app_nil_r |].
  cbn [fire].
  destruct (listener_outbound (fn_socket l) data w Hd) as [Hs Ho]. cbv zeta in Hs, Ho.
  rewrite IH, Hs, Ho by assumption. rewrite <- app_assoc. f_equal.
  unfold audio_frames. simpl.
  destruct (fn_socket l) as [k |]; [| reflexivity].
  destruct (sockets w !! k) as [[] |]; reflexivity.
Qed.

Lemma fmap_listeners_start (l : list MediaRecorder) r rc v s :
  l !! r = Some rc ->
  listeners <$> <[r := {| rec_state := v; listeners := listeners rc; rec_timeSlice := s |}]> l
  = listeners <$> l.
Proof.
  intros Hr. rewrite list_fmap_insert. simpl.
  apply list_insert_id. rewrite list_lookup_fmap, Hr. reflexivity.
Qed.

Lemma stopConversation_renders rec sock err w :
  renders (fst (stopConversation rec sock err w)) = renders w.
Proof.
  unfold stopConversation, recorder_stop, socket_send, socket_close. monad.
  crunch; reflexivity.
Qed.

Lemma fire_renders ls b : forall w, renders (fire ls b w) = renders w.
Proof.
  induction ls as [| l ls IH]; intros w; [reflexivity |].
  cbn [fire]. rewrite IH. handlers. crunch; reflexivity.
Qed.

(** No handler touches the listeners of a recorder; a handler may
    create one recorder, without listeners. *)
Lemma dispatch_listeners p e w :
  let w' := log_uncaught (dispatch p e w) in
  renders w' = renders w /\
  (listeners <$> recorders w' = listeners <$> recorders w \/
   listeners <$> recorders w' = ((listeners <$> recorders w) ++ [[]])%list).
Proof.
  destruct e;
    try (handlers; crunch; (split; [reflexivity |]);
         rewrite ?fmap_app; simpl;
         repeat (first [erewrite fmap_listeners_insert by eassumption
                       | erewrite fmap_listeners_start by eassumption
                       | rewrite fmap_app; simpl]);
         first [left; reflexivity | right; reflexivity]; fail).
  cbv zeta. simpl. destruct (recorders w !! r); simpl; [| split; [| left]; reflexivity].
  pose proof (fire_frame (listeners m) base64 w) as F. cbv zeta in F.
  destruct F as (_ & _ & _ & F4 & _).
  rewrite fire_renders, F4. split; [| left]; reflexivity.
Qed.

Lemma filter_fresh (ls : list Listener) n :
  Forall (fun l => (fn_id l <= n)%nat) ls ->
  List.filter (fun l' => negb (Nat.eqb (fn_id l') (S n))) ls = ls /\
  existsb (fun l' => Nat.eqb (fn_id l') (S n)) ls = false.
Proof.
  induction 1 as [| l ls Hl _ [IH1 IH2]]; [split; reflexivity |].
  simpl. destruct (Nat.eqb_spec (fn_id l) (S n)); [lia |]. simpl.
  now rewrite IH1, IH2.
Qed.

Lemma alter_fresh (f g : MediaRecorder -> MediaRecorder) (P : MediaRecorder -> Prop) r
    (l : list MediaRecorder) :
  (forall rc, P rc -> f rc = g rc) -> Forall P l -> alter f r l = alter g r l.
Proof.
  intros Hf Hl. revert r. induction Hl as [| x l Hx _ IH]; intros r; [reflexivity |].
  destruct r as [| r]; simpl; [now rewrite Hf | f_equal; apply IH].
Qed.

(** What a commit does to the recorders when every listener is that
    of an earlier render: nothing, or one more listener on the
    recorder of the state, holding the socket of the state. *)
Lemma commit_recorders w :
  listeners_inv w ->
  listener_deps (commit w) = Some (deps_of (hook w)) /\
  renders (commit w) = S (renders w) /\
  recorders (commit w) =
    match recorder (hook w), socket (hook w), status (hook w), active (hook w) with
    | Some r, Some k, st_connected, true =>
        if decide (listener_deps w = Some (deps_of (hook w))) then recorders w
        else alter (with_listener {| fn_id := S (renders w); fn_socket := Some k |}) r
               (recorders w)
    | _, _, _, _ => recorders w
    end.
Proof.
  intros Hinv. unfold commit.
  pose proof (playback_effect_frame (listener_effect (set_renders (S (renders w)) w))) as P.
  cbv zeta in P.
  destruct P as (_ & _ & _ & _ & _ & _ & _ & _ & _ & _ & _ & _ & _ & P14 & _ & P16 & P17 & _).
  rewrite P14, P16, P17. clear P14 P16 P17.
  unfold listener_effect, deps_of.
  cbn [hook set_renders listener_deps renders recorders].
  assert (Forall (fun rc => Forall (fun l => (fn_id l <= renders w)%nat) (listeners rc))
            (recorders w)) as Hinv'.
  { exact (proj1 (Forall_fmap _ _ _) Hinv). }
  destruct (decide (listener_deps w = Some _)) as [Hd | Hd].
  - split; [exact Hd |]. split; [reflexivity |].
    destruct (recorder (hook w)), (socket (hook w)), (status (hook w)), (active (hook w));
      reflexivity.
  - cbn [listener_deps set_listener_deps renders set_renders recorders hook].
    destruct (recorder (hook w)) as [r |], (socket (hook w)) as [k |];
      try (repeat split; fail).
    destruct (status (hook w)); try (destruct (active (hook w)); repeat split; fail).
    destruct (active (hook w)); cbn [listener_deps renders recorders set_recorders
                                       set_listener_deps set_renders];
      (split; [reflexivity |]); (split; [reflexivity |]).
    + eapply alter_fresh; [| exact Hinv'].
      intros rc Hrc. cbv beta in Hrc. destruct (filter_fresh _ _ Hrc) as [_ H2].
      unfold add_listener, with_listener. cbn [fn_id]. now rewrite H2.
    + transitivity (alter (fun rc => rc) r (recorders w)).
      * eapply alter_fresh; [| exact Hinv'].
        intros rc Hrc. cbv beta in Hrc. destruct (filter_fresh _ _ Hrc) as [H1 _].
        unfold remove_listener. rewrite H1. now destruct rc.
      * apply list_alter_id. reflexivity.
Qed.

Lemma listeners_inv_step p e w : listeners_inv w -> listeners_inv (step p w e).
Proof.
  intros Hinv. unfold step.
  destruct (dispatch_listeners p e w) as [Hr Hl]. cbv zeta in Hr, Hl.
  assert (listeners_inv (log_uncaught (dispatch p e w))) as Hx.
  { unfold listeners_inv in *. rewrite Hr.
    destruct Hl as [-> | ->]; [exact Hinv |].
    apply Forall_app. split; [exact Hinv | repeat constructor]. }
  destruct (commit_recorders _ Hx) as (_ & Hn & Hrec).
  set (x := log_uncaught (dispatch p e w)) in *. clearbody x.
  apply Forall_fmap. rewrite Hn.
  assert (Forall (fun rc => Forall (fun l => (fn_id l <= S (renders x))%nat) (listeners rc))
            (recorders x)) as Hweak.
  { apply (proj1 (Forall_fmap _ _ _)) in Hx. eapply Forall_impl; [exact Hx |].
    intros rc Hrc. eapply Forall_impl; [exact Hrc |]. intros l. simpl. lia. }
  rewrite Hrec.
  destruct (recorder (hook x)), (socket (hook x)), (status (hook x)), (active (hook x));
    try exact Hweak.
  destruct (decide _); [exact Hweak |].
  apply Forall_alter; [exact Hweak |].
  intros rc _ Hrc. unfold with_listener. simpl. apply Forall_app. split; [exact Hrc |].
  repeat constructor.
Qed.

Lemma listeners_inv_reachable p h w : reachable p h w -> listeners_inv w.
Proof.
  intros [evs ->]. unfold run.
  assert (listeners_inv (init h)) as H0 by constructor.
  revert H0. generalize (init h).
  induction evs as [| e evs IH]; intros w H; [exact H |].
  simpl. apply IH. now apply listeners_inv_step.
Qed.

(** X18. A [dataavailable] listener, once registered, stays: whatever
    happens next, the listeners a recorder had are still there, in the
    same order, possibly followed by a new one.
    [removeEventListener] is always handed the function object of the
    current render, which was never registered. *)
Theorem X18_listener_never_removed (p : Props) (h : Heap) (w : World) (e : Event)
    (r : nat) (rc : MediaRecorder) :
  reachable p h w -> recorders w !! r = Some rc ->
  exists rc', recorders (step p w e) !! r = Some rc' /\
              listeners rc `prefix_of` listeners rc'.
Proof.
  intros Hreach Hr. pose proof (listeners_inv_reachable p h w Hreach) as Hinv.
  unfold step.
  destruct (dispatch_listeners p e w) as [Hn Hl]. cbv zeta in Hn, Hl.
  assert (listeners_inv (log_uncaught (dispatch p e w))) as Hx.
  { unfold listeners_inv in *. rewrite Hn.
    destruct Hl as [-> | ->]; [exact Hinv |].
    apply Forall_app. split; [exact Hinv | repeat constructor]. }
  assert ((listeners <$> recorders (log_uncaught (dispatch p e w))) !! r =
          Some (listeners rc)) as Hlx.
  { destruct Hl as [-> | ->].
    - now rewrite list_lookup_fmap, Hr.
    - apply lookup_app_l_Some. now rewrite list_lookup_fmap, Hr. }
  destruct (commit_recorders _ Hx) as (_ & _ & Hrec).
  set (x := log_uncaught (dispatch p e w)) in *. clearbody x.
  rewrite list_lookup_fmap in Hlx.
  destruct (recorders x !! r) as [rcx |] eqn:Hrx; [| discriminate].
  simpl in Hlx. injection Hlx as Hls.
  assert (exists rc', recorders x !! r = Some rc' /\
                      listeners rc `prefix_of` listeners rc') as Hsame.
  { exists rcx. split; [exact Hrx | now rewrite Hls]. }
  destruct (recorder (hook x)) as [r0 |], (socket (hook x)) as [k |], (status (hook x)),
    (active (hook x)); try (rewrite Hrec; exact Hsame).
  match type of Hrec with context [decide ?P] => destruct (decide P) end;
    rewrite Hrec; [exact Hsame |].
  destruct (decide (r0 = r)) as [-> | Hne].
  - exists (with_listener {| fn_id := S (renders x); fn_socket := Some k |} rcx).
    rewrite list_lookup_alter_eq, Hrx. split; [reflexivity |].
    simpl. rewrite Hls. now apply prefix_app_r.
  - rewrite list_lookup_alter_ne by assumption. exact Hsame.
Qed.

Lemma X18_witness :
  let w := run hosted_on_safari (init hosted_heap)
             [EvMount 48000 false; EvStart; EvOpen 0%nat; EvPoll 0%nat;
              EvMicrophone 0%nat (MicGranted (Some 44100)); EvMessage 0%nat in_ready] in
  exists rc', recorders (step hosted_on_safari w EvToggleActive) !! 0%nat = Some rc' /\
              listeners {| rec_state := recording;
                           listeners := [{| fn_id := 6; fn_socket := Some 0%nat |}];
                           rec_timeSlice := VNum 46 |}
                `prefix_of` listeners rc'.
Proof.
  apply (X18_listener_never_removed hosted_on_safari hosted_heap
           (run hosted_on_safari (init hosted_heap)
              [EvMount 48000 false; EvStart; EvOpen 0%nat; EvPoll 0%nat;
               EvMicrophone 0%nat (MicGranted (Some 44100)); EvMessage 0%nat in_ready])
           EvToggleActive 0%nat).
  - eexists. reflexivity.
  - reflexivity.
Defined.

Lemma toggle_step p w :
  listeners_inv w ->
  let w' := step p w EvToggleActive in
  let d := (recorder (hook w), socket (hook w), status (hook w), negb (active (hook w))) in
  active (hook w') = negb (active (hook w)) /\
  recorder (hook w') = recorder (hook w) /\ socket (hook w') = socket (hook w) /\
  status (hook w') = status (hook w) /\ sockets w' = sockets w /\
  outbound w' = outbound w /\ renders w' = S (renders w) /\
  listener_deps w' = Some d /\
  recorders w' =
    match d with
    | (Some r, Some k, st_connected, true) =>
        if decide (listener_deps w = Some d) then recorders w
        else alter (with_listener {| fn_id := S (renders w); fn_socket := Some k |}) r
               (recorders w)
    | _ => recorders w
    end.
Proof.
  intros Hinv. cbv zeta. unfold step.
  change (log_uncaught (dispatch p EvToggleActive w))
    with (with_hook (set_active (negb (active (hook w)))) w).
  set (x := with_hook (set_active (negb (active (hook w)))) w).
  assert (listeners_inv x) as Hx by exact Hinv.
  pose proof (commit_frame x) as F. cbv zeta in F.
  destruct F as (_ & _ & F3 & F4 & F5 & _ & _ & F8 & _ & _ & F11 & _ & F13 & _).
  destruct (commit_recorders x Hx) as (Hd & Hn & Hrec).
  rewrite F3, F4, F5, F8, F11, F13, Hd, Hn, Hrec.
  repeat split.
Qed.

Lemma data_step p w r rc data :
  recorders w !! r = Some rc -> data <> "" ->
  outbound (step p w (EvData r (Some data))) =
  (outbound w ++ audio_frames (sockets w) data (listeners rc))%list.
Proof.
  intros Hr Hd. unfold step.
  match goal with |- context [commit ?x] => pose proof (commit_frame x) as F end.
  cbv zeta in F.
  destruct F as (_ & _ & _ & _ & _ & _ & _ & _ & _ & _ & _ & _ & F13 & _).
  rewrite F13. simpl. rewrite Hr. simpl. now apply fire_outbound.
Qed.

(** X19. Switching [active] off detaches nothing: the recorder keeps
    every listener it had, and the next captured chunk is sent exactly
    as it would have been sent before, one frame for each listener whose
    socket is open. *)
Theorem X19_mute_keeps_streaming (p : Props) (h : Heap) (w : World) (r : nat)
    (rc : MediaRecorder) (data : string) :
  reachable p h w -> active (hook w) = true -> recorders w !! r = Some rc -> data <> "" ->
  let w1 := step p w EvToggleActive in
  active (hook w1) = false /\ recorders w1 = recorders w /\
  outbound (step p w1 (EvData r (Some data))) =
    (outbound w ++ audio_frames (sockets w) data (listeners rc))%list /\
  outbound (step p w1 (EvData r (Some data))) = outbound (step p w (EvData r (Some data))).
Proof.
  intros Hreach Ha Hr Hd. cbv zeta.
  destruct (toggle_step p w (listeners_inv_reachable p h w Hreach))
    as (T1 & _ & _ & _ & T5 & T6 & _ & _ & T9).
  cbv zeta in T1, T5, T6, T9. rewrite Ha in T1, T9. simpl in T1, T9.
  assert (recorders (step p w EvToggleActive) = recorders w) as Hrec.
  { rewrite T9. destruct (recorder (hook w)), (socket (hook w)), (status (hook w));
      reflexivity. }
  split; [exact T1 |]. split; [exact Hrec |].
  rewrite (data_step p _ r rc data), (data_step p w r rc data), T5, T6;
    try assumption; [| now rewrite Hrec].
  split; reflexivity.
Qed.

Lemma X19_witness :
  let p := hosted_on_safari in
  let w := run p (init hosted_heap)
             [EvMount 48000 false; EvStart; EvOpen 0%nat; EvPoll 0%nat;
              EvMicrophone 0%nat (MicGranted (Some 44100)); EvMessage 0%nat in_ready] in
  let rc := {| rec_state := recording;
               listeners := [{| fn_id := 6; fn_socket := Some 0%nat |}];
               rec_timeSlice := VNum 46 |} in
  let w1 := step p w EvToggleActive in
  active (hook w1) = false /\ recorders w1 = recorders w /\
  outbound (step p w1 (EvData 0%nat (Some "UklGRg"))) =
    (outbound w ++ audio_frames (sockets w) "UklGRg" (listeners rc))%list /\
  outbound (step p w1 (EvData 0%nat (Some "UklGRg"))) =
    outbound (step p w (EvData 0%nat (Some "UklGRg"))).
Proof.
  apply (X19_mute_keeps_streaming hosted_on_safari hosted_heap
           (run hosted_on_safari (init hosted_heap)
              [EvMount 48000 false; EvStart; EvOpen 0%nat; EvPoll 0%nat;
               EvMicrophone 0%nat (MicGranted (Some 44100)); EvMessage 0%nat in_ready])
           0%nat
           {| rec_state := recording;
              listeners := [{| fn_id := 6; fn_socket := Some 0%nat |}];
              rec_timeSlice := VNum 46 |} "UklGRg").
  - eexists. reflexivity.
  - reflexivity.
  - reflexivity.
  - discriminate.
Defined.

(** X20. Switching [active] off and on again while the conversation is
    connected registers one more listener on the recorder, for the
    socket of the state, next to those it had: from then on every
    captured chunk is sent once more than before. *)
Theorem X20_unmute_adds_listener (p : Props) (h : Heap) (w : World) (r k : nat)
    (rc : MediaRecorder) (data : string) :
  reachable p h w ->
  recorder (hook w) = Some r -> socket (hook w) = Some k ->
  status (hook w) = st_connected -> active (hook w) = true ->
  recorders w !! r = Some rc -> sockets w !! k = Some OPEN -> data <> "" ->
  let w2 := run p w [EvToggleActive; EvToggleActive] in
  active (hook w2) = true /\
  recorders w2 !! r =
    Some (with_listener {| fn_id := S (S (renders w)); fn_socket := Some k |} rc) /\
  outbound (step p w2 (EvData r (Some data))) =
    (outbound (step p w (EvData r (Some data))) ++ [(k, websocket_audio data)])%list.
Proof.
  intros Hreach Hrec Hsock Hst Ha Hr Hk Hd. cbv zeta.
  pose proof (listeners_inv_reachable p h w Hreach) as Hinv.
  change (run p w [EvToggleActive; EvToggleActive])
    with (step p (step p w EvToggleActive) EvToggleActive).
  destruct (toggle_step p w Hinv) as (T1 & T2 & T3 & T4 & T5 & T6 & T7 & T8 & T9).
  cbv zeta in T1, T2, T3, T4, T5, T6, T7, T8, T9.
  rewrite Hrec, Hsock, Hst, Ha in *. simpl in T1, T8, T9.
  pose proof (listeners_inv_step p EvToggleActive w Hinv) as Hinv1.
  set (w1 := step p w EvToggleActive) in *. clearbody w1.
  destruct (toggle_step p w1 Hinv1) as (U1 & _ & _ & _ & U5 & U6 & _ & _ & U9).
  cbv zeta in U1, U5, U6, U9.
  rewrite T1, T2, T3, T4, T7, T8, T9 in *. simpl in U1, U9.
  destruct (decide _) as [Heq | _] in U9; [discriminate |].
  set (w2 := step p w1 EvToggleActive) in *. clearbody w2.
  assert (recorders w2 !! r =
          Some (with_listener {| fn_id := S (S (renders w)); fn_socket := Some k |} rc))
    as Hr2 by (rewrite U9, list_lookup_alter_eq, Hr; reflexivity).
  split; [exact U1 |]. split; [exact Hr2 |].
  rewrite (data_step p w2 r _ data Hr2 Hd), (data_step p w r rc data Hr Hd).
  rewrite U5, U6, T5, T6, <- app_assoc. f_equal.
  unfold audio_frames, with_listener. simpl. rewrite omap_app. simpl. now rewrite Hk.
Qed.

Lemma X20_witness :
  let p := hosted_on_safari in
  let w := run p (init hosted_heap)
             [EvMount 48000 false; EvStart; EvOpen 0%nat; EvPoll 0%nat;
              EvMicrophone 0%nat (MicGranted (Some 44100)); EvMessage 0%nat in_ready] in
  let rc := {| rec_state := recording;
               listeners := [{| fn_id := 6; fn_socket := Some 0%nat |}];
               rec_timeSlice := VNum 46 |} in
  let w2 := run p w [EvToggleActive; EvToggleActive] in
  active (hook w2) = true /\
  recorders w2 !! 0%nat =
    Some (with_listener {| fn_id := S (S (renders w)); fn_socket := Some 0%nat |} rc) /\
  outbound (step p w2 (EvData 0%nat (Some "UklGRg"))) =
    (outbound (step p w (EvData 0%nat (Some "UklGRg"))) ++
       [(0%nat, websocket_audio "UklGRg")])%list.
Proof.
  apply (X20_unmute_adds_listener hosted_on_safari hosted_heap
           (run hosted_on_safari (init hosted_heap)
              [EvMount 48000 false; EvStart; EvOpen 0%nat; EvPoll 0%nat;
               EvMicrophone 0%nat (MicGranted (Some 44100)); EvMessage 0%nat in_ready])
           0%nat 0%nat
           {| rec_state := recording;
              listeners := [{| fn_id := 6; fn_socket := Some 0%nat |}];
              rec_timeSlice := VNum 46 |} "UklGRg").
  - eexists. reflexivity.
  - reflexivity.
  - reflexivity.
  - reflexivity.
  - reflexivity.
  - reflexivity.
  - reflexivity.
  - discriminate.
Defined.

(** ** start() on a running session *)

Lemma startConversation_connects p w ctx url :
  audioContext (hook w) = Some ctx -> audioAnalyser (hook w) = true ->
  negb (isSafari p) && negb (isChrome p) = false ->
  getBackendUrl (config p) = inr url ->
  startConversation p (hook w) w =
  (with_hook (set_socket (Some (length (sockets w))))
     (set_starts
        (starts w ++
           [{| t_recorder := recorder (hook w); t_socket := socket (hook w);
               t_sampleRate := sampleRate ctx; t_error := None; t_phase := AwaitOpen |}])%list
        (set_sockets (sockets w ++ [CONNECTING])%list
           (with_hook (set_error None)
              (set_suspended false
                 (with_hook (set_status st_connecting) w))))), inr tt).
Proof.
  intros Hc Ha Hb Hu. unfold startConversation. rewrite Hc, Ha, Hb, Hu.
  unfold new_WebSocket. monad. simpl.
  destruct (suspended w) eqn:Hs; simpl; [reflexivity |].
  destruct w as [hk hp sp sk rs ar st pb ld rn ob pl un]. simpl in *. now rewrite Hs.
Qed.

Lemma omap_pointwise {A B} (f g : A -> option B) (l : list A) :
  (forall x, f x = g x) -> omap f l = omap g l.
Proof.
  intros H. induction l as [| x l IH]; [reflexivity |].
  simpl. rewrite H. destruct (g x); [f_equal |]; exact IH.
Qed.

Lemma audio_frames_connecting socks data ls :
  audio_frames (socks ++ [CONNECTING]) data ls = audio_frames socks data ls.
Proof.
  unfold audio_frames. apply omap_pointwise. intros l.
  destruct (fn_socket l) as [k |]; [| reflexivity].
  destruct (decide (k < length socks)%nat) as [Hlt | Hge].
  - now rewrite lookup_app_l.
  - rewrite lookup_app_r, (lookup_ge_None_2 socks k) by lia.
    destruct (k - length socks)%nat as [| n]; [reflexivity |]. now destruct n.
Qed.

Lemma audio_frames_bound socks data ls :
  Forall (fun f => fst f <> length socks) (audio_frames socks data ls).
Proof.
  unfold audio_frames. induction ls as [| l ls IH]; [constructor |].
  simpl. destruct (fn_socket l) as [k |]; [| exact IH].
  destruct (socks !! k) as [[] |] eqn:Hk; try exact IH.
  constructor; [| exact IH]. simpl. apply lookup_lt_Some in Hk. lia.
Qed.

(** X21. start() on a supported browser with a usable configuration,
    whatever session is running: it opens one more socket and stores it
    in the state, but closes no socket and stops no recorder; the
    status goes back to [connecting], the error is cleared and nothing
    is sent.  The call captured the recorder and socket of the state it
    was created in.  The chunk captured next, before any other event,
    is sent as it would have been without this start(): one frame for
    each listener whose socket is open, none to the new socket. *)
Theorem X21_start_keeps_old_socket (p : Props) (w : World) (ctx : AudioContext)
    (url : string) :
  audioContext (hook w) = Some ctx -> audioAnalyser (hook w) = true ->
  negb (isSafari p) && negb (isChrome p) = false ->
  getBackendUrl (config p) = inr url ->
  let w' := step p w EvStart in
  sockets w' = (sockets w ++ [CONNECTING])%list /\
  socket (hook w') = Some (length (sockets w)) /\
  recorder (hook w') = recorder (hook w) /\ recorders w' = recorders w /\
  status (hook w') = st_connecting /\ error (hook w') = None /\
  outbound w' = outbound w /\ uncaught w' = uncaught w /\
  starts w' =
    (starts w ++
       [{| t_recorder := recorder (hook w); t_socket := socket (hook w);
           t_sampleRate := sampleRate ctx; t_error := None; t_phase := AwaitOpen |}])%list /\
  (forall r rc data, recorders w !! r = Some rc -> data <> "" ->
     outbound (step p w' (EvData r (Some data))) =
       outbound (step p w (EvData r (Some data))) /\
     outbound (step p w' (EvData r (Some data))) =
       (outbound w ++ audio_frames (sockets w) data (listeners rc))%list /\
     Forall (fun f => fst f <> length (sockets w))
       (audio_frames (sockets w) data (listeners rc))).
Proof.
  intros Hc Ha Hb Hu. cbv zeta. unfold step at 1 2 3 4 5 6 7 8 9.
  change (dispatch p EvStart w) with (startConversation p (hook w) w).
  rewrite (startConversation_connects p w ctx url Hc Ha Hb Hu). cbn [log_uncaught].
  match goal with |- context [commit ?x] =>
    pose proof (commit_frame x) as F; pose proof (commit_quiet x) as Q
  end.
  cbv zeta in F.
  destruct F as (_ & _ & F3 & F4 & F5 & F6 & _ & _ & _ & _ & F11 & F12 & F13 & _ & F15 & _).
  specialize (Q ltac:(discriminate)).
  assert (forall r rc data, recorders w !! r = Some rc -> data <> "" ->
            outbound (step p (step p w EvStart) (EvData r (Some data))) =
              outbound (step p w (EvData r (Some data))) /\
            outbound (step p (step p w EvStart) (EvData r (Some data))) =
              (outbound w ++ audio_frames (sockets w) data (listeners rc))%list /\
            Forall (fun f => fst f <> length (sockets w))
              (audio_frames (sockets w) data (listeners rc))) as Hdata.
  { intros r rc data Hr Hd.
    assert (outbound (step p (step p w EvStart) (EvData r (Some data))) =
            (outbound w ++ audio_frames (sockets w) data (listeners rc))%list) as E.
    { unfold step at 2.
      change (dispatch p EvStart w) with (startConversation p (hook w) w).
      rewrite (startConversation_connects p w ctx url Hc Ha Hb Hu). cbn [log_uncaught].
      rewrite (data_step p _ r rc data), F11, F13; [| now rewrite Q | assumption].
      cbn [sockets outbound set_sockets set_starts with_hook set_suspended].
      now rewrite audio_frames_connecting. }
    split; [now rewrite E, (data_step p w r rc data Hr Hd) |].
    split; [exact E | apply audio_frames_bound]. }
  rewrite F3, F4, F5, F6, F11, F12, F13, F15, Q.
  do 9 (split; [reflexivity |]). exact Hdata.
Qed.

Lemma X21_witness :
  let p := hosted_on_safari in
  let w := run p (init hosted_heap)
             [EvMount 48000 false; EvStart; EvOpen 0%nat; EvPoll 0%nat;
              EvMicrophone 0%nat (MicGranted (Some 44100)); EvMessage 0%nat in_ready] in
  let w' := step p w EvStart in
  sockets w' = (sockets w ++ [CONNECTING])%list /\
  socket (hook w') = Some (length (sockets w)) /\
  recorder (hook w') = recorder (hook w) /\ recorders w' = recorders w /\
  status (hook w') = st_connecting /\ error (hook w') = None /\
  outbound w' = outbound w /\ uncaught w' = uncaught w /\
  starts w' =
    (starts w ++
       [{| t_recorder := recorder (hook w); t_socket := socket (hook w);
           t_sampleRate := sampleRate {| sampleRate := 48000 |}; t_error := None;
           t_phase := AwaitOpen |}])%list /\
  (forall r rc data, recorders w !! r = Some rc -> data <> "" ->
     outbound (step p w' (EvData r (Some data))) =
       outbound (step p w (EvData r (Some data))) /\
     outbound (step p w' (EvData r (Some data))) =
       (outbound w ++ audio_frames (sockets w) data (listeners rc))%list /\
     Forall (fun f => fst f <> length (sockets w))
       (audio_frames (sockets w) data (listeners rc))).
Proof.
  apply (X21_start_keeps_old_socket hosted_on_safari
           (run hosted_on_safari (init hosted_heap)
              [EvMount 48000 false; EvStart; EvOpen 0%nat; EvPoll 0%nat;
               EvMicrophone 0%nat (MicGranted (Some 44100)); EvMessage 0%nat in_ready])
           {| sampleRate := 48000 |} "wss://api.vocode.dev/conversation?key=key");
    reflexivity.
Defined.

(** ** What getStartMessage leaves in the configuration objects *)

Lemma assign_lookup m (ob : Obj) key :
  (metadata_obj m ∪ ob) !! key = assigned m (ob !! key) key.
Proof.
  unfold assigned.
  destruct (String.eqb_spec key "samplingRate") as [-> | K1].
  { apply lookup_union_Some_l. reflexivity. }
  destruct (String.eqb_spec key "audioEncoding") as [-> | K2].
  { apply lookup_union_Some_l. reflexivity. }
  now apply assign_other.
Qed.

Lemma downsampling_lookup (c : bool) (ob : Obj) key :
  (if c then <["downsampling" := VNum 2]> ob else ob) !! key = downsampled c (ob !! key) key.
Proof.
  unfold downsampled. destruct c; simpl; [| reflexivity].
  destruct (String.eqb_spec key "downsampling") as [-> | K].
  - apply lookup_insert_eq.
  - apply lookup_insert_ne. congruence.
Qed.

Lemma assign_twice m (ob : Obj) : metadata_obj m ∪ (metadata_obj m ∪ ob) = metadata_obj m ∪ ob.
Proof. now rewrite (assoc_L (∪)), (idemp_L (∪)). Qed.

Lemma is_deepgram_type (ob ob' : Obj) :
  ob' !! "type" = ob !! "type" -> is_deepgram ob' = is_deepgram ob.
Proof. unfold is_deepgram, get_field. now intros ->. Qed.

(** The store [getStartMessage] returns: the two configuration objects
    rewritten, everything else as it was. *)
Lemma getStartMessage_heap safari t a s v i o h :
  let c := safari && is_deepgram (deref h t) in
  let ot := metadata_obj i ∪
            (if c then <["downsampling" := VNum 2]> (metadata_obj i ∪ deref h t)
             else metadata_obj i ∪ deref h t) in
  getStartMessage safari t a s v i o h =
  (<[s := metadata_obj o ∪ (if decide (s = t) then ot else deref h s)]> (<[t := ot]> h),
   StartMsg t a s (vocodeConversationId v)).
Proof.
  cbv zeta. unfold getStartMessage, Object_assign, set_field. cbn beta iota zeta.
  rewrite deref_insert, is_deepgram_assign.
  destruct (safari && is_deepgram (deref h t)).
  - rewrite !deref_insert, !insert_insert_eq. f_equal. f_equal.
    destruct (decide (s = t)) as [-> | Hne]; [now rewrite deref_insert |].
    now rewrite deref_insert_ne by congruence.
  - rewrite !deref_insert, !insert_insert_eq. f_equal. f_equal.
    destruct (decide (s = t)) as [-> | Hne]; [now rewrite deref_insert |].
    now rewrite deref_insert_ne by congruence.
Qed.

Lemma insert_downsampling_lookup (ob : Obj) key :
  <["downsampling" := VNum 2]> ob !! key = downsampled true (ob !! key) key.
Proof. apply (downsampling_lookup true). Qed.

Ltac by_key :=
  apply map_eq; intros key; simpl;
  repeat first [rewrite assign_lookup | rewrite insert_downsampling_lookup
               | rewrite downsampling_lookup];
  unfold assigned, downsampled;
  repeat match goal with
         | |- context [String.eqb key ?k] => destruct (String.eqb_spec key k); subst
         end;
  simpl; rewrite ?andb_false_r, ?andb_true_r; try reflexivity; try congruence;
  repeat match goal with
         | |- context [if ?b then _ else _] => destruct b
         end; try reflexivity; try congruence.

Lemma transcriber_object_type (c : bool) i (ob : Obj) :
  is_deepgram
    (metadata_obj i ∪
       (if c then <["downsampling" := VNum 2]> (metadata_obj i ∪ ob)
        else metadata_obj i ∪ ob)) = is_deepgram ob.
Proof.
  apply is_deepgram_type.
  rewrite assign_lookup, downsampling_lookup, assign_lookup.
  unfold assigned, downsampled. simpl. now rewrite andb_false_r.
Qed.

Lemma getStartMessage_idempotent safari t a s v i o h :
  let r := getStartMessage safari t a s v i o h in
  getStartMessage safari t a s v i o (fst r) = r.
Proof.
  cbv zeta. rewrite (getStartMessage_heap safari t a s v i o h). cbv zeta. cbn [fst].
  rewrite getStartMessage_heap. cbv zeta. f_equal.
  destruct (decide (s = t)) as [-> | Hne].
  - rewrite !insert_insert_eq, !deref_insert.
    rewrite is_deepgram_assign, transcriber_object_type.
    f_equal. destruct (safari && is_deepgram (deref h t)); by_key.
  - rewrite (deref_insert_ne _ s t) by congruence. rewrite !deref_insert.
    rewrite transcriber_object_type.
    assert (forall (c : bool) (ob : Obj),
              metadata_obj i ∪
                (if c then <["downsampling" := VNum 2]>
                             (metadata_obj i ∪
                                (metadata_obj i ∪
                                   (if c then <["downsampling" := VNum 2]> (metadata_obj i ∪ ob)
                                    else metadata_obj i ∪ ob)))
                 else metadata_obj i ∪
                        (metadata_obj i ∪
                           (if c then <["downsampling" := VNum 2]> (metadata_obj i ∪ ob)
                            else metadata_obj i ∪ ob))) =
              metadata_obj i ∪
                (if c then <["downsampling" := VNum 2]> (metadata_obj i ∪ ob)
                 else metadata_obj i ∪ ob)) as ->.
    { intros c ob. destruct c; by_key. }
    rewrite assign_twice.
    rewrite (insert_insert_ne _ t s) by congruence.
    now rewrite !insert_insert_eq.
Qed.

(** X22. The full-service start message refers to the caller's own
    configuration objects, and [getStartMessage] writes the audio
    metadata into them: whatever sampling rate and encoding the
    transcriber and synthesizer configurations had is replaced, by the
    input metadata in the transcriber and the output metadata in the
    synthesizer (the output metadata wins when both are one object),
    and [downsampling] is set to 2 on Safari with a Deepgram
    transcriber.  Every other property and every other object is left
    as it was, and building the message again for the same metadata
    changes nothing more. *)
Theorem X22_start_message_overwrites_metadata (p : Props) (i o : AudioMetadata) (h : Heap)
    (t : loc) (a : JsVal) (s : loc) (v : VocodeConfig) :
  transcriberConfig (config p) = Some t ->
  agentConfig (config p) = Some a ->
  synthesizerConfig (config p) = Some s ->
  vocodeConfig (config p) = Some v ->
  let r := make_start_message p i o h in
  let c := isSafari p && is_deepgram (deref h t) in
  let transcriber key := assigned i (downsampled c (deref h t !! key) key) key in
  snd r = StartMsg t a s (vocodeConversationId v) /\
  (forall key, deref (fst r) s !! key =
               assigned o (if decide (s = t) then transcriber key else deref h s !! key) key) /\
  (t <> s -> forall key, deref (fst r) t !! key = transcriber key) /\
  (forall l, l <> t -> l <> s -> fst r !! l = h !! l) /\
  make_start_message p i o (fst r) = r.
Proof.
  intros Ht Ha Hs Hv. cbv zeta.
  rewrite (make_start_message_full p i o h t a s v Ht Ha Hs Hv).
  rewrite (make_start_message_full p i o _ t a s v Ht Ha Hs Hv).
  split; [| split; [| split; [| split]]].
  - now rewrite getStartMessage_heap.
  - intros key. rewrite getStartMessage_heap. cbv zeta. cbn [fst].
    rewrite deref_insert, assign_lookup.
    destruct (decide (s = t)) as [-> | Hne]; [| reflexivity].
    rewrite assign_lookup, downsampling_lookup, assign_lookup.
    unfold assigned, downsampled.
    destruct (String.eqb key "samplingRate"), (String.eqb key "audioEncoding");
      try reflexivity.
  - intros Hne key. rewrite getStartMessage_heap. cbv zeta. cbn [fst].
    rewrite deref_insert_ne, deref_insert by congruence.
    rewrite assign_lookup, downsampling_lookup, assign_lookup.
    unfold assigned, downsampled.
    destruct (String.eqb key "samplingRate"), (String.eqb key "audioEncoding");
      try reflexivity.
  - intros l Hlt Hls. rewrite getStartMessage_heap. cbv zeta. cbn [fst].
    now rewrite !lookup_insert_ne by congruence.
  - apply getStartMessage_idempotent.
Qed.

Lemma X22_witness :
  let p := hosted_on_safari in
  let i := linear16 44100 in
  let o := linear16 48000 in
  let h := hosted_heap in
  let r := make_start_message p i o h in
  let c := isSafari p && is_deepgram (deref h 0%nat) in
  let transcriber key := assigned i (downsampled c (deref h 0%nat !! key) key) key in
  snd r = StartMsg 0%nat (VObj 2%nat) 1%nat None /\
  (forall key, deref (fst r) 1%nat !! key =
               assigned o (if decide (1%nat = 0%nat) then transcriber key
                           else deref h 1%nat !! key) key) /\
  (0%nat <> 1%nat -> forall key, deref (fst r) 0%nat !! key = transcriber key) /\
  (forall l, l <> 0%nat -> l <> 1%nat -> fst r !! l = h !! l) /\
  make_start_message p i o (fst r) = r.
Proof.
  apply (X22_start_message_overwrites_metadata hosted_on_safari (linear16 44100)
           (linear16 48000) hosted_heap 0%nat (VObj 2%nat) 1%nat
           {| apiKey := "key"; baseUrl := None; vocodeConversationId := None |});
    reflexivity.
Defined.

(** ** The status and the error *)

Lemma dispatch_status_error p e w :
  let w' := log_uncaught (dispatch p e w) in
  (status (hook w') = status (hook w) /\ error (hook w') = error (hook w)) \/
  status (hook w') <> st_error \/ is_Some (error (hook w')).
Proof.
  destruct e;
    try (handlers; crunch;
         first [left; split; reflexivity | right; left; discriminate
               | right; right; eexists; reflexivity]; fail).
  cbv zeta. simpl. destruct (recorders w !! r); simpl; [| left; split; reflexivity].
  pose proof (fire_frame (listeners m) base64 w) as F. cbv zeta in F.
  destruct F as (F1 & _). rewrite F1. left. split; reflexivity.
Qed.

(** X23. In every world the hook can reach, the status [error] comes
    with an error in the state: the status is set to [error] only
    together with the error, and start(), the only place that clears
    the error, has set the status to [connecting] before. *)
Theorem X23_error_status_has_error (p : Props) (h : Heap) (w : World) :
  reachable p h w -> status (hook w) = st_error -> exists e, error (hook w) = Some e.
Proof.
  intros [evs ->]. unfold run.
  assert (status (hook (init h)) = st_error -> is_Some (error (hook (init h)))) as H0
    by discriminate.
  revert H0. generalize (init h).
  induction evs as [| e evs IH]; intros w H; [exact H |].
  simpl. apply IH. unfold step.
  pose proof (commit_frame (log_uncaught (dispatch p e w))) as F. cbv zeta in F.
  destruct F as (_ & _ & _ & _ & F5 & F6 & _). rewrite F5, F6.
  destruct (dispatch_status_error p e w) as [[-> ->] | [Hne | Hs]]; cbv zeta in *;
    [exact H | intros; contradiction | intros _; exact Hs].
Qed.

Lemma X23_witness :
  exists e,
    error (hook (run hosted_on_safari (init hosted_heap)
                   [EvMount 48000 false; EvStart; EvOpen 0%nat; EvPoll 0%nat;
                    EvMicrophone 0%nat MicNotAllowed; EvMessage 0%nat (in_audio "A")]))
    = Some e.
Proof.
  apply (X23_error_status_has_error hosted_on_safari hosted_heap).
  - eexists. reflexivity.
  - reflexivity.
Defined.

(** ** stop() with a channel, and stop() before there is one *)

Lemma stopConversation_open r k rc w :
  recorders w !! r = Some rc -> rec_state rc <> inactive -> sockets w !! k = Some OPEN ->
  stopConversation (Some r) (Some k) None w =
  (set_sockets (<[k := CLOSING]> (sockets w))
     (set_outbound (outbound w ++ [(k, websocket_stop)])%list
        (set_recorders (<[r := set_rec_state inactive rc]> (recorders w))
           (with_hook (set_status st_idle)
              (with_hook (set_currentSpeaker sp_none)
                 (with_hook (set_audioQueue (length (arrays w)))
                    (set_arrays (arrays w ++ [[]])%list w)))))), inr tt).
Proof.
  intros Hr Hst Hk. unfold stopConversation, recorder_stop, socket_send, socket_close. monad.
  simpl. rewrite Hr. destruct (rec_state rc) eqn:E; [congruence | |];
    simpl; rewrite Hk; simpl; rewrite Hk; reflexivity.
Qed.

(** X24. stop() on a session whose recorder is running and whose
    socket is open: the recorder is stopped, [websocket_stop] is the
    one frame sent, on that socket, and the socket is closing
    afterwards; the status is [idle], the queue is empty and nothing
    is thrown. *)
Theorem X24_stop_closes_channel (p : Props) (w : World) (r k : nat) (rc : MediaRecorder) :
  recorder (hook w) = Some r -> socket (hook w) = Some k ->
  recorders w !! r = Some rc -> rec_state rc <> inactive ->
  sockets w !! k = Some OPEN ->
  let w' := step p w EvStop in
  outbound w' = (outbound w ++ [(k, websocket_stop)])%list /\
  sockets w' = <[k := CLOSING]> (sockets w) /\
  rec_state <$> recorders w' !! r = Some inactive /\
  status (hook w') = st_idle /\ queue w' = [] /\ uncaught w' = uncaught w.
Proof.
  intros Hrec Hsock Hr Hst Hk. cbv zeta. unfold step.
  change (dispatch p EvStop w)
    with (stopConversation (recorder (hook w)) (socket (hook w)) None w).
  rewrite Hrec, Hsock, (stopConversation_open r k rc w Hr Hst Hk). cbn [log_uncaught].
  match goal with |- context [commit ?x] =>
    pose proof (commit_frame x) as F; pose proof (commit_quiet x) as Q;
    pose proof (commit_empty_queue x) as P
  end.
  cbv zeta in F.
  destruct F as (_ & _ & _ & _ & F5 & _ & _ & _ & _ & _ & F11 & _ & F13 & _ & F15 & _).
  rewrite F5, F11, F13, F15, Q by discriminate.
  split; [reflexivity |]. split; [reflexivity |].
  split; [simpl; rewrite list_lookup_insert_eq by (now apply lookup_lt_Some in Hr);
          reflexivity |].
  split; [reflexivity |]. split; [| reflexivity].
  apply P. unfold queue, array_of. simpl. now rewrite list_lookup_middle.
Qed.

Lemma X24_witness :
  let p := hosted_on_safari in
  let w := run p (init hosted_heap)
             [EvMount 48000 false; EvStart; EvOpen 0%nat; EvPoll 0%nat;
              EvMicrophone 0%nat (MicGranted (Some 44100)); EvMessage 0%nat in_ready] in
  let w' := step p w EvStop in
  outbound w' = (outbound w ++ [(0%nat, websocket_stop)])%list /\
  sockets w' = <[0%nat := CLOSING]> (sockets w) /\
  rec_state <$> recorders w' !! 0%nat = Some inactive /\
  status (hook w') = st_idle /\ queue w' = [] /\ uncaught w' = uncaught w.
Proof.
  apply (X24_stop_closes_channel hosted_on_safari
           (run hosted_on_safari (init hosted_heap)
              [EvMount 48000 false; EvStart; EvOpen 0%nat; EvPoll 0%nat;
               EvMicrophone 0%nat (MicGranted (Some 44100)); EvMessage 0%nat in_ready])
           0%nat 0%nat
           {| rec_state := recording;
              listeners := [{| fn_id := 6; fn_socket := Some 0%nat |}];
              rec_timeSlice := VNum 46 |}).
  - reflexivity.
  - reflexivity.
  - reflexivity.
  - discriminate.
  - reflexivity.
Defined.

(** X25. stop() during the first connection attempt cancels nothing:
    the hook holds no recorder yet, so [stopConversation] returns
    before it reaches the socket.  The socket stays as it is, the
    status says [idle], and when the socket opens the suspended start()
    goes on and sends its start message. *)
Theorem X25_stop_while_connecting (p : Props) (w : World) (k : nat) (t : StartTask) :
  recorder (hook w) = None ->
  starts w !! k = Some t -> t_phase t = AwaitOpen -> useRecorder p = false ->
  sockets w !! k = Some CONNECTING ->
  let w1 := step p w EvStop in
  let w3 := run p w1 [EvOpen k; EvPoll k] in
  status (hook w1) = st_idle /\ sockets w1 = sockets w /\ outbound w1 = outbound w /\
  t_phase <$> starts w1 !! k = Some AwaitOpen /\
  status (hook w3) = st_idle /\ sockets w3 !! k = Some OPEN /\
  outbound w3 =
    (outbound w ++
       [(k, serialized_start p (linear16 (t_sampleRate t))
              (linear16 (or_num (outputSamplingRate (audioDeviceConfig (config p)))
                           (t_sampleRate t)))
              (heap w))])%list /\
  t_phase <$> starts w3 !! k = Some Sent.
Proof.
  intros Hrec Ht Hph Hu Hk. cbv zeta.
  assert (let w1 := step p w EvStop in
          status (hook w1) = st_idle /\ sockets w1 = sockets w /\
          outbound w1 = outbound w /\ starts w1 = starts w /\ heap w1 = heap w) as H1.
  { cbv zeta. unfold step.
    change (dispatch p EvStop w)
      with (stopConversation (recorder (hook w)) (socket (hook w)) None w).
    rewrite Hrec, stopConversation_early by now left. cbn [log_uncaught].
    match goal with |- context [commit ?x] => pose proof (commit_frame x) as F end.
    cbv zeta in F.
    destruct F as (_ & _ & _ & _ & F5 & _ & _ & _ & F9 & _ & F11 & F12 & F13 & _).
    rewrite F5, F9, F11, F12, F13. repeat split. }
  cbv zeta in H1. destruct H1 as (A1 & A2 & A3 & A4 & A5).
  set (w1 := step p w EvStop) in *. clearbody w1.
  change (run p w1 [EvOpen k; EvPoll k]) with (step p (step p w1 (EvOpen k)) (EvPoll k)).
  assert (let w2 := step p w1 (EvOpen k) in
          status (hook w2) = st_idle /\ sockets w2 = <[k := OPEN]> (sockets w) /\
          outbound w2 = outbound w /\ starts w2 = starts w /\ heap w2 = heap w) as H2.
  { cbv zeta. unfold step.
    match goal with |- context [commit ?x] => pose proof (commit_frame x) as F end.
    cbv zeta in F.
    destruct F as (_ & _ & _ & _ & F5 & _ & _ & _ & F9 & _ & F11 & F12 & F13 & _).
    rewrite F5, F9, F11, F12, F13. simpl. rewrite A2, Hk. simpl.
    rewrite A1, A3, A4, A5. repeat split. }
  cbv zeta in H2. destruct H2 as (B1 & B2 & B3 & B4 & B5).
  set (w2 := step p w1 (EvOpen k)) in *. clearbody w2.
  assert (sockets w2 !! k = Some OPEN) as Hk2.
  { rewrite B2. apply list_lookup_insert_eq. now apply lookup_lt_Some in Hk. }
  assert (starts w2 !! k = Some t) as Ht2 by now rewrite B4.
  split; [exact A1 |]. split; [exact A2 |]. split; [exact A3 |].
  split; [now rewrite A4, Ht; simpl; rewrite Hph |].
  unfold step.
  match goal with |- context [commit ?x] => pose proof (commit_frame x) as F end.
  cbv zeta in F.
  destruct F as (_ & _ & _ & _ & F5 & _ & _ & _ & _ & _ & F11 & F12 & F13 & _).
  rewrite F5, F11, F12, F13.
  change (dispatch p (EvPoll k) w2) with (poll p k w2).
  rewrite (poll_open p w2 k t Ht2 Hph Hu Hk2). cbv zeta. cbn [log_uncaught].
  simpl. rewrite B1, B3, B5, list_lookup_alter_eq, Ht2. repeat split. exact Hk2.
Qed.

Lemma X25_witness :
  let p := listen_only in
  let w := run p (init ∅) [EvMount 48000 false; EvStart] in
  let t := {| t_recorder := None; t_socket := None; t_sampleRate := 48000;
              t_error := None; t_phase := AwaitOpen |} in
  let w1 := step p w EvStop in
  let w3 := run p w1 [EvOpen 0%nat; EvPoll 0%nat] in
  status (hook w1) = st_idle /\ sockets w1 = sockets w /\ outbound w1 = outbound w /\
  t_phase <$> starts w1 !! 0%nat = Some AwaitOpen /\
  status (hook w3) = st_idle /\ sockets w3 !! 0%nat = Some OPEN /\
  outbound w3 =
    (outbound w ++
       [(0%nat, serialized_start p (linear16 (t_sampleRate t))
              (linear16 (or_num (outputSamplingRate (audioDeviceConfig (config p)))
                           (t_sampleRate t)))
              (heap w))])%list /\
  t_phase <$> starts w3 !! 0%nat = Some Sent.
Proof.
  apply (X25_stop_while_connecting listen_only
           (run listen_only (init ∅) [EvMount 48000 false; EvStart]) 0%nat
           {| t_recorder := None; t_socket := None; t_sampleRate := 48000;
              t_error := None; t_phase := AwaitOpen |}); reflexivity.
Defined.

(** ** The handshake as a whole *)

Lemma starts_on_elem k out f : In f (starts_on k out) -> f ∈ out /\ fst f = k.
Proof.
  unfold starts_on. intros Hin. apply filter_In in Hin as [Hin Hf].
  apply andb_true_iff in Hf as [Hk _]. apply Nat.eqb_eq in Hk.
  split; [now apply list_elem_of_In | exact Hk].
Qed.

Lemma microphone_granted_status p w k t rate :
  starts w !! k = Some t -> t_phase t = AwaitMic -> sockets w !! k = Some OPEN ->
  (forall r, t_recorder t = Some r -> is_Some (recorders w !! r)) ->
  status (hook (fst (dispatch p (EvMicrophone k (MicGranted rate)) w))) = status (hook w).
Proof.
  intros Ht Hph Hk Hrec. simpl. unfold microphone. rewrite Ht, Hph.
  unfold send_start_and_record, linear16, socket_send, setPhase, new_MediaRecorder,
    recorder_resume, recorder_start, recorder_state_of, setRecorder. monad.
  cbn beta iota zeta.
  destruct (make_start_message p _ _ (heap w)) as [h' msg]. simpl. rewrite Hk. simpl.
  destruct (t_recorder t) as [r |] eqn:Hr.
  - destruct (Hrec r eq_refl) as [rc Hrc]. simpl. rewrite Hrc. simpl.
    pose proof (lookup_lt_Some _ _ _ Hrc) as Hlt.
    destruct (rec_state rc) eqn:Hst; simpl; rewrite ?Hrc; simpl; rewrite ?Hst; simpl;
      rewrite ?list_lookup_insert_eq by assumption; simpl; rewrite ?Hrc; simpl;
      rewrite ?Hst; reflexivity.
  - simpl. rewrite ?(lookup_ge_None_2 (recorders w) (length (recorders w))) by lia.
    simpl. rewrite ?list_lookup_middle by reflexivity. simpl.
    rewrite ?list_lookup_middle by reflexivity. reflexivity.
Qed.

(** C1, amended.  In every world the hook can reach: each socket,
    and so each call of start(), has carried at most one start message,
    and only after the socket has left the connecting state; while
    start() has opened at most one socket every outbound
    [websocket_audio] frame comes after the start message, which is the
    first frame of all.  The start message does not wait for
    [websocket_ready]: without the recorder it goes out at the first
    tick that finds the socket open, with the recorder when the
    microphone is granted on an open socket, exactly one frame in both
    cases and none on that socket before. *)
Theorem C1_start_message_handshake (p : Props) (h : Heap) (w : World) :
  reachable p h w ->
  (forall k,
     (length (starts_on k (outbound w)) <= 1)%nat /\
     (starts_on k (outbound w) <> [] ->
      exists rs, sockets w !! k = Some rs /\ rs <> CONNECTING)) /\
  ((length (sockets w) <= 1)%nat ->
   forall i k d, outbound w !! i = Some (k, websocket_audio d) ->
     (0 < i)%nat /\
     exists m, outbound w !! 0%nat = Some (k, m) /\ is_start_variant m = true) /\
  (forall k t, starts w !! k = Some t -> t_phase t = AwaitOpen -> useRecorder p = false ->
     sockets w !! k = Some OPEN ->
     let w' := step p w (EvPoll k) in
     starts_on k (outbound w) = [] /\
     status (hook w') = status (hook w) /\
     exists m, outbound w' = (outbound w ++ [(k, m)])%list /\ is_start_variant m = true) /\
  (forall k t rate, starts w !! k = Some t -> t_phase t = AwaitMic ->
     sockets w !! k = Some OPEN ->
     (forall r, t_recorder t = Some r -> is_Some (recorders w !! r)) ->
     let w' := step p w (EvMicrophone k (MicGranted rate)) in
     starts_on k (outbound w) = [] /\
     status (hook w') = status (hook w) /\
     exists m, outbound w' = (outbound w ++ [(k, m)])%list /\ is_start_variant m = true).
Proof.
  intros Hr. destruct (proto_inv_reachable p h w Hr) as (_ & Ib & If & _ & _ & Ik).
  simpl in Ib, If, Ik.
  assert (forall k t, starts w !! k = Some t -> t_phase t <> Sent ->
                      starts_on k (outbound w) = []) as Hnone.
  { intros k t Ht Hph. specialize (Ib k). rewrite list_lookup_fmap, Ht in Ib. simpl in Ib.
    destruct (starts_on k (outbound w)); [reflexivity |].
    simpl in Ib. destruct (t_phase t); try lia. congruence. }
  split; [| split; [| split]].
  - intros k. split.
    + specialize (Ib k). destruct (_ !! k) as [[] |]; lia.
    + intros Hne. destruct (starts_on k (outbound w)) as [| [k' m] l] eqn:E; [congruence |].
      destruct (starts_on_elem k (outbound w) (k', m)) as [Hin Hk]; [rewrite E; now left |].
      simpl in Hk. subst k'. exact (If k m Hin).
  - intros Hlen i k d Hi. specialize (Ik Hlen).
    assert (forall k m, (k, m) ∈ outbound w -> k = 0%nat) as Hzero.
    { intros k' m Hin. destruct (If k' m Hin) as (rs & Hrs & _).
      apply lookup_lt_Some in Hrs. lia. }
    pose proof (Hzero _ _ (list_elem_of_lookup_2 _ _ _ Hi)) as ->.
    destruct (outbound w) as [| [k0 m0] rest]; [discriminate |].
    simpl in Ik. destruct i as [| i].
    + injection Hi as _ ->. discriminate.
    + split; [lia |]. exists m0. rewrite (Hzero k0 m0) by now left.
      split; [reflexivity | exact Ik].
  - intros k t Ht Hph Hu Hk. cbv zeta.
    split; [apply (Hnone k t Ht); congruence |].
    unfold step.
    match goal with |- context [commit ?x] => pose proof (commit_frame x) as F end.
    cbv zeta in F.
    destruct F as (_ & _ & _ & _ & F5 & _ & _ & _ & _ & _ & _ & _ & F13 & _).
    rewrite F5, F13. clear F5 F13.
    change (dispatch p (EvPoll k) w) with (poll p k w).
    rewrite (poll_open p w k t Ht Hph Hu Hk). cbv zeta. cbn [log_uncaught]. simpl.
    split; [reflexivity |]. eexists. split; [reflexivity |].
    unfold serialized_start. apply stringify_is_start.
  - intros k t rate Ht Hph Hk Hrec. cbv zeta.
    split; [apply (Hnone k t Ht); congruence |].
    destruct (microphone_granted_dispatch p w k t rate Ht Hph Hk Hrec)
      as (x & rcx & Hx & X1 & _).
    cbv zeta in X1.
    pose proof (microphone_granted_status p w k t rate Ht Hph Hk Hrec) as Hst.
    unfold step. rewrite Hx in *. cbn [log_uncaught]. cbn [fst] in Hst.
    pose proof (commit_frame x) as F. cbv zeta in F.
    destruct F as (_ & _ & _ & _ & F5 & _ & _ & _ & _ & _ & _ & _ & F13 & _).
    rewrite F5, F13, X1.
    split; [exact Hst |]. eexists. split; [reflexivity |]. apply stringify_is_start.
Qed.
Lemma C1_witness :
  let p := listen_only in
  let w := run p (init ∅) [EvMount 48000 false; EvStart; EvOpen 0%nat] in
  (forall k,
     (length (starts_on k (outbound w)) <= 1)%nat /\
     (starts_on k (outbound w) <> [] ->
      exists rs, sockets w !! k = Some rs /\ rs <> CONNECTING)) /\
  ((length (sockets w) <= 1)%nat ->
   forall i k d, outbound w !! i = Some (k, websocket_audio d) ->
     (0 < i)%nat /\
     exists m, outbound w !! 0%nat = Some (k, m) /\ is_start_variant m = true) /\
  (forall k t, starts w !! k = Some t -> t_phase t = AwaitOpen -> useRecorder p = false ->
     sockets w !! k = Some OPEN ->
     let w' := step p w (EvPoll k) in
     starts_on k (outbound w) = [] /\
     status (hook w') = status (hook w) /\
     exists m, outbound w' = (outbound w ++ [(k, m)])%list /\ is_start_variant m = true) /\
  (forall k t rate, starts w !! k = Some t -> t_phase t = AwaitMic ->
     sockets w !! k = Some OPEN ->
     (forall r, t_recorder t = Some r -> is_Some (recorders w !! r)) ->
     let w' := step p w (EvMicrophone k (MicGranted rate)) in
     starts_on k (outbound w) = [] /\
     status (hook w') = status (hook w) /\
     exists m, outbound w' = (outbound w ++ [(k, m)])%list /\ is_start_variant m = true).
Proof.
  exact (C1_start_message_handshake listen_only ∅
           (run listen_only (init ∅) [EvMount 48000 false; EvStart; EvOpen 0%nat])
           (ex_intro _ [EvMount 48000 false; EvStart; EvOpen 0%nat] eq_refl)).
Defined.

(** C1 as stated fails in three ways.  A listen-only session sends its
    start message at the first tick after the socket has opened although
    no message from the server has arrived: the status is still
    [connecting].  When start() is called again on a running session,
    the listener of the second call sends audio on the new socket before
    that socket has carried any start message.  And a call whose
    microphone request is refused sends no start message at all. *)
Lemma C1_counterexample :
  (let evs := [EvMount 48000 false; EvStart; EvOpen 0%nat; EvPoll 0%nat] in
   let w := run listen_only (init ∅) evs in
   Forall (fun e => match e with EvMessage _ _ => False | _ => True end) evs /\
   status (hook w) = st_connecting /\
   exists m, outbound w = [(0%nat, m)] /\ is_start_variant m = true) /\
  (let w := run hosted_on_safari (init hosted_heap)
              [EvMount 48000 false; EvStart; EvOpen 0%nat; EvPoll 0%nat;
               EvMicrophone 0%nat (MicGranted (Some 44100)); EvMessage 0%nat in_ready;
               EvStart; EvOpen 1%nat; EvMessage 1%nat in_ready;
               EvData 0%nat (Some "UklGRg")] in
   starts_on 1 (outbound w) = [] /\
   exists m, outbound w = [(0%nat, m); (0%nat, websocket_audio "UklGRg");
                           (1%nat, websocket_audio "UklGRg")] /\
             is_start_variant m = true) /\
  (let w := run hosted_on_safari (init hosted_heap)
              [EvMount 48000 false; EvStart; EvOpen 0%nat; EvPoll 0%nat;
               EvMicrophone 0%nat MicNotAllowed] in
   length (sockets w) = 1%nat /\ t_phase <$> starts w !! 0%nat = Some Failed /\
   List.filter (fun f => is_start_variant (snd f)) (outbound w) = [] /\
   status (hook w) = st_error).
Proof.
  split; [| split].
  - vm_compute. split; [repeat constructor |]. split; [reflexivity |].
    eexists. split; reflexivity.
  - vm_compute. split; [reflexivity |]. eexists. split; reflexivity.
  - vm_compute. repeat split.
Qed.

(** ** Three chunks in a row *)

(** C4 on the code.  Chunk A arrives on an idle session and starts
    playing, B and C arrive while it plays, then A ends.  The chunks are
    played one at a time in the order A, B, C; but when A ends its end
    callback tests the array its effect captured, which is empty, and
    the speaker is [user] while B is taken off the queue for playback
    and C is still waiting. *)
Lemma C4_speaker_between_chunks :
  let p := listen_only in
  let w1 := run p (init ∅)
              [EvMount 48000 false; EvStart; EvOpen 0%nat; EvPoll 0%nat;
               EvMessage 0%nat (in_audio "A"); EvDecoded 0%nat;
               EvMessage 0%nat (in_audio "B"); EvMessage 0%nat (in_audio "C")] in
  let w2 := step p w1 (EvEnded 0%nat) in
  let w3 := run p w2 [EvDecoded 1%nat; EvEnded 1%nat; EvDecoded 2%nat] in
  let w4 := step p w3 (EvEnded 2%nat) in
  (currentSpeaker (hook w1) = sp_agent /\ played w1 = ["A"] /\ queue w1 = ["B"; "C"] /\
   processing (hook w1) = true) /\
  (currentSpeaker (hook w2) = sp_user /\ played w2 = ["A"] /\ queue w2 = ["C"] /\
   processing (hook w2) = true /\
   p_audio <$> last (playbacks w2) = Some "B" /\
   p_phase <$> last (playbacks w2) = Some Fetching) /\
  (currentSpeaker (hook w3) = sp_agent /\ played w3 = ["A"; "B"; "C"] /\ queue w3 = []) /\
  (currentSpeaker (hook w4) = sp_user /\ played w4 = ["A"; "B"; "C"] /\ queue w4 = [] /\
   processing (hook w4) = false).
Proof. vm_compute. repeat split. Qed.

(** ** The backlog of a paused session *)

(** C5. While playback is disabled, every chunk that arrives on the
    open socket is appended to the queue and none is taken out, whether
    or not a chunk is still in flight.  When nothing is in flight and
    playback is enabled again, each decode and end callback firing in
    turn, exactly the chunks of the backlog are played, oldest first,
    none dropped and none twice, and the queue is empty afterwards.
    Whatever the order of arrivals, toggles and playback callbacks, the
    chunks taken off the queue followed by those still in it are the
    ones of before followed by the arrivals, in arrival order. *)
Theorem C5_backlog_resumes (p : Props) (w : World) (k : nat) (chunks : list Buffer) :
  sockets w !! k = Some OPEN -> active (hook w) = false ->
  is_Some (audioContext (hook w)) -> audioAnalyser (hook w) = true ->
  let w1 := run p w (arrivals k chunks) in
  (queue w1 = (queue w ++ chunks)%list /\ playbacks w1 = playbacks w /\
   played w1 = played w /\ active (hook w1) = false /\
   processing (hook w1) = processing (hook w)) /\
  (processing (hook w) = false ->
   let w2 := run p w1 (EvToggleActive ::
                         drain_events (length (playbacks w)) (length (queue w ++ chunks))) in
   played w2 = (played w ++ queue w ++ chunks)%list /\ queue w2 = [] /\
   processing (hook w2) = false /\ active (hook w2) = true) /\
  (forall evs, Forall (playback_event k) evs ->
   let w' := run p w evs in
   ((p_audio <$> playbacks w') ++ queue w')%list =
   ((p_audio <$> playbacks w) ++ queue w ++ arrived evs)%list).
Proof.
  intros Hk Ha [ctx Hctx] Han w1.
  assert (forall evs, Forall (playback_event k) evs ->
            ((p_audio <$> playbacks (run p w evs)) ++ queue (run p w evs))%list =
            ((p_audio <$> playbacks w) ++ queue w ++ arrived evs)%list) as Hfifo.
  { intros evs Hevs. destruct (view_run p k evs w Hk Hevs) as [Hv _].
    pose proof (backlog_fold k evs (view w) Hevs) as B.
    rewrite <- Hv in B. unfold backlog in B. rewrite <- app_assoc in B. exact B. }

  destruct (view_run p k (arrivals k chunks) w Hk (playback_event_arrivals k chunks))
    as [Hv1 Hs1].
  fold w1 in Hv1, Hs1.
  destruct (view_arrivals k chunks (view w) Ha) as (A1 & A2 & A3 & A4 & A5 & A6).
  rewrite <- Hv1 in A1, A2, A3, A4, A5, A6.
  split; [| split; [| exact Hfifo]]; clear Hfifo.
  { rewrite (view_queue w1), (view_queue w), (view_playbacks w1), (view_playbacks w),
      (view_played w1), (view_played w), (view_processing w1), (view_processing w).
    split; [exact A1 |]. split; [exact A2 |]. split; [exact A3 |].
    split; [exact A4 |]. exact A5. }
  intros Hp w2.
  assert (Forall (playback_event k)
            (EvToggleActive ::
               drain_events (length (playbacks w)) (length (queue w ++ chunks)))) as Hev.
  { constructor; [exact I | apply playback_event_drain]. }
  destruct (view_run p k _ w1 ltac:(now rewrite Hs1) Hev) as [Hv2 _].
  fold w2 in Hv2.
  rewrite (view_played w2), (view_queue w2), (view_processing w2).
  assert (active (hook w2) = v_active (view w2)) as -> by reflexivity.
  assert (v_context (view w) = true) as Hc.
  { simpl. rewrite Hctx, Han. rewrite bool_decide_eq_true_2 by eauto. reflexivity. }
  rewrite <- (view_queue w) in A1. rewrite <- (view_playbacks w) in A2.
  rewrite <- (view_played w) in A3. rewrite <- (view_processing w) in A5.
  rewrite Hc in A6. rewrite Hp in A5.
  rewrite Hv2. clear Hv2 Hv1 Hev.
  destruct (view w1) as [arrs q pr act cx sp pbs pl]. simpl in A1, A2, A3, A4, A5, A6.
  subst pr act cx pbs pl. unfold v_current, v_array_of in A1. simpl in A1.
  destruct (queue w ++ chunks)%list as [| c rest] eqn:EQ.
  - simpl. rewrite view_step_toggle_empty by assumption.
    unfold v_current, v_array_of. simpl. rewrite A1, app_nil_r. repeat split.
  - apply default_nil_cons in A1.
    cbn [fold_left]. rewrite (view_step_toggle_on _ _ _ _ _ _ c rest) by assumption.
    pose proof (lookup_lt_Some _ _ _ A1) as Hlt.
    destruct (view_drain rest (<[q := rest]> arrs) q sp (playbacks w) c (played w)
                (length (playbacks w)) _ (list_lookup_insert_eq _ _ _ Hlt) eq_refl eq_refl)
      as (I1 & I2 & I3 & I4 & I5 & I6).
    change (length (c :: rest)) with (S (length rest)).
    unfold in_flight in *. rewrite I1, I2, I3, I4. repeat split.
Qed.

Lemma C5_witness :
  let p := listen_only in
  let w := paused_world in
  let w1 := run p w (arrivals 0%nat ["A"; "B"]) in
  (queue w1 = (queue w ++ ["A"; "B"])%list /\ playbacks w1 = playbacks w /\
   played w1 = played w /\ active (hook w1) = false /\
   processing (hook w1) = processing (hook w)) /\
  (processing (hook w) = false ->
   let w2 := run p w1 (EvToggleActive ::
                         drain_events (length (playbacks w))
                           (length (queue w ++ ["A"; "B"]))) in
   played w2 = (played w ++ queue w ++ ["A"; "B"])%list /\ queue w2 = [] /\
   processing (hook w2) = false /\ active (hook w2) = true) /\
  (forall evs, Forall (playback_event 0%nat) evs ->
   let w' := run p w evs in
   ((p_audio <$> playbacks w') ++ queue w')%list =
   ((p_audio <$> playbacks w) ++ queue w ++ arrived evs)%list).
Proof.
  apply (C5_backlog_resumes listen_only paused_world 0%nat ["A"; "B"]).
  - reflexivity.
  - reflexivity.
  - vm_compute. eauto.
  - reflexivity.
Defined.
